(** * plankton-dinov2: collation, training step, teacher update, training
      loop and dataset index

    A shallow embedding of the parts of [dinov2/data/collate.py],
    [dinov2/train/ssl_meta_arch.py], [dinov2/train/train.py] and
    [dinov2/data/datasets/hdf5_dataset.py] that the natural-language
    specification talks about or that the code around them relies on,
    followed by the properties that were checked against it.  The first part
    holds the definitions (modules [Collate], [MetaArch], [Ema], [Train],
    [CollateDict], [Optim], [Streams], [Hdf5], the vocabulary of the
    properties and concrete inputs to run the definitions on), the second
    part the proofs.

    Conventions.
    - Python floats that only flow through [+], [/] and [math.isnan] (the
      reduced losses of the training loop) are binary64 primitive floats.
    - Python and torch floats that are used as ratios, probabilities and
      loss values whose algebra matters are exact rationals ([Qc]); the
      rounding of the machine arithmetic is not modelled there.  The
      elements of the network parameters are of an arbitrary type with its
      own operations.
    - Python ints are [Z]; list positions and lengths are [nat].
    - The random source, the mask generator, the networks and the loss
      modules are not part of the embedded files: they are section
      variables or fields of a record of collaborators. *)

From Stdlib Require Import ZArith QArith Qcanon Qround Floats Lia Permutation Sorted
  DecimalString.
From stdpp Require Import base list strings numbers gmap sorting.

(** Python exceptions that the embedded code can raise. *)
Inductive exn : Type :=
  | AssertionError
  | NotImplementedError
  | UnboundLocalError
  | RuntimeError
  | IndexError
  | ValueError
  | AttributeError
  | KeyError
  | ZeroDivisionError.

(** Result of a fallible computation. *)
Inductive result (A : Type) : Type :=
  | Ok (a : A)
  | Raise (e : exn).
Arguments Ok {A} a.
Arguments Raise {A} e.

#[global] Instance result_ret : MRet result := fun A a => Ok a.
#[global] Instance result_fmap : FMap result := fun A B f r =>
  match r with
  | Ok a => Ok (f a)
  | Raise e => Raise e
  end.
#[global] Instance result_bind : MBind result := fun A B k r =>
  match r with
  | Ok a => k a
  | Raise e => Raise e
  end.

(* ================================================================== *)
(** ** Collation ([collate_cpu], [collate_data_and_cast], collate.py) *)
(* ================================================================== *)

Module Collate.

(** *** Numbers *)

(** [int(x)] of a float: truncation toward zero. *)
Definition py_int (q : Qc) : Z := Z.quot (Qnum q) (Zpos (Qden q)).

Definition Qc_of_Z (z : Z) : Qc := Q2Qc (inject_Z z).
Definition Qc_of_nat (n : nat) : Qc := Qc_of_Z (Z.of_nat n).

(** [x.clamp(min=m)]. *)
Definition clamp_min (m x : Qc) : Qc := if bool_decide (x < m)%Qc then m else x.

Definition Qc_sum (l : list Qc) : Qc := foldr Qcplus 0%Qc l.

(** *** Python and torch list primitives *)

(** [range(lo, hi)]. *)
Definition py_range (lo hi : Z) : list Z := seqZ lo (hi - lo).

(** [l[i]] with Python's negative indices. *)
Definition py_index {A} (l : list A) (i : Z) : result A :=
  let n := Z.of_nat (length l) in
  let j := if (i <? 0)%Z then (n + i)%Z else i in
  if (j <? 0)%Z then Raise IndexError
  else match l !! Z.to_nat j with
       | Some a => Ok a
       | None => Raise IndexError
       end.

(** [for i in idx: st = body(st, i)], stopping at the first exception. *)
Fixpoint for_each {S} (body : S -> Z -> result S) (st : S) (idx : list Z)
  : result S :=
  match idx with
  | [] => Ok st
  | i :: idx' => st' ← body st i; for_each body st' idx'
  end.

(** [torch.linspace(a, b, steps)]. *)
Definition linspace (a b : Qc) (steps : Z) : result (list Qc) :=
  if (steps <? 0)%Z then Raise RuntimeError
  else if (steps =? 1)%Z then Ok [a]
  else Ok (map (fun i => a + Qc_of_Z i * ((b - a) / Qc_of_Z (steps - 1)))%Qc
             (seqZ 0 steps)).

(** A mask as the generator returns it: a grid of booleans, row by row. *)
Definition grid := list (list bool).

Definition grid_shape (m : grid) : list nat := map length m.

(** [torch.stack(masks_list).flatten(1)]: the list must be non-empty and
    all grids of one shape; each grid becomes one row. *)
Definition stack_flatten (ms : list grid) : result (list (list bool)) :=
  match ms with
  | [] => Raise RuntimeError
  | m0 :: _ =>
      if forallb (fun m => bool_decide (grid_shape m = grid_shape m0)) ms
      then Ok (map (@concat bool) ms)
      else Raise RuntimeError
  end.

(** [t.tile((1, c))] on a two-dimensional tensor. *)
Definition tile (c : nat) (rows : list (list bool)) : list (list bool) :=
  map (fun row => concat (replicate c row)) rows.

(** [t.sum(-1)] of a boolean row. *)
Fixpoint row_sum (row : list bool) : nat :=
  match row with
  | [] => 0
  | b :: row' => if b then S (row_sum row') else row_sum row'
  end.

(** [t.nonzero().flatten()] of a one-dimensional boolean tensor whose first
    element sits at position [s]. *)
Fixpoint nonzero_from (s : nat) (ms : list bool) : list nat :=
  match ms with
  | [] => []
  | b :: ms' =>
      if b then s :: nonzero_from (S s) ms' else nonzero_from (S s) ms'
  end.

Definition nonzero (ms : list bool) : list nat := nonzero_from 0 ms.

(** [x[mask]] (boolean-mask indexing) on flattened tensors. *)
Fixpoint masked_select {A} (xs : list A) (ms : list bool) : list A :=
  match xs, ms with
  | x :: xs', b :: ms' =>
      if b then x :: masked_select xs' ms' else masked_select xs' ms'
  | _, _ => []
  end.

(** [v.unsqueeze(-1).expand_as(rows)]. *)
Definition expand_as {A} (v : list A) (rows : list (list bool)) : list (list A) :=
  zip_with (fun x row => replicate (length row) x) v rows.

(** The divisors of the weight computation:
    [collated_masks.sum(-1).clamp(min=1.0)]. *)
Definition clamped_sums (rows : list (list bool)) : list Qc :=
  map (fun row => clamp_min 1 (Qc_of_nat (row_sum row))) rows.

(** [(1 / sums.clamp(min=1.0)).unsqueeze(-1).expand_as(masks)[masks]]. *)
Definition compute_masks_weight (rows : list (list bool)) : list Qc :=
  masked_select
    (concat (expand_as (map (fun d => 1 / d)%Qc (clamped_sums rows)) rows))
    (concat rows).

(** Vocabulary for the properties of the collated output: the weight
    every masked entry of [row] is expected to get, the flat position of the
    first entry of row [r], and the number of masked entries in the rows
    before row [r]. *)
Definition row_weight (row : list bool) : Qc :=
  (1 / clamp_min 1 (Qc_of_nat (row_sum row)))%Qc.

Definition row_offset (rows : list (list bool)) (r : nat) : nat :=
  length (concat (take r rows)).

Definition masked_before (rows : list (list bool)) (r : nat) : nat :=
  row_sum (concat (take r rows)).

(** The part of a per-masked-entry vector [v] that belongs to the masked
    entries of [row], the [r]-th row of [rows]. *)
Definition row_segment {A} (rows : list (list bool)) (r : nat)
    (row : list bool) (v : list A) : list A :=
  take (row_sum row) (drop (masked_before rows r) v).

(** [x[i], x[j] = x[j], x[i]]. *)
Definition swap {A} (x : list A) (i j : nat) : result (list A) :=
  match x !! i, x !! j with
  | Some xi, Some xj => Ok (<[j := xi]> (<[i := xj]> x))
  | _, _ => Raise IndexError
  end.

(** *** The arguments of [collate_data_and_cast] *)

Record config := {
  mask_ratio_tuple : Qc * Qc;
  mask_probability : Qc;
  n_tokens : Z;
  do_free_shapes : bool;
  patch_size : nat;
  use_ch_patch_embed : bool
}.

(** What the three input branches hand to the common part of the function:
    [B], the last dimension of [coll_global_crops], and the channel count
    [c], which the branch for lists of samples leaves unbound. *)
Record front := {
  B : nat;
  gc_last_dim : nat;
  c : option nat
}.

(** The returned mapping (the entries the properties are about). *)
Record collated (G : Type) := {
  collated_masks : list (list bool);
  mask_indices_list : list nat;
  masks_weight : list Qc;
  upperbound : Z;
  n_masked_patches : nat;
  rng_after : G
}.
Arguments collated_masks {G} _.
Arguments mask_indices_list {G} _.
Arguments masks_weight {G} _.
Arguments upperbound {G} _.
Arguments n_masked_patches {G} _.
Arguments rng_after {G} _.

(** State of the two mask loops. *)
Record loop_state (G : Type) := {
  st_masks_list : list grid;
  st_upperbound : Z;
  st_rng : G
}.
Arguments st_masks_list {G} _.
Arguments st_upperbound {G} _.
Arguments st_rng {G} _.
Arguments Build_loop_state {G} _ _ _.

Section WithRandomSource.

(** State of the random sources (Python's [random] and torch's generator). *)
Context {G : Type}.
(** [random.random()]. *)
Variable random : G -> Qc * G.
(** [random._randbelow(n)], as [random.shuffle] calls it. *)
Variable randbelow : nat -> G -> nat * G.
(** [torch.rand(1, n)]. *)
Variable torch_rand : nat -> G -> list Qc * G.
(** [mask_generator(num_masking_patches)]. *)
Variable mask_generator : Z -> G -> grid * G.

(** [random.uniform(a, b)]: [a + (b - a) * random()]. *)
Definition uniform (a b : Qc) (g : G) : Qc * G :=
  let (u, g') := random g in ((a + (b - a) * u)%Qc, g').

(** [random.shuffle(x)]: [for i in reversed(range(1, len(x)))], here for
    [i] from [n] down to 1. *)
Fixpoint shuffle_from {A} (n : nat) (x : list A) (g : G)
  : result (list A * G) :=
  match n with
  | 0 => Ok (x, g)
  | S n' =>
      let (j, g') := randbelow (S n) g in
      x' ← swap x n j; shuffle_from n' x' g'
  end.

Definition shuffle {A} (x : list A) (g : G) : result (list A * G) :=
  shuffle_from (length x - 1) x g.

Variable cfg : config.
Variable fr : front.

Definition N : Z := n_tokens cfg.

Definition n_samples_masked : Z :=
  py_int (Qc_of_nat (B fr) * mask_probability cfg).

(** [coll_global_crops[i].shape[-1] // patch_size]. *)
Definition crop_patches (i : Z) : result nat :=
  _ ← py_index (replicate (B fr) (gc_last_dim fr)) i;
  if (patch_size cfg =? 0)%nat then Raise ZeroDivisionError
  else Ok (gc_last_dim fr / patch_size cfg)%nat.

(** Body of [for i in range(0, n_samples_masked)]. *)
Definition masked_body (probs : list Qc) (st : loop_state G) (i : Z)
  : result (loop_state G) :=
  prob_min ← py_index probs i;
  prob_max ← py_index probs (i + 1);
  if do_free_shapes cfg then
    n ← crop_patches i;
    let (r, g1) := torch_rand n (st_rng st) in
    let (u, g2) := uniform prob_min prob_max g1 in
    Ok {| st_masks_list :=
            st_masks_list st ++ [[map (fun x => bool_decide (x < u)%Qc) r]];
          st_upperbound := st_upperbound st + py_int (Qc_of_Z N * prob_max);
          st_rng := g2 |}
  else
    let (u, g1) := uniform prob_min prob_max (st_rng st) in
    let (m, g2) := mask_generator (py_int (Qc_of_Z N * u)) g1 in
    Ok {| st_masks_list := st_masks_list st ++ [m];
          st_upperbound := st_upperbound st + py_int (Qc_of_Z N * prob_max);
          st_rng := g2 |}.

(** Body of [for i in range(n_samples_masked, B)]. *)
Definition unmasked_body (st : loop_state G) (i : Z) : result (loop_state G) :=
  if do_free_shapes cfg then
    n ← crop_patches i;
    Ok {| st_masks_list := st_masks_list st ++ [[replicate n false]];
          st_upperbound := st_upperbound st;
          st_rng := st_rng st |}
  else
    let (m, g') := mask_generator 0 (st_rng st) in
    Ok {| st_masks_list := st_masks_list st ++ [m];
          st_upperbound := st_upperbound st;
          st_rng := g' |}.

(** The two loops: the masks in the order they are generated. *)
Definition generate_masks (g : G) : result (loop_state G) :=
  probs ← linspace (mask_ratio_tuple cfg).1 (mask_ratio_tuple cfg).2
            (n_samples_masked + 1);
  st ← for_each (masked_body probs)
         {| st_masks_list := []; st_upperbound := 0; st_rng := g |}
         (py_range 0 n_samples_masked);
  for_each unmasked_body st (py_range n_samples_masked (Z.of_nat (B fr))).

(** The common part of [collate_data_and_cast], from [N = n_tokens] on. *)
Definition collate_masks (g : G) : result (collated G) :=
  st ← generate_masks g;
  '(masks_list, g') ←
     (if do_free_shapes cfg then Ok (st_masks_list st, st_rng st)
      else shuffle (st_masks_list st) (st_rng st));
  stacked ← stack_flatten masks_list;
  collated_masks ←
     (if use_ch_patch_embed cfg then
        match c fr with
        | Some ch => Ok (tile ch stacked)
        | None => Raise UnboundLocalError
        end
      else Ok stacked);
  let mask_indices_list := nonzero (concat collated_masks) in
  let masks_weight := compute_masks_weight collated_masks in
  let n := length mask_indices_list in
  let upperbound :=
    if (st_upperbound st <? Z.of_nat n)%Z then Z.of_nat n
    else st_upperbound st in
  Ok {| collated_masks := collated_masks;
        mask_indices_list := mask_indices_list;
        masks_weight := masks_weight;
        upperbound := upperbound;
        n_masked_patches := n;
        rng_after := g' |}.

End WithRandomSource.

(** *** Vocabulary for the properties of the two mask loops *)

(** Upper end of the [i]-th of [k] equal sub-intervals of the mask-ratio
    range. *)
Definition upper_ratio (cfg : config) (k i : Z) : Qc :=
  ((mask_ratio_tuple cfg).1 +
   Qc_of_Z (i + 1) *
     (((mask_ratio_tuple cfg).2 - (mask_ratio_tuple cfg).1) / Qc_of_Z k))%Qc.

Definition Z_sum (l : list Z) : Z := foldr Z.add 0%Z l.

(** The sum, over the rows that get a drawn ratio, of [int(N * upper
    ratio)]: the largest coverage count each of them can request. *)
Definition expected_max_masked (cfg : config) (fr : front) : Z :=
  let k := n_samples_masked cfg fr in
  Z_sum (map (fun i => py_int (Qc_of_Z (n_tokens cfg) * upper_ratio cfg k i))
           (py_range 0 k)).

Definition grid_all_false (m : grid) : Prop := Forall (Forall (eq false)) m.

(** *** Lists of samples, fixed shapes ([collate_cpu]) *)

Section ListOfSamples.

(** A crop tensor; only its shape is looked at. *)
Context {crop : Type}.
Variable crop_shape : crop -> list nat.

Record sample := {
  global_crops : list crop;
  local_crops : list crop
}.

(** [[s[0][key][i] for i in range(n) for s in samples]]. *)
Definition gather (key : sample -> list crop) (n : nat) (samples : list sample)
  : result (list crop) :=
  (fun rows => concat rows) <$>
    mapM (M := result) (fun i =>
      mapM (M := result) (fun s =>
        match key s !! i with
        | Some x => Ok x
        | None => Raise IndexError
        end) samples) (seq 0 n).

(** [torch.stack] of crops. *)
Definition stack_crops (l : list crop) : result (list crop) :=
  match l with
  | [] => Raise RuntimeError
  | x0 :: _ =>
      if forallb (fun x => bool_decide (crop_shape x = crop_shape x0)) l
      then Ok l else Raise RuntimeError
  end.

(** [collate_cpu] with [do_free_shapes=False] and
    [use_variable_channels=False].  The global crops of a sample are one
    tensor, unpacked as [n_gc, c, np, p = ....shape]: every crop has three
    dimensions. *)
Definition collate_cpu (samples : list sample)
  : result (list crop * list crop) :=
  match samples with
  | [] => Raise IndexError
  | s0 :: _ =>
      let n_global_crops := length (global_crops s0) in
      let n_local_crops := length (local_crops s0) in
      if match global_crops s0 with
         | x :: _ => negb (length (crop_shape x) =? 3)%nat
         | [] => false
         end
      then Raise ValueError
      else
        coll_global_crops ← gather global_crops n_global_crops samples;
        coll_local_crops ← gather local_crops n_local_crops samples;
        g ← stack_crops coll_global_crops;
        l ← stack_crops coll_local_crops;
        Ok (g, l)
  end.

Context {G : Type}.
Variable random : G -> Qc * G.
Variable randbelow : nat -> G -> nat * G.
Variable torch_rand : nat -> G -> list Qc * G.
Variable mask_generator : Z -> G -> grid * G.

(** [collate_data_and_cast] on a list of samples (the [else] branch, "on
    cpu").  The model of the front end covers fixed shapes only: the
    properties stated about it assume [do_free_shapes cfg = false].  The
    channel count [c] is not assigned on this branch. *)
Definition collate_data_and_cast (cfg : config) (samples : list sample) (g : G)
  : result (list crop * list crop * collated G) :=
  '(coll_global_crops, coll_local_crops) ← collate_cpu samples;
  let fr := {| B := length coll_global_crops;
               gc_last_dim := match coll_global_crops with
                              | x :: _ => List.last (crop_shape x) 0%nat
                              | [] => 0%nat
                              end;
               c := None |} in
  out ← collate_masks random randbelow torch_rand mask_generator cfg fr g;
  Ok (coll_global_crops, coll_local_crops, out).

End ListOfSamples.

End Collate.

(* ================================================================== *)
(** ** The training step ([SSLMetaArch], ssl_meta_arch.py) *)
(* ================================================================== *)

Module MetaArch.
Import Collate.

(** A token or logits vector, and a two-dimensional tensor of them. *)
Definition row := list Qc.
Definition rows := list row.

(** *** Packing token groups for the shared head *)

(** Modelled from the spec: [fmha.BlockDiagonalMask] belongs to the
    xformers library, whose code is not part of the repository's sources.
    Section 4.4 of the specification describes it as
    concatenating the groups along one axis together with block-diagonal
    grouping metadata, and splitting a tensor of the packed length back by
    reapplying the same block boundaries in the same order; section 7 makes
    a length that does not match the boundaries a fatal assertion.  The
    metadata kept here is the list of block boundaries [0 = s_0 <= s_1 <=
    ... <= s_n]. *)
Record BlockDiagonalMask := { seqstart : list nat }.

Fixpoint boundaries (s : nat) (lens : list nat) : list nat :=
  match lens with
  | [] => [s]
  | n :: lens' => s :: boundaries (s + n) lens'
  end.

Definition from_tensor_list {A} (groups : list (list A))
  : BlockDiagonalMask * list A :=
  ({| seqstart := boundaries 0 (map length groups) |}, concat groups).

(** The blocks [x[s_i : s_{i+1}]]. *)
Fixpoint blocks {A} (starts : list nat) (x : list A) : list (list A) :=
  match starts with
  | s :: (e :: _) as starts' => take (e - s) (drop s x) :: blocks starts' x
  | _ => []
  end.

Definition split {A} (bias : BlockDiagonalMask) (x : list A)
  : result (list (list A)) :=
  if bool_decide (List.last (seqstart bias) 0%nat = length x)
  then Ok (blocks (seqstart bias) x)
  else Raise AssertionError.

(** [outputs_list.pop(0)]. *)
Definition pop0 {A} (l : list A) : result (A * list A) :=
  match l with
  | [] => Raise IndexError
  | x :: l' => Ok (x, l')
  end.

(** *** Tensor helpers *)

(** [t.chunk(n)] along the first dimension: pieces of [ceil(len / n)]
    rows ([n > 0] at every call). *)
Fixpoint chunks_of {A} (fuel size : nat) (x : list A) : list (list A) :=
  match fuel with
  | 0 => []
  | S fuel' =>
      match x with
      | [] => []
      | _ => take size x :: chunks_of fuel' size (drop size x)
      end
  end.

Definition chunk {A} (n : nat) (x : list A) : list (list A) :=
  match x with
  | [] => replicate n []          (* an empty tensor gives [n] empty pieces *)
  | _ => chunks_of (length x) ((length x + n - 1) / n) x
  end.

(** [torch.index_select(x, dim=0, index=idx)]. *)
Definition index_select {A} (x : list A) (idx : list nat) : result (list A) :=
  mapM (M := result) (fun i => match x !! i with
                               | Some r => Ok r
                               | None => Raise IndexError
                               end) idx.

(** [t.view(n, -1, ...)]: [n] equal pieces; what [-1] stands for cannot be
    inferred for an empty tensor. *)
Definition view {A} (n : nat) (x : list A) : result (list (list A)) :=
  if (n =? 0)%nat || (length x =? 0)%nat then Raise RuntimeError
  else if (length x mod n =? 0)%nat
       then Ok (map (fun i => take (length x / n) (drop (i * (length x / n)) x))
                  (seq 0 n))
       else Raise RuntimeError.

Definition mean (l : list Qc) : Qc := (Qc_sum l / Qc_of_nat (length l))%Qc.

(** *** Construction ([SSLMetaArch.__init__]) *)

(** The configuration entries the constructor and the training step read.
    The model covers [cfg.crops.free_shapes = False]. *)
Record cfg := {
  dino_loss_weight : Qc;
  koleo_loss_weight : Qc;
  ibot_loss_weight : Qc;
  ibot_separate_head : bool;
  mask_ratio_min_max : Qc * Qc;
  mask_sample_probability : Qc;
  centering : string;
  local_crops_number : nat
}.

(** The attributes the constructor leaves on the module.  [dino_loss] and
    [dino_loss_weight] exist when [do_dino]; the student and teacher
    dictionaries have a ["dino_head"] entry when [has_dino_head] and an
    ["ibot_head"] entry when [has_ibot_head]. *)
Record SSLMetaArch := {
  the_cfg : cfg;
  do_dino : bool;
  do_koleo : bool;
  do_ibot : bool;
  has_dino_head : bool;
  has_ibot_head : bool
}.

Definition Qc_ltb (x y : Qc) : bool := bool_decide (x < y)%Qc.

Definition Qc_max (x y : Qc) : Qc := if Qc_ltb x y then y else x.

Definition init (c : cfg) : result SSLMetaArch :=
  let do_dino := Qc_ltb 0 (dino_loss_weight c) in
  let do_koleo := Qc_ltb 0 (koleo_loss_weight c) in
  let do_ibot := Qc_ltb 0 (ibot_loss_weight c) in
  (* [dino_head] is only bound when [do_dino] *)
  has_dino_head ←
    (if do_dino || do_ibot
     then if do_dino then Ok true else Raise UnboundLocalError
     else Ok false);
  has_ibot_head ←
    (if do_ibot then
       if negb (Qc_ltb 0 (Qc_max (mask_ratio_min_max c).1 (mask_ratio_min_max c).2))
       then Raise AssertionError
       else if negb (Qc_ltb 0 (mask_sample_probability c))
       then Raise AssertionError
       else Ok (ibot_separate_head c)
     else Ok false);
  Ok {| the_cfg := c;
        do_dino := do_dino;
        do_koleo := do_koleo;
        do_ibot := do_ibot;
        has_dino_head := has_dino_head;
        has_ibot_head := has_ibot_head |}.

(** *** The collaborators of the training step *)

(** The networks and loss modules, which the embedded files only call.
    Heads act on each token on its own (the student must not contain batch
    normalisation, see [prepare_for_distributed_training]). *)
Record networks (crop : Type) := {
  embed_dim : nat;
  (* [x_norm_clstoken], [x_norm_patchtokens.flatten(0, 1)] *)
  teacher_backbone : list crop -> rows * rows;
  (* on [global_crops, local_crops] with [masks]: global class tokens,
     global patch tokens flattened, local class tokens *)
  student_backbone : list crop -> list (list bool) -> list crop -> rows * rows * rows;
  teacher_dino_head : row -> row;
  teacher_ibot_head : row -> row;
  student_dino_head : row -> row;
  student_ibot_head : row -> row;
  (* [DINOLoss] and [iBOTPatchLoss] centering *)
  dino_softmax_center_teacher : rows -> Qc -> rows;
  dino_sinkhorn_knopp_teacher : rows -> Qc -> rows;
  ibot_softmax_center_teacher : rows -> Qc -> rows;
  ibot_sinkhorn_knopp_teacher : rows -> Qc -> nat -> rows;
  (* cross-entropy of one student logits vector against one teacher
     pseudo-target *)
  cross_entropy : row -> row -> Qc;
  ibot_forward_masked : rows -> rows -> list (list bool) -> nat -> list Qc -> Qc;
  koleo_loss : rows -> Qc
}.
Arguments embed_dim {crop} _.
Arguments teacher_backbone {crop} _.
Arguments student_backbone {crop} _.
Arguments teacher_dino_head {crop} _.
Arguments teacher_ibot_head {crop} _.
Arguments student_dino_head {crop} _.
Arguments student_ibot_head {crop} _.
Arguments dino_softmax_center_teacher {crop} _.
Arguments dino_sinkhorn_knopp_teacher {crop} _.
Arguments ibot_softmax_center_teacher {crop} _.
Arguments ibot_sinkhorn_knopp_teacher {crop} _.
Arguments cross_entropy {crop} _.
Arguments ibot_forward_masked {crop} _.
Arguments koleo_loss {crop} _.

(** What the step does to the world outside, in order. *)
Inductive event : Type :=
  | TeacherBackboneForward
  | TeacherHeadForward
  | UpdateCenter
  | ReshardTeacher
  | StudentBackboneForward
  | StudentHeadForward
  | Backward (loss : Qc)
  | SynchronizeStreams.

(** Computations that log events and may raise. *)
Definition M (A : Type) : Type := list event -> list event * result A.

#[global] Instance M_ret : MRet M := fun A a log => (log, Ok a).
#[global] Instance M_bind : MBind M := fun A B k m log =>
  match m log with
  | (log', Ok a) => k a log'
  | (log', Raise e) => (log', Raise e)
  end.

Definition emit (e : event) : M unit := fun log => (log ++ [e], Ok tt).
Definition lift {A} (r : result A) : M A := fun log => (log, r).
Definition raise {A} (e : exn) : M A := lift (Raise e).

(** The batch as [collate_data_and_cast] returns it. *)
Record images (crop : Type) := {
  collated_global_crops : list crop;
  collated_local_crops : list crop;
  collated_masks : list (list bool);
  mask_indices_list : list nat;
  masks_weight : list Qc;
  upperbound : Z
}.
Arguments collated_global_crops {crop} _.
Arguments collated_local_crops {crop} _.
Arguments collated_masks {crop} _.
Arguments mask_indices_list {crop} _.
Arguments masks_weight {crop} _.
Arguments upperbound {crop} _.

(** *** The loss terms *)

Definition n_global_crops : nat := 2.

Definition n_local_crops_loss_terms (n_local_crops : nat) : nat :=
  Nat.max (n_local_crops * n_global_crops) 1.

Definition n_global_crops_loss_terms : nat :=
  ((n_global_crops - 1) * n_global_crops)%nat.

Definition loss_scales : Qc := Qc_of_nat 2.

Definition ibot_loss_scale : Qc := (1 / Qc_of_nat n_global_crops)%Qc.

Section Losses.

(** Cross-entropy of one student logits vector against one teacher
    pseudo-target. *)
Variable cross_entropy : row -> row -> Qc.

(** Modelled from the spec: [DINOLoss.forward] (dinov2/loss) is missing
    from the sources at hand.  Section 4.5 of the specification has the
    distillation loss as the cross-entropy of a crop's student outputs
    against a crop's teacher pseudo-targets, summed over the student/teacher
    pairs handed to it.  The cross-entropy of a pair of batches is the mean
    over the batch of the row-wise cross-entropy. *)
Definition pair_cross_entropy (s t : rows) : Qc :=
  mean (zip_with cross_entropy s t).

Definition dino_loss (student_output_list
                      teacher_out_softmaxed_centered_list : list rows) : Qc :=
  Qc_sum (s ← student_output_list;
          t ← teacher_out_softmaxed_centered_list;
          [pair_cross_entropy s t]).

(** The expression assigned to [dino_local_crops_loss]. *)
Definition dino_local_crops_loss (n_local_crops : nat)
    (chunked_student_local_cls_tokens_after_head : list rows)
    (teacher_dino_softmaxed_centered_list : list rows) : Qc :=
  (dino_loss chunked_student_local_cls_tokens_after_head
     teacher_dino_softmaxed_centered_list
   / Qc_of_nat (n_global_crops_loss_terms
                + n_local_crops_loss_terms n_local_crops))%Qc.

(** The expression assigned to [dino_global_crops_loss]; the teacher list
    is flattened ([flatten(0, 1)]) into one tensor. *)
Definition dino_global_crops_loss (n_local_crops : nat)
    (student_global_cls_tokens_after_head : rows)
    (teacher_dino_softmaxed_centered_list : list rows) : Qc :=
  (dino_loss [student_global_cls_tokens_after_head]
     [concat teacher_dino_softmaxed_centered_list]
   * loss_scales
   / Qc_of_nat (n_global_crops_loss_terms
                + n_local_crops_loss_terms n_local_crops))%Qc.

End Losses.

(** *** [forward_backward] *)

Section Step.

Context {crop : Type}.
Variable net : networks crop.
Variable self : SSLMetaArch.

Definition zeros (n : nat) : rows := replicate n (replicate (embed_dim net) 0%Qc).

(** [x.new_zeros(upperbound, dim)] with the selected tokens copied to its
    first rows. *)
Definition fill_buffer (upperbound : Z) (selected : rows) : result rows :=
  if (upperbound <? Z.of_nat (length selected))%Z then Raise RuntimeError
  else Ok (selected ++ zeros (Z.to_nat upperbound - length selected)).

(** First half of [get_teacher_output]: backbone, swap of the two global
    crops, gather of the masked patch tokens, heads. *)
Definition teacher_tokens_after_head (im : images crop)
  : M (rows * option rows) :=
  let n_masked_patches := length (mask_indices_list im) in
  _ ← emit TeacherBackboneForward;
  let '(cls, ibot_teacher_patch_tokens) :=
    teacher_backbone net (collated_global_crops im) in
  let chunks := chunk n_global_crops cls in
  c1 ← lift (py_index chunks 1);
  c0 ← lift (py_index chunks 0);
  let teacher_cls_tokens := c1 ++ c0 in
  let n_cls_tokens := length teacher_cls_tokens in
  if do_ibot self && negb (ibot_separate_head (the_cfg self)) then
    selected ← lift (index_select ibot_teacher_patch_tokens
                       (mask_indices_list im));
    buffer ← lift (fill_buffer (upperbound im) selected);
    if negb (has_dino_head self) then raise AttributeError
    else
      _ ← emit TeacherHeadForward;
      let tokens_after_head :=
        map (teacher_dino_head net) (teacher_cls_tokens ++ buffer) in
      mret (take n_cls_tokens tokens_after_head,
            Some (take n_masked_patches
                    (drop n_cls_tokens tokens_after_head)))
  else if do_ibot self && ibot_separate_head (the_cfg self) then
    selected ← lift (index_select ibot_teacher_patch_tokens
                       (mask_indices_list im));
    buffer ← lift (fill_buffer (upperbound im) selected);
    if negb (has_dino_head self && has_ibot_head self)
    then raise AttributeError
    else
      _ ← emit TeacherHeadForward;
      _ ← emit TeacherHeadForward;
      mret (map (teacher_dino_head net) teacher_cls_tokens,
            Some (take n_masked_patches
                    (map (teacher_ibot_head net) buffer)))
  else
    if negb (has_dino_head self) then raise AttributeError
    else
      _ ← emit TeacherHeadForward;
      mret (map (teacher_dino_head net) teacher_cls_tokens, None).

(** [get_teacher_output]: the heads' outputs, then the centering selected
    by [cfg.train.centering]. *)
Definition get_teacher_output (im : images crop) (teacher_temp : Qc)
  : M (list rows * option rows) :=
  let n_masked_patches := length (mask_indices_list im) in
  '(teacher_cls_tokens_after_head, masked_teacher_patch_tokens_after_head) ←
    teacher_tokens_after_head im;
  if String.eqb (centering (the_cfg self)) "centering" then
    if negb (do_dino self) then raise AttributeError
    else
      teacher_dino_softmaxed_centered_list ←
        lift (view n_global_crops
                (dino_softmax_center_teacher net
                   teacher_cls_tokens_after_head teacher_temp));
      _ ← emit UpdateCenter;
      if do_ibot self then
        let masked :=
          ibot_softmax_center_teacher net
            (take n_masked_patches
               (default [] masked_teacher_patch_tokens_after_head))
            teacher_temp in
        _ ← emit UpdateCenter;
        mret (teacher_dino_softmaxed_centered_list, Some masked)
      else mret (teacher_dino_softmaxed_centered_list, None)
  else if String.eqb (centering (the_cfg self)) "sinkhorn_knopp" then
    if negb (do_dino self) then raise AttributeError
    else
      teacher_dino_softmaxed_centered_list ←
        lift (view n_global_crops
                (dino_sinkhorn_knopp_teacher net
                   teacher_cls_tokens_after_head teacher_temp));
      if do_ibot self then
        mret (teacher_dino_softmaxed_centered_list,
              Some (ibot_sinkhorn_knopp_teacher net
                      (default [] masked_teacher_patch_tokens_after_head)
                      teacher_temp n_masked_patches))
      else mret (teacher_dino_softmaxed_centered_list, None)
  else raise NotImplementedError.

Definition loss_dict := list (string * Qc).

Definition forward_backward (im : images crop) (teacher_temp : Qc)
  : M loss_dict :=
  let n_local_crops := local_crops_number (the_cfg self) in
  let n_masked_patches := length (mask_indices_list im) in
  '(teacher_dino_softmaxed_centered_list,
    masked_teacher_ibot_softmaxed_centered) ←
      get_teacher_output im teacher_temp;
  _ ← emit ReshardTeacher;
  _ ← emit StudentBackboneForward;
  let '(student_global_cls_tokens, ibot_student_patch_tokens,
        student_local_cls_tokens) :=
    student_backbone net (collated_global_crops im) (collated_masks im)
      (collated_local_crops im) in
  (* 1a, 1b: local and global class tokens; 1c: masked patch tokens *)
  let inputs := [student_local_cls_tokens; student_global_cls_tokens] in
  '(inputs_for_student_head_list, separate_head_output) ←
    (if do_ibot self then
       selected ← lift (index_select ibot_student_patch_tokens
                          (mask_indices_list im));
       buffer_tensor_patch_tokens ←
         lift (fill_buffer (upperbound im) selected);
       if negb (ibot_separate_head (the_cfg self))
       then mret (inputs ++ [buffer_tensor_patch_tokens], None)
       else if negb (has_ibot_head self) then raise AttributeError
       else
         _ ← emit StudentHeadForward;
         mret (inputs,
               Some (take n_masked_patches
                       (map (student_ibot_head net)
                          buffer_tensor_patch_tokens)))
     else mret (inputs, None));
  (* 2: run *)
  let '(_attn_bias, cat_inputs) :=
    from_tensor_list inputs_for_student_head_list in
  if negb (has_dino_head self) then raise AttributeError
  else
    _ ← emit StudentHeadForward;
    let student_head_output := map (student_dino_head net) cat_inputs in
    outputs_list ← lift (split _attn_bias student_head_output);
    (* 3a, 3b, 3c *)
    '(student_local_cls_tokens_after_head, outputs_list) ←
      lift (pop0 outputs_list);
    '(student_global_cls_tokens_after_head, outputs_list) ←
      lift (pop0 outputs_list);
    student_global_masked_patch_tokens_after_head ←
      (if do_ibot self && negb (ibot_separate_head (the_cfg self)) then
         '(x, _) ← lift (pop0 outputs_list);
         mret (Some (take n_masked_patches x))
       else mret separate_head_output);
    '(loss_dict, loss_accumulator) ←
      (if (0 <? n_local_crops)%nat then
         if negb (do_dino self) then raise AttributeError
         else
           let l :=
             dino_local_crops_loss (cross_entropy net) n_local_crops
               (chunk n_local_crops student_local_cls_tokens_after_head)
               teacher_dino_softmaxed_centered_list in
           mret ([("dino_local_crops_loss"%string, l)],
                 (0 + dino_loss_weight (the_cfg self) * l)%Qc)
       else mret ([], 0%Qc));
    (* process global crops *)
    let '(loss_dict, loss_accumulator) :=
      if do_dino self then
        let l :=
          dino_global_crops_loss (cross_entropy net) n_local_crops
            student_global_cls_tokens_after_head
            teacher_dino_softmaxed_centered_list in
        let loss_dict := loss_dict ++ [("dino_global_crops_loss"%string, l)] in
        let loss_accumulator :=
          (loss_accumulator + dino_loss_weight (the_cfg self) * l)%Qc in
        if do_koleo self then
          let koleo :=
            (koleo_loss_weight (the_cfg self)
             * foldl Qcplus 0%Qc
                 (map (koleo_loss net) (chunk 2 student_global_cls_tokens)))%Qc in
          (loss_dict ++ [("koleo_loss"%string, (koleo / loss_scales)%Qc)],
           (loss_accumulator + koleo)%Qc)
        else (loss_dict, loss_accumulator)
      else (loss_dict, loss_accumulator) in
    let '(loss_dict, loss_accumulator) :=
      if do_ibot self then
        let ibot_patch_loss :=
          (ibot_forward_masked net
             (default [] student_global_masked_patch_tokens_after_head)
             (default [] masked_teacher_ibot_softmaxed_centered)
             (collated_masks im) n_masked_patches (masks_weight im)
           * loss_scales * ibot_loss_scale)%Qc in
        (loss_dict ++ [("ibot_loss"%string, (ibot_patch_loss / Qc_of_nat 2)%Qc)],
         (loss_accumulator
          + ibot_loss_weight (the_cfg self) * ibot_patch_loss)%Qc)
      else (loss_dict, loss_accumulator) in
    _ ← emit (Backward loss_accumulator);
    _ ← emit SynchronizeStreams;
    mret loss_dict.

End Step.

(** Vocabulary for the properties of the step. *)
Definition teacher_event (e : event) : bool :=
  match e with
  | TeacherBackboneForward | TeacherHeadForward => true
  | _ => false
  end.

Definition recognised_centering (s : string) : bool :=
  String.eqb s "centering" || String.eqb s "sinkhorn_knopp".

Definition set_centering (s : string) (c : cfg) : cfg :=
  {| dino_loss_weight := dino_loss_weight c;
     koleo_loss_weight := koleo_loss_weight c;
     ibot_loss_weight := ibot_loss_weight c;
     ibot_separate_head := ibot_separate_head c;
     mask_ratio_min_max := mask_ratio_min_max c;
     mask_sample_probability := mask_sample_probability c;
     centering := s;
     local_crops_number := local_crops_number c |}.

Definition with_cfg (c : cfg) (a : SSLMetaArch) : SSLMetaArch :=
  {| the_cfg := c;
     do_dino := do_dino a;
     do_koleo := do_koleo a;
     do_ibot := do_ibot a;
     has_dino_head := has_dino_head a;
     has_ibot_head := has_ibot_head a |}.

End MetaArch.

(* ================================================================== *)
(** ** The teacher update ([SSLMetaArch.update_teacher]) *)
(* ================================================================== *)

Module Ema.

Section Scalars.

(** The element type of the parameters with the three operations the
    update uses; nothing is assumed about them here. *)
Context {T : Type}.
Variables (mul add sub : T -> T -> T) (one : T).

(** A parameter tensor (flattened) with the autograd attributes that
    in-place operations look at. *)
Record tensor := {
  data : list T;
  requires_grad : bool;
  is_leaf : bool
}.

(** Parameters live in a store ([gmap nat tensor]) and are shared by
    reference: the lists [ms.params] and [mt.params] hold references. *)

(** [get_fsdp_modules(self.student[k])] for every key [k], in the order of
    [self.student.keys()]: every module is its list [.params]. *)
Definition module_dict := list (string * list (list nat)).

Record state := {
  params : gmap nat tensor;
  grad_enabled : bool
}.

(** Autograd for an in-place operation on [t] whose other operands
    require gradients or not ([others]): with gradient mode on, a leaf that
    requires gradients cannot be modified, and a result that depends on a
    tensor requiring gradients is recorded in the graph. *)
Definition inplace (g others : bool) (f : list T -> list T) (t : tensor)
  : result tensor :=
  if g && requires_grad t && is_leaf t then Raise RuntimeError
  else if g && (requires_grad t || others)
       then Ok {| data := f (data t); requires_grad := true; is_leaf := false |}
       else Ok {| data := f (data t);
                  requires_grad := requires_grad t;
                  is_leaf := is_leaf t |}.

(** [torch._foreach_mul_(tensors, m)]. *)
Fixpoint foreach_mul_ (g : bool) (tensors : list nat) (m : T)
    (s : gmap nat tensor) : result (gmap nat tensor) :=
  match tensors with
  | [] => Ok s
  | r :: tensors' =>
      match s !! r with
      | None => Raise KeyError
      | Some t =>
          t' ← inplace g false (map (fun x => mul x m)) t;
          foreach_mul_ g tensors' m (<[r := t']> s)
      end
  end.

(** [t.add_(o, alpha=alpha)] on tensors of one shape. *)
Definition add_alpha (alpha : T) (o : list T) (t : list T) : list T :=
  zip_with (fun x y => add x (mul alpha y)) t o.

Fixpoint foreach_add_loop (g : bool) (pairs : list (nat * nat)) (alpha : T)
    (s : gmap nat tensor) : result (gmap nat tensor) :=
  match pairs with
  | [] => Ok s
  | (r, r_other) :: pairs' =>
      match s !! r, s !! r_other with
      | Some t, Some o =>
          if bool_decide (length (data t) = length (data o)) then
            t' ← inplace g (requires_grad o) (add_alpha alpha (data o)) t;
            foreach_add_loop g pairs' alpha (<[r := t']> s)
          else Raise RuntimeError
      | _, _ => Raise KeyError
      end
  end.

(** [torch._foreach_add_(tensors, others, alpha=alpha)]. *)
Definition foreach_add_ (g : bool) (tensors others : list nat) (alpha : T)
    (s : gmap nat tensor) : result (gmap nat tensor) :=
  if bool_decide (length tensors = length others)
  then foreach_add_loop g (zip tensors others) alpha s
  else Raise RuntimeError.

(** [self.teacher[k]]. *)
Fixpoint getitem (d : module_dict) (k : string) : result (list (list nat)) :=
  match d with
  | [] => Raise KeyError
  | (k', v) :: d' => if String.eqb k k' then Ok v else getitem d' k
  end.

(** The two loops that fill [student_param_list] and
    [teacher_param_list]. *)
Fixpoint param_lists (student_items : module_dict) (teacher : module_dict)
  : result (list nat * list nat) :=
  match student_items with
  | [] => Ok ([], [])
  | (k, student_modules) :: items' =>
      teacher_modules ← getitem teacher k;
      '(sl, tl) ← param_lists items' teacher;
      let pairs := zip student_modules teacher_modules in
      Ok (concat (map fst pairs) ++ sl, concat (map snd pairs) ++ tl)
  end.

(** [update_teacher(m)]: under [torch.no_grad()], which switches gradient
    mode off and restores it on exit. *)
Definition update_teacher (student teacher : module_dict) (m : T) (st : state)
  : result state :=
  '(student_param_list, teacher_param_list) ← param_lists student teacher;
  s1 ← foreach_mul_ false teacher_param_list m (params st);
  s2 ← foreach_add_ false teacher_param_list student_param_list
         (sub one m) s1;
  Ok {| params := s2; grad_enabled := grad_enabled st |}.

(** The update written out for one pair of tensors, as the specification
    states it. *)
Definition ema (m : T) (teacher student : list T) : list T :=
  zip_with (fun t s => add (mul m t) (mul (sub one m) s)) teacher student.

End Scalars.

Arguments tensor T : clear implicits.
Arguments state T : clear implicits.

End Ema.

(* ================================================================== *)
(** ** The training loop ([do_train], train.py) *)
(* ================================================================== *)

Module Train.

(** [loss_dict]: insertion-ordered mapping from loss name to value. *)
Definition loss_dict := list (string * float).

(** What one pass of the loop body receives from outside the modelled
    code: the mapping returned by [model.forward_backward] on this
    process, and for every other process the values it contributes to
    [torch.distributed.all_reduce], in the order of the mapping. *)
Record iter_input := {
  losses : loss_dict;
  peers : list (list float)
}.

Definition float_of_nat (n : nat) : float :=
  PrimFloat.of_uint63 (Uint63.of_Z (Z.of_nat n)).

(** [torch.distributed.all_reduce(v)] (sum) for the [j]-th value. *)
Definition all_reduce (ps : list (list float)) (j : nat) (v : float) : float :=
  fold_left PrimFloat.add (map (fun p => nth j p PrimFloat.zero) ps) v.

Fixpoint all_reduce_dict (ps : list (list float)) (j : nat) (d : loss_dict)
  : loss_dict :=
  match d with
  | [] => []
  | (k, v) :: d' => (k, all_reduce ps j v) :: all_reduce_dict ps (S j) d'
  end.

(** [{k: v.item() / global_size for k, v in loss_dict.items()}], after the
    reduction that only runs when [global_size > 1]. *)
Definition loss_dict_reduced (global_size : nat) (inp : iter_input) : loss_dict :=
  let d := if (1 <? global_size)%nat
           then all_reduce_dict (peers inp) 0 (losses inp)
           else losses inp in
  map (fun kv => (fst kv, PrimFloat.div (snd kv) (float_of_nat global_size))) d.

(** Python [sum(values)]: a left fold of [+] from [0] (the compensation of
    rounding errors that newer interpreters add is not modelled). *)
Definition py_sum (vs : list float) : float :=
  fold_left PrimFloat.add vs PrimFloat.zero.

Definition losses_reduced (global_size : nat) (inp : iter_input) : float :=
  py_sum (map snd (loss_dict_reduced global_size inp)).

(** The loop state that the properties observe. *)
Record trainer := {
  iteration : nat;
  optimizer_steps : nat;     (* optimizer.step() / fp16_scaler.step() *)
  teacher_updates : nat;     (* model.update_teacher(mom) *)
  logged : list float        (* total_loss handed to metric_logger *)
}.

Inductive status : Type :=
  | Next                      (* go on with the next batch *)
  | Completed                 (* the data loader is exhausted *)
  | Returned                  (* [if iteration > max_iter: return] *)
  | Raised (e : exn).

(** One pass through the body of the [for data in ...] loop. *)
Definition train_iter (max_iter global_size : nat) (st : trainer)
    (inp : iter_input) : trainer * status :=
  if (max_iter <? iteration st)%nat then (st, Returned)
  else
    (* forward_backward, gradient clipping, optimizer step, EMA update *)
    let st1 := {| iteration := iteration st;
                  optimizer_steps := S (optimizer_steps st);
                  teacher_updates := S (teacher_updates st);
                  logged := logged st |} in
    let total := losses_reduced global_size inp in
    if PrimFloat.is_nan total then (st1, Raised AssertionError)
    else
      ({| iteration := S (iteration st1);
          optimizer_steps := optimizer_steps st1;
          teacher_updates := teacher_updates st1;
          logged := logged st1 ++ [total] |}, Next).

(** The loop over the batches the data loader yields. *)
Fixpoint do_train (max_iter global_size : nat) (st : trainer)
    (data : list iter_input) : trainer * status :=
  match data with
  | [] => (st, Completed)
  | inp :: data' =>
      match train_iter max_iter global_size st inp with
      | (st', Next) => do_train max_iter global_size st' data'
      | stop => stop
      end
  end.

Definition non_finite (f : float) : bool :=
  PrimFloat.is_nan f || PrimFloat.is_infinity f.

Definition start : trainer :=
  {| iteration := 0; optimizer_steps := 0; teacher_updates := 0; logged := [] |}.

(** Concrete batches used to exercise the loop. *)
Definition ok_batch : iter_input :=
  {| losses := [("dino_local_crops_loss"%string, PrimFloat.one);
                ("dino_global_crops_loss"%string, PrimFloat.one)];
     peers := [[PrimFloat.one; PrimFloat.one]] |}.

Definition inf_batch : iter_input :=
  {| losses := [("dino_global_crops_loss"%string, PrimFloat.infinity)];
     peers := [[PrimFloat.one]] |}.

(** A finite local loss, a NaN coming from the other process. *)
Definition nan_batch : iter_input :=
  {| losses := [("dino_global_crops_loss"%string, PrimFloat.one)];
     peers := [[PrimFloat.nan]] |}.

End Train.

(* ================================================================== *)
(** ** Collation of a pre-batched mapping ([collate_data_and_cast] on a
       [dict], collate.py) *)
(* ================================================================== *)

Module CollateDict.
Import Collate.

(** [samples[k]]. *)
Definition getitem {V} (samples : gmap string V) (k : string) : result V :=
  match samples !! k with
  | Some v => Ok v
  | None => Raise KeyError
  end.

(** [rearrange(t, "b nc c h w -> (b nc) c h w", c=c, b=b)] on the shape of
    [t]: the pattern needs five dimensions and the two given sizes. *)
Definition rearrange_merge_crops (t : list nat) (c b : nat)
  : result (list nat) :=
  match t with
  | [b'; nc; c'; h; w] =>
      if (b' =? b)%nat && (c' =? c)%nat then Ok [b' * nc; c'; h; w]%nat
      else Raise RuntimeError
  | _ => Raise RuntimeError
  end.

Section WithRandomSource.

Context {G : Type}.
Variable random : G -> Qc * G.
Variable randbelow : nat -> G -> nat * G.
Variable torch_rand : nat -> G -> list Qc * G.
Variable mask_generator : Z -> G -> grid * G.

(** The first branch of [collate_data_and_cast]: [samples] is a mapping
    whose tensors are batched already; a tensor is represented by its shape.
    It yields the pseudo batch size [B], the channel count [c] and the
    collated global crops. *)
Definition prebatched_front (samples : gmap string (list nat))
  : result front :=
  global_crops ← getitem samples "global_crops";
  if (length global_crops =? 5)%nat then
    match global_crops with
    | [B; nc; c; h; w] =>
        coll_global_crops ← rearrange_merge_crops global_crops c B;
        local_crops ← getitem samples "local_crops";
        _ ← rearrange_merge_crops local_crops c B;
        _ ← getitem samples "local_crop_len";
        _ ← getitem samples "local_patch_pos";
        _ ← getitem samples "local_crop_dims";
        Ok {| Collate.B := nc * B;
              gc_last_dim := List.last coll_global_crops 0%nat;
              Collate.c := Some c |}
    | _ => Raise ValueError
    end
  else
    match global_crops with
    | [B; c; h; w] =>
        _ ← getitem samples "local_crops";
        Ok {| Collate.B := B; gc_last_dim := w; Collate.c := Some c |}
    | _ => Raise ValueError
    end.

(** [collate_data_and_cast] on a mapping.  The returned mapping is built
    from the local variables; [num_ch_list] is one of them, and only the
    branch for lists of samples assigns it. *)
Definition collate_data_and_cast_dict (cfg : config)
    (samples : gmap string (list nat)) (g : G) : result (collated G) :=
  fr ← prebatched_front samples;
  _ ← collate_masks random randbelow torch_rand mask_generator cfg fr g;
  Raise UnboundLocalError.

End WithRandomSource.

End CollateDict.

(* ================================================================== *)
(** ** The schedules applied to the optimizer ([apply_optim_scheduler],
       train.py) *)
(* ================================================================== *)

Module Optim.

(** The values of the entries of a parameter group that the function reads
    and writes: Python bools and floats (exact rationals here).  The other
    entries of a group, such as its list of parameters, are never looked
    at. *)
Inductive pyval : Type :=
  | PyBool (b : bool)
  | PyFloat (x : Qc).

(** Truth value of [v] in [... if v else ...]. *)
Definition truthy (v : pyval) : bool :=
  match v with
  | PyBool b => b
  | PyFloat x => negb (bool_decide (x = 0%Qc))
  end.

(** Numeric value of [v] as a factor. *)
Definition number (v : pyval) : Qc :=
  match v with
  | PyBool b => if b then 1%Qc else 0%Qc
  | PyFloat x => x
  end.

(** [param_group[k]]. *)
Definition getitem (param_group : gmap string pyval) (k : string)
  : result pyval :=
  match param_group !! k with
  | Some v => Ok v
  | None => Raise KeyError
  end.

(** The body of the loop, on one group. *)
Definition update_group (lr wd last_layer_lr : Qc)
    (param_group : gmap string pyval) : result (gmap string pyval) :=
  is_last_layer ← getitem param_group "is_last_layer";
  lr_multiplier ← getitem param_group "lr_multiplier";
  wd_multiplier ← getitem param_group "wd_multiplier";
  let param_group :=
    <["weight_decay"%string := PyFloat (wd * number wd_multiplier)]> param_group in
  Ok (<["lr"%string :=
          PyFloat ((if truthy is_last_layer then last_layer_lr else lr)
                   * number lr_multiplier)]> param_group).

(** [apply_optim_scheduler(optimizer, lr, wd, last_layer_lr)] on
    [optimizer.param_groups].  The groups are updated in place: when a group
    raises, the groups before it keep their new values. *)
Fixpoint apply_optim_scheduler (param_groups : list (gmap string pyval))
    (lr wd last_layer_lr : Qc) : list (gmap string pyval) * result unit :=
  match param_groups with
  | [] => ([], Ok tt)
  | g :: rest =>
      match update_group lr wd last_layer_lr g with
      | Ok g' =>
          let (rest', r) := apply_optim_scheduler rest lr wd last_layer_lr in
          (g' :: rest', r)
      | Raise e => (g :: rest, Raise e)
      end
  end.

(** Vocabulary: a group that has the three entries the function reads. *)
Definition schedulable (g : gmap string pyval) : Prop :=
  is_Some (g !! "is_last_layer"%string) /\
  is_Some (g !! "lr_multiplier"%string) /\
  is_Some (g !! "wd_multiplier"%string).

End Optim.

(* ================================================================== *)
(** ** Sharing the FSDP streams ([SSLMetaArch.fsdp_synchronize_streams]) *)
(* ================================================================== *)

Module Streams.

(** The attributes of the four modules the method touches, by name; a
    stream is identified by a number.  The two heads are absent when the
    module dictionaries have no ["dino_head"] entry. *)
Record model := {
  teacher_backbone : gmap string nat;
  student_backbone : gmap string nat;
  student_dino_head : option (gmap string nat);
  teacher_dino_head : option (gmap string nat);
  need_to_synchronize_fsdp_streams : bool;
  cuda_synchronize_calls : nat
}.

(** The set the loop iterates over. *)
Definition stream_attrs : list string :=
  ["_unshard_stream"; "_post_backward_stream"; "_pre_unshard_stream";
   "_all_reduce_stream"; "_default_stream"]%string.

Definition set_student_dino_head (h : gmap string nat) (m : model) : model :=
  {| teacher_backbone := teacher_backbone m;
     student_backbone := student_backbone m;
     student_dino_head := Some h;
     teacher_dino_head := teacher_dino_head m;
     need_to_synchronize_fsdp_streams := need_to_synchronize_fsdp_streams m;
     cuda_synchronize_calls := cuda_synchronize_calls m |}.

Definition set_teacher_dino_head (h : gmap string nat) (m : model) : model :=
  {| teacher_backbone := teacher_backbone m;
     student_backbone := student_backbone m;
     student_dino_head := student_dino_head m;
     teacher_dino_head := Some h;
     need_to_synchronize_fsdp_streams := need_to_synchronize_fsdp_streams m;
     cuda_synchronize_calls := cuda_synchronize_calls m |}.

Definition set_student_backbone (b : gmap string nat) (m : model) : model :=
  {| teacher_backbone := teacher_backbone m;
     student_backbone := b;
     student_dino_head := student_dino_head m;
     teacher_dino_head := teacher_dino_head m;
     need_to_synchronize_fsdp_streams := need_to_synchronize_fsdp_streams m;
     cuda_synchronize_calls := cuda_synchronize_calls m |}.

(** The body of the loop for one attribute name; the modules are updated in
    place, so what was set before an exception stays set. *)
Definition share_stream (attr : string) (m : model) : model * result unit :=
  match teacher_backbone m !! attr with
  | None => (m, Raise AttributeError)
  | Some stream =>
      match student_dino_head m with
      | None => (m, Raise AttributeError)
      | Some sh =>
          let m := set_student_dino_head (<[attr := stream]> sh) m in
          match teacher_dino_head m with
          | None => (m, Raise AttributeError)
          | Some th =>
              let m := set_teacher_dino_head (<[attr := stream]> th) m in
              (set_student_backbone (<[attr := stream]> (student_backbone m)) m,
               Ok tt)
          end
      end
  end.

Fixpoint share_streams (attrs : list string) (m : model) : model * result unit :=
  match attrs with
  | [] => (m, Ok tt)
  | attr :: attrs' =>
      match share_stream attr m with
      | (m', Ok _) => share_streams attrs' m'
      | stop => stop
      end
  end.

(** [fsdp_synchronize_streams()]; [order] is the order in which the set of
    attribute names is iterated, which Python does not fix. *)
Definition fsdp_synchronize_streams (order : list string) (m : model)
  : model * result unit :=
  if need_to_synchronize_fsdp_streams m then
    let m :=
      {| teacher_backbone := teacher_backbone m;
         student_backbone := student_backbone m;
         student_dino_head := student_dino_head m;
         teacher_dino_head := teacher_dino_head m;
         need_to_synchronize_fsdp_streams := need_to_synchronize_fsdp_streams m;
         cuda_synchronize_calls := S (cuda_synchronize_calls m) |} in
    match share_streams order m with
    | (m', Ok _) =>
        ({| teacher_backbone := teacher_backbone m';
            student_backbone := student_backbone m';
            student_dino_head := student_dino_head m';
            teacher_dino_head := teacher_dino_head m';
            need_to_synchronize_fsdp_streams := false;
            cuda_synchronize_calls := cuda_synchronize_calls m' |}, Ok tt)
    | stop => stop
    end
  else (m, Ok tt).

(** Vocabulary: module [target] has the streams of module [source] under
    the names in [attrs], and what it had in [before] under every other
    name. *)
Definition shares (attrs : list string) (source before target : gmap string nat)
  : Prop :=
  forall attr,
    target !! attr = if bool_decide (attr ∈ attrs) then source !! attr
                     else before !! attr.

End Streams.

(* ================================================================== *)
(** ** The HDF5 dataset ([HDF5Dataset], hdf5_dataset.py) *)
(* ================================================================== *)

Module Hdf5.
Import Collate.

Inductive split_t : Type := TRAIN | VAL | TEST | ALL.

(** An object of the JSON list [file_index['files']] of a file: the
    entries the code reads (class ids are integers here). *)
Record file_entry := {
  fe_path : string;
  fe_class_id : Z;
  fe_class_str : string
}.

(** The same object once [_load_extra] has added ['hdf5_file'] to it. *)
Record entry := {
  path : string;
  class_id : Z;
  class_str : string;
  hdf5_file : string
}.

(** A file as [h5py.File] shows it: its index (the decoded JSON of
    ['file_index']) and its datasets by path. *)
Record hdf5 := {
  file_index : list file_entry;
  datasets : gmap string (list Byte.byte)
}.

(** The attributes of a dataset object that the methods use.
    [hdf5_handles] is a class attribute: one table for all instances. *)
Record dataset := {
  split : split_t;
  do_short_run : bool;
  _entries : option (list entry);
  _class_ids : option (list Z);
  _class_names : option (list string);
  hdf5_handles : gmap string hdf5
}.

(** The three lists [_load_extra] builds. *)
Record lists := {
  accumulated : list entry;
  class_ids : list Z;
  class_names : list string
}.

Definition tag (file_name : string) (e : file_entry) : entry :=
  {| path := fe_path e;
     class_id := fe_class_id e;
     class_str := fe_class_str e;
     hdf5_file := file_name |}.

(** [for entry in file_index['files']], with its [break]. *)
Fixpoint add_entries (short : bool) (file_name : string)
    (entries : list file_entry) (a : lists) : lists :=
  match entries with
  | [] => a
  | e :: entries' =>
      let known := bool_decide (fe_class_id e ∈ class_ids a) in
      let a' :=
        {| accumulated := accumulated a ++ [tag file_name e];
           class_ids := if known then class_ids a
                        else class_ids a ++ [fe_class_id e];
           class_names := if known then class_names a
                          else class_names a ++ [fe_class_str e] |} in
      if short && (length (class_ids a') =? 7)%nat then a'
      else add_entries short file_name entries' a'
  end.

(** [for hdf5_file in file_list]: every file is opened and its handle
    stored under its name. *)
Fixpoint load_files (short : bool) (file_list : list (string * hdf5))
    (handles : gmap string hdf5) (a : lists) : gmap string hdf5 * lists :=
  match file_list with
  | [] => (handles, a)
  | (file_name, file) :: rest =>
      load_files short rest (<[file_name := file]> handles)
        (add_entries short file_name (file_index file) a)
  end.

(** [list(np.unique(l))]: the distinct values in ascending order. *)
Definition unique_ids (l : list Z) : list Z :=
  merge_sort Z.le (remove_dups l).

Definition unique_names (l : list string) : list string :=
  merge_sort (fun a b => String.leb a b) (remove_dups l).

(** [l.index(x)]. *)
Definition index {A} `{EqDecision A} (l : list A) (x : A) : result nat :=
  match list_find (fun y => y = x) l with
  | Some (i, _) => Ok i
  | None => Raise ValueError
  end.

(** [str(n)] of a non-negative int. *)
Definition str (n : nat) : string := NilEmpty.string_of_uint (Nat.to_uint n).

(** The renaming of the classes of a short run, for one entry. *)
Definition rename (ids : list Z) (names : list string) (e : entry)
  : result entry :=
  i ← index ids (class_id e);
  j ← index names (class_str e);
  Ok {| path := path e;
        class_id := Z.of_nat i;
        class_str := str j;
        hdf5_file := hdf5_file e |}.

(** [_load_extra], given what [glob] finds: the files with their names, in
    the order [glob] lists them.  The handle table is filled before the
    renaming can raise. *)
Definition _load_extra (file_list : list (string * hdf5)) (self : dataset)
  : dataset * result unit :=
  let file_list := if do_short_run self then take 1 file_list else file_list in
  let '(handles, a) :=
    load_files (do_short_run self) file_list (hdf5_handles self)
      {| accumulated := []; class_ids := []; class_names := [] |} in
  let opened :=
    {| split := split self;
       do_short_run := do_short_run self;
       _entries := _entries self;
       _class_ids := _class_ids self;
       _class_names := _class_names self;
       hdf5_handles := handles |} in
  match (if do_short_run self
         then mapM (M := result)
                (rename (unique_ids (class_ids a))
                        (unique_names (class_names a))) (accumulated a)
         else Ok (accumulated a)) with
  | Raise e => (opened, Raise e)
  | Ok accumulated =>
      ({| split := split self;
          do_short_run := do_short_run self;
          _entries := Some accumulated;
          _class_ids := Some (class_ids a);
          _class_names := Some (class_names a);
          hdf5_handles := handles |}, Ok tt)
  end.

(** [_get_entries]: the entries, loaded at the first call. *)
Definition _get_entries (file_list : list (string * hdf5)) (self : dataset)
  : dataset * result (list entry) :=
  match _entries self with
  | Some entries => (self, Ok entries)
  | None =>
      match _load_extra file_list self with
      | (self', Ok _) =>
          match _entries self' with
          | Some entries => (self', Ok entries)
          | None => (self', Raise AssertionError)
          end
      | (self', Raise e) => (self', Raise e)
      end
  end.

(** [__len__]. *)
Definition len (file_list : list (string * hdf5)) (self : dataset)
  : dataset * result nat :=
  match _get_entries file_list self with
  | (self', Ok entries) => (self', Ok (length entries))
  | (self', Raise e) => (self', Raise e)
  end.

(** [get_target]. *)
Definition get_target (file_list : list (string * hdf5)) (self : dataset)
    (i : Z) : dataset * result (option Z) :=
  match _get_entries file_list self with
  | (self', Ok entries) =>
      (self',
       e ← py_index entries i;
       Ok (match split self' with
           | TEST => None
           | _ => Some (class_id e)
           end))
  | (self', Raise e) => (self', Raise e)
  end.


(** Vocabulary: all entries of the listed files, tagged, in order. *)
Definition all_entries (file_list : list (string * hdf5)) : list entry :=
  concat (map (fun nf => map (tag nf.1) (file_index nf.2)) file_list).

(** Vocabulary: the class table while the entries are accumulated has no
    class id twice, one name per id, and exactly the ids of the accumulated
    entries, each with the name of an entry of that class. *)
Definition table_ok (a : lists) : Prop :=
  NoDup (class_ids a) /\
  length (class_names a) = length (class_ids a) /\
  (forall z, z ∈ class_ids a <->
             exists e, e ∈ accumulated a /\ class_id e = z) /\
  (forall i z s, class_ids a !! i = Some z -> class_names a !! i = Some s ->
     exists e, e ∈ accumulated a /\ class_id e = z /\ class_str e = s).

End Hdf5.

(* ================================================================== *)
(** ** Vocabulary for further properties *)
(* ================================================================== *)

Module CollateSpec.
Import Collate.
(** The number of rows of a mask with at least one masked patch. *)
Definition masked_row_count (rows : list (list bool)) : nat :=
  length (List.filter (fun row => negb (row_sum row =? 0)%nat) rows).

(** [cfg] with [use_ch_patch_embed] set. *)
Definition with_ch_patch_embed (b : bool) (cfg : config) : config :=
  {| mask_ratio_tuple := mask_ratio_tuple cfg;
     mask_probability := mask_probability cfg;
     n_tokens := n_tokens cfg;
     do_free_shapes := do_free_shapes cfg;
     patch_size := patch_size cfg;
     use_ch_patch_embed := b |}.
End CollateSpec.

Module MetaArchSpec.
Import Collate MetaArch.

(** The keys of the mapping a step returns, in insertion order. *)
Definition expected_keys (self : SSLMetaArch) : list string :=
  (if (0 <? local_crops_number (the_cfg self))%nat
   then ["dino_local_crops_loss"%string] else []) ++
  (if do_dino self
   then "dino_global_crops_loss"%string ::
        (if do_koleo self then ["koleo_loss"%string] else [])
   else []) ++
  (if do_ibot self then ["ibot_loss"%string] else []).

(** The factor by which a displayed loss enters the backpropagated sum. *)
Definition backprop_weight (c : cfg) (key : string) : Qc :=
  if String.eqb key "koleo_loss" then loss_scales
  else if String.eqb key "ibot_loss" then (ibot_loss_weight c * Qc_of_nat 2)%Qc
  else dino_loss_weight c.

(** Events of the teacher forward: the networks and the centre updates. *)
Definition teacher_side_event (e : event) : bool :=
  match e with
  | TeacherBackboneForward | TeacherHeadForward | UpdateCenter => true
  | _ => false
  end.


End MetaArchSpec.

Module EmaSpec.
Import Ema.

(** What an update must not change in a tensor: its number of elements and
    its autograd attributes. *)
Definition signature {T} (t : tensor T) : nat * bool * bool :=
  (length (data t), requires_grad t, is_leaf t).


Definition same_signature {T} (s s' : gmap nat (tensor T)) : Prop :=
  forall r, signature <$> s' !! r = signature <$> s !! r.

End EmaSpec.

(* ================================================================== *)
(** ** Concrete inputs *)
(* ================================================================== *)

(** *** Deterministic stand-ins for the random source and the mask
    generator, to run the collation on concrete batches *)

Module CollateDemo.
Import Collate.

(** A counter as random state: successive draws 0, 1/4, 2/4, 3/4, 0, ... *)
Definition random (g : nat) : Qc * nat :=
  (Q2Qc (Z.of_nat (g mod 4) # 4), S g).

Definition randbelow (n : nat) (g : nat) : nat * nat := (g mod n, S g)%nat.

(** The draws under which [random.shuffle] leaves the list as it is. *)
Definition randbelow_last (n : nat) (g : nat) : nat * nat := (n - 1, S g)%nat.

Definition torch_rand (n : nat) (g : nat) : list Qc * nat :=
  (map (fun i => Q2Qc (Z.of_nat ((g + i) mod 4) # 4)) (seq 0 n), (g + n)%nat).

(** A 4 x 4 generator that masks the first [num_masking_patches] cells in
    row-major order, at most 8 of them. *)
Definition mask_generator (num_masking_patches : Z) (g : nat) : grid * nat :=
  let k := Nat.min (Z.to_nat num_masking_patches) 8 in
  (map (fun r => map (fun col => (r * 4 + col <? k)%nat) (seq 0 4)) (seq 0 4),
   S g).

Definition cfg : config :=
  {| mask_ratio_tuple := (Q2Qc (1 # 10), Q2Qc (1 # 2));
     mask_probability := Q2Qc (1 # 2);
     n_tokens := 16;
     do_free_shapes := false;
     patch_size := 14;
     use_ch_patch_embed := false |}.

(** Four tokens per crop and ratios of at most 1/5: every drawn coverage
    count [int(N * ratio)] is 0. *)
Definition cfg_small : config :=
  {| mask_ratio_tuple := (Q2Qc (1 # 10), Q2Qc (1 # 5));
     mask_probability := Q2Qc (1 # 2);
     n_tokens := 4;
     do_free_shapes := false;
     patch_size := 14;
     use_ch_patch_embed := false |}.

Definition cfg_free : config :=
  {| mask_ratio_tuple := (Q2Qc (1 # 10), Q2Qc (1 # 2));
     mask_probability := Q2Qc (1 # 2);
     n_tokens := 16;
     do_free_shapes := true;
     patch_size := 14;
     use_ch_patch_embed := true |}.

(** Crops are represented by their shapes: 3 x 56 x 56 global crops and
    3 x 28 x 28 local crops. *)
Definition a_sample : sample (crop := list nat) :=
  {| global_crops := [[3; 56; 56]; [3; 56; 56]]%nat;
     local_crops := [[3; 28; 28]; [3; 28; 28]; [3; 28; 28]]%nat |}.

(** A batch of 4 samples with 2 global crops each. *)
Definition four_samples : list (sample (crop := list nat)) :=
  [a_sample; a_sample; a_sample; a_sample].

Definition run (rb : nat -> nat -> nat * nat) (g : nat) :=
  collate_data_and_cast id random rb torch_rand mask_generator cfg four_samples g.

Definition front8 : front := {| B := 8; gc_last_dim := 56; c := Some 3%nat |}.

Definition run_free (g : nat) :=
  collate_masks random randbelow torch_rand mask_generator cfg_free front8 g.

(** The rows of a collated mask that have a true entry. *)
Definition nontrivial_rows (rows : list (list bool)) : list nat :=
  List.filter (fun r => match rows !! r with
                        | Some row => negb (row_sum row =? 0)%nat
                        | None => false
                        end) (seq 0 (length rows)).

(** The samples (of [n] samples, rows in crop-major order as [collate_cpu]
    lays them out) that have a non-trivial mask on one of their crops. *)
Definition masked_samples (n : nat) (rows : list (list bool)) : list nat :=
  List.filter
    (fun s => existsb (fun r => (r mod n =? s)%nat) (nontrivial_rows rows))
    (seq 0 n).

End CollateDemo.

(** *** Stand-ins for the networks, to run the training step on concrete
    batches *)

Module MetaArchDemo.
Import Collate MetaArch.

Definition q (n : Z) : Qc := Qc_of_Z n.

(** Crops are numbered; a backbone output row carries the crop number. *)
Definition net : networks nat :=
  {| embed_dim := 2;
     teacher_backbone := fun crops =>
       (map (fun i => [q (Z.of_nat i); q 1]) crops,
        concat (map (fun i => [[q (Z.of_nat i); q 2]; [q (Z.of_nat i); q 3]]) crops));
     student_backbone := fun gcrops masks lcrops =>
       (map (fun i => [q (Z.of_nat i); q 1]) gcrops,
        concat (map (fun i => [[q (Z.of_nat i); q 2]; [q (Z.of_nat i); q 3]]) gcrops),
        map (fun i => [q (Z.of_nat i); q 4]) lcrops);
     teacher_dino_head := fun r => r;
     teacher_ibot_head := fun r => r;
     student_dino_head := map (fun x => (x + 1)%Qc);
     student_ibot_head := map (fun x => (x + 1)%Qc);
     dino_softmax_center_teacher := fun x _ => x;
     dino_sinkhorn_knopp_teacher := fun x _ => x;
     ibot_softmax_center_teacher := fun x _ => x;
     ibot_sinkhorn_knopp_teacher := fun x _ _ => x;
     cross_entropy := fun s t => Qc_sum (zip_with Qcmult s t);
     ibot_forward_masked := fun s t _ _ w => Qc_sum w;
     koleo_loss := fun x => Qc_of_nat (length x) |}.

Definition dino_cfg (mode : string) : cfg :=
  {| dino_loss_weight := 1;
     koleo_loss_weight := 0;
     ibot_loss_weight := 0;
     ibot_separate_head := false;
     mask_ratio_min_max := (Q2Qc (1 # 10), Q2Qc (1 # 2));
     mask_sample_probability := Q2Qc (1 # 2);
     centering := mode;
     local_crops_number := 2 |}.

(** A configuration asking for a centering mode that does not exist. *)
Definition bad_cfg : cfg := dino_cfg "mean_shift".

Definition bad_arch : SSLMetaArch :=
  {| the_cfg := bad_cfg;
     do_dino := true;
     do_koleo := false;
     do_ibot := false;
     has_dino_head := true;
     has_ibot_head := false |}.

Definition good_arch : SSLMetaArch :=
  {| the_cfg := dino_cfg "centering";
     do_dino := true;
     do_koleo := false;
     do_ibot := false;
     has_dino_head := true;
     has_ibot_head := false |}.

(** Two samples: global crops 0..3 (crop-major), local crops 10..13. *)
Definition batch : images nat :=
  {| collated_global_crops := [0; 1; 2; 3]%nat;
     collated_local_crops := [10; 11; 12; 13]%nat;
     collated_masks := [[true; false]; [false; false]; [false; true]; [false; false]];
     mask_indices_list := [0; 5]%nat;
     masks_weight := [1; 1]%Qc;
     upperbound := 2 |}.

End MetaArchDemo.

(** *** A small student and teacher to run the update on *)

Module EmaDemo.
Import Ema.

Definition qs (l : list Z) : list Qc := map Collate.Qc_of_Z l.

Definition student_param (l : list Z) : tensor Qc :=
  {| data := qs l; requires_grad := true; is_leaf := true |}.

Definition teacher_param (l : list Z) : tensor Qc :=
  {| data := qs l; requires_grad := false; is_leaf := true |}.

Definition student : module_dict :=
  [("backbone"%string, [[0; 1]; [2]]%nat); ("dino_head"%string, [[3]]%nat)].

Definition teacher : module_dict :=
  [("backbone"%string, [[10; 11]; [12]]%nat); ("dino_head"%string, [[13]]%nat)].

Definition st0 : state Qc :=
  {| params :=
       list_to_map
         [(0%nat, student_param [1; 2]%Z); (1%nat, student_param [3]%Z);
          (2%nat, student_param [4; 5; 6]%Z); (3%nat, student_param [7]%Z);
          (10%nat, teacher_param [10; 20]%Z); (11%nat, teacher_param [30]%Z);
          (12%nat, teacher_param [40; 50; 60]%Z); (13%nat, teacher_param [70]%Z)];
     grad_enabled := true |}.

Definition momentum : Qc := Q2Qc (9 # 10).

Definition update (st : state Qc) : result (state Qc) :=
  update_teacher Qcmult Qcplus Qcminus 1%Qc student teacher momentum st.

End EmaDemo.

(** *** Further concrete inputs *)

Module CollateScenarios.
Import Collate CollateDemo.

(** One row in ten gets a drawn ratio: none of a batch of 8. *)
Definition cfg_rare : config :=
  {| mask_ratio_tuple := (Q2Qc (1 # 10), Q2Qc (1 # 2));
     mask_probability := Q2Qc (1 # 10);
     n_tokens := 16;
     do_free_shapes := false;
     patch_size := 14;
     use_ch_patch_embed := false |}.

(** Free shapes without channel tiling. *)
Definition cfg_free_plain : config :=
  {| mask_ratio_tuple := (Q2Qc (1 # 10), Q2Qc (1 # 2));
     mask_probability := Q2Qc (1 # 2);
     n_tokens := 16;
     do_free_shapes := true;
     patch_size := 14;
     use_ch_patch_embed := false |}.

(** A sample with one global crop only. *)
Definition short_sample : sample (crop := list nat) :=
  {| global_crops := [[3; 56; 56]]%nat;
     local_crops := [[3; 28; 28]; [3; 28; 28]; [3; 28; 28]]%nat |}.

Definition ragged_samples : list (sample (crop := list nat)) :=
  [a_sample; short_sample].

(** Patch tokens for 8 rows of 16 mask entries. *)
Definition patch_tokens : list (list Qc) :=
  map (fun i => [Qc_of_nat i; 0%Qc]) (seq 0 128).

End CollateScenarios.

Module MetaArchScenarios.
Import Collate MetaArch MetaArchDemo.

(** All three losses on, the iBOT head shared with DINO. *)
Definition ibot_cfg : cfg :=
  {| dino_loss_weight := 1;
     koleo_loss_weight := Q2Qc (1 # 10);
     ibot_loss_weight := Q2Qc (1 # 2);
     ibot_separate_head := false;
     mask_ratio_min_max := (Q2Qc (1 # 10), Q2Qc (1 # 2));
     mask_sample_probability := Q2Qc (1 # 2);
     centering := "centering";
     local_crops_number := 2 |}.

Definition ibot_arch : SSLMetaArch :=
  {| the_cfg := ibot_cfg;
     do_dino := true;
     do_koleo := true;
     do_ibot := true;
     has_dino_head := true;
     has_ibot_head := false |}.

(** The iBOT loss without the DINO loss. *)
Definition ibot_only_cfg : cfg :=
  {| dino_loss_weight := 0;
     koleo_loss_weight := 0;
     ibot_loss_weight := 1;
     ibot_separate_head := false;
     mask_ratio_min_max := (Q2Qc (1 # 10), Q2Qc (1 # 2));
     mask_sample_probability := Q2Qc (1 # 2);
     centering := "centering";
     local_crops_number := 2 |}.



End MetaArchScenarios.

Module EmaScenarios.
Import Ema EmaDemo.

(** The teacher holds the values of the student. *)
Definition st_equal : state Qc :=
  {| params :=
       list_to_map
         [(0%nat, student_param [1; 2]%Z); (1%nat, student_param [3]%Z);
          (2%nat, student_param [4; 5; 6]%Z); (3%nat, student_param [7]%Z);
          (10%nat, teacher_param [1; 2]%Z); (11%nat, teacher_param [3]%Z);
          (12%nat, teacher_param [4; 5; 6]%Z); (13%nat, teacher_param [7]%Z)];
     grad_enabled := true |}.

End EmaScenarios.

Module TrainScenarios.
Import Train.

(** A NaN in one of two local loss entries. *)
Definition nan_entry_batch : iter_input :=
  {| losses := [("dino_local_crops_loss"%string, PrimFloat.one);
                ("dino_global_crops_loss"%string, PrimFloat.nan)];
     peers := [[PrimFloat.one; PrimFloat.one]] |}.

End TrainScenarios.

Module OptimDemo.
Import Optim.

Definition group (last : bool) (lr_mult : Qc) : gmap string pyval :=
  list_to_map [("is_last_layer"%string, PyBool last);
               ("lr_multiplier"%string, PyFloat lr_mult);
               ("wd_multiplier"%string, PyFloat 1);
               ("lr"%string, PyFloat 0);
               ("weight_decay"%string, PyFloat 0)].

Definition groups : list (gmap string pyval) :=
  [group false 1; group false (Q2Qc (1 # 2)); group true 1].

(** A group without learning-rate multiplier between two well-formed
    groups. *)
Definition broken_groups : list (gmap string pyval) :=
  [group false 1; delete "lr_multiplier"%string (group false 1); group true 1].

End OptimDemo.

Module StreamsDemo.
Import Streams.

Definition streams (base : nat) : gmap string nat :=
  list_to_map [("_unshard_stream"%string, base);
               ("_post_backward_stream"%string, S base);
               ("_pre_unshard_stream"%string, S (S base));
               ("_all_reduce_stream"%string, S (S (S base)));
               ("_default_stream"%string, 0%nat);
               ("training"%string, base)].

Definition fresh : model :=
  {| teacher_backbone := streams 10;
     student_backbone := streams 20;
     student_dino_head := Some (streams 30);
     teacher_dino_head := Some (streams 40);
     need_to_synchronize_fsdp_streams := true;
     cuda_synchronize_calls := 0 |}.

End StreamsDemo.

Module CollateDictDemo.
Import Collate CollateDict CollateDemo.

(** A batch of 8 global crops of 3 x 56 x 56 and 16 local crops. *)
Definition prebatched : gmap string (list nat) :=
  list_to_map [("global_crops"%string, [8; 3; 56; 56]%nat);
               ("local_crops"%string, [16; 3; 28; 28]%nat)].

End CollateDictDemo.

Module Hdf5Demo.
Import Hdf5.

Definition img (n : nat) : list Byte.byte := replicate n Byte.x00.

Definition file_a : hdf5 :=
  {| file_index :=
       [ {| fe_path := "a/0"; fe_class_id := 5; fe_class_str := "diatom" |};
         {| fe_path := "a/1"; fe_class_id := 2; fe_class_str := "copepod" |};
         {| fe_path := "a/2"; fe_class_id := 5; fe_class_str := "diatom" |} ];
     datasets := list_to_map [("a/0"%string, img 1); ("a/1"%string, img 2);
                              ("a/2"%string, img 3)] |}.

Definition file_b : hdf5 :=
  {| file_index :=
       [ {| fe_path := "b/0"; fe_class_id := 9; fe_class_str := "detritus" |} ];
     datasets := list_to_map [("b/0"%string, img 4)] |}.

Definition files : list (string * hdf5) :=
  [("plankton-TRAIN.hdf5"%string, file_a); ("plankton-VAL.hdf5"%string, file_b)].

(** A dataset object whose entries are not loaded yet. *)
Definition unloaded (s : split_t) (short : bool) : dataset :=
  {| split := s; do_short_run := short; _entries := None;
     _class_ids := None; _class_names := None; hdf5_handles := ∅ |}.

End Hdf5Demo.

(* ================================================================== *)
(** * Properties *)
(* ================================================================== *)

(** Case analysis on the outcome of the first computation of a sequence. *)
Ltac bind_inv H x E :=
  unfold mbind, result_bind in H;
  match type of H with
  | match ?r with Ok _ => _ | Raise _ => _ end = Ok _ =>
      destruct r as [x|] eqn:E; [|discriminate H]
  end.

Module CollateProps.
Import Collate.

(** *** Facts about the tensor primitives *)

Lemma nonzero_from_app s xs ys :
  nonzero_from s (xs ++ ys) =
  nonzero_from s xs ++ nonzero_from (s + length xs) ys.
Proof.
  revert s. induction xs as [|b xs IH]; intros s; cbn [app nonzero_from length].
  - now rewrite Nat.add_0_r.
  - rewrite IH. replace (S s + length xs)%nat with (s + S (length xs))%nat by lia.
    now destruct b.
Qed.

Lemma nonzero_from_add s t ms :
  nonzero_from (s + t) ms = map (fun i => (s + i)%nat) (nonzero_from t ms).
Proof.
  revert t. induction ms as [|b ms IH]; intros t; cbn [nonzero_from map]; [done|].
  replace (S (s + t)) with (s + S t)%nat by lia. rewrite IH.
  now destruct b.
Qed.

Lemma nonzero_from_shift s ms :
  nonzero_from s ms = map (fun i => (s + i)%nat) (nonzero ms).
Proof.
  unfold nonzero. rewrite <- nonzero_from_add. now rewrite Nat.add_0_r.
Qed.

Lemma length_nonzero_from s ms : length (nonzero_from s ms) = row_sum ms.
Proof.
  revert s. induction ms as [|[] ms IH]; intros s; cbn; auto.
Qed.

Lemma elem_of_nonzero_from s ms i :
  i ∈ nonzero_from s ms ↔ (s <= i)%nat ∧ ms !! (i - s)%nat = Some true.
Proof.
  revert s. induction ms as [|b ms IH]; intros s; cbn [nonzero_from].
  - rewrite elem_of_nil, lookup_nil. split; [tauto | intros [_ ?]; discriminate].
  - assert (Hstep : i ∈ nonzero_from (S s) ms ↔
                    (s < i)%nat ∧ (b :: ms) !! (i - s)%nat = Some true).
    { rewrite IH. split; intros [H1 H2]; (split; [lia|]).
      - replace (i - s)%nat with (S (i - S s)) by lia. exact H2.
      - replace (i - s)%nat with (S (i - S s)) in H2 by lia. exact H2. }
    clear IH.
    destruct b.
    + rewrite elem_of_cons, Hstep. split.
      * intros [->|[H1 H2]]; [|split; [lia|done]].
        split; [lia|]. now rewrite Nat.sub_diag.
      * intros [H1 H2]. destruct (decide (i = s)) as [->|Hne]; [now left|].
        right. split; [lia|done].
    + rewrite Hstep. split.
      * intros [H1 H2]. split; [lia|done].
      * intros [H1 H2]. destruct (decide (i = s)) as [->|Hne].
        { rewrite Nat.sub_diag in H2. discriminate. }
        split; [lia|done].
Qed.

Lemma nonzero_from_lower s ms : Forall (fun i => (s <= i)%nat) (nonzero_from s ms).
Proof.
  apply list.Forall_forall. intros i Hi.
  now apply elem_of_nonzero_from in Hi as [? _].
Qed.

Lemma nonzero_from_sorted s ms : StronglySorted lt (nonzero_from s ms).
Proof.
  revert s. induction ms as [|b ms IH]; intros s; cbn [nonzero_from].
  - constructor.
  - destruct b; [|apply IH]. constructor; [apply IH|].
    eapply List.Forall_impl; [|apply nonzero_from_lower]. cbn. intros; lia.
Qed.

Lemma row_sum_app xs ys : row_sum (xs ++ ys) = (row_sum xs + row_sum ys)%nat.
Proof. induction xs as [|[] xs IH]; cbn; lia. Qed.

Lemma row_sum_all_false row : Forall (eq false) row -> row_sum row = 0%nat.
Proof. induction 1 as [|b row <- _ IH]; cbn; auto. Qed.

Lemma row_sum_le_length row : (row_sum row <= length row)%nat.
Proof. induction row as [|[] row IH]; cbn; lia. Qed.

Lemma masked_select_app {A} (xs1 xs2 : list A) ms1 ms2 :
  length xs1 = length ms1 ->
  masked_select (xs1 ++ xs2) (ms1 ++ ms2) =
  masked_select xs1 ms1 ++ masked_select xs2 ms2.
Proof.
  revert ms1. induction xs1 as [|x xs1 IH]; intros [|b ms1] Hlen;
    cbn in Hlen; try discriminate; cbn [app masked_select]; [done|].
  rewrite IH by lia. now destruct b.
Qed.

Lemma masked_select_replicate {A} (x : A) ms :
  masked_select (replicate (length ms) x) ms = replicate (row_sum ms) x.
Proof.
  induction ms as [|b ms IH]; cbn; [done|]. rewrite IH. now destruct b.
Qed.

Lemma length_masked_select {A} (xs : list A) ms :
  length xs = length ms -> length (masked_select xs ms) = row_sum ms.
Proof.
  revert ms. induction xs as [|x xs IH]; intros [|[] ms] Hlen;
    cbn in *; try discriminate; auto.
Qed.

(** The value selected at rank [j] is the one stored at the [j]-th
    position that [nonzero] reports. *)
Lemma masked_select_lookup {A} (xs : list A) ms s j p :
  length xs = length ms ->
  nonzero_from s ms !! j = Some p ->
  masked_select xs ms !! j = xs !! (p - s)%nat.
Proof.
  revert ms s j. induction xs as [|x xs IH]; intros [|b ms] s j Hlen Hj;
    cbn in Hlen; try discriminate; cbn [nonzero_from masked_select] in *.
  assert (Hlow : forall q k, nonzero_from (S s) ms !! k = Some q -> (S s <= q)%nat).
  { intros q k Hq. apply list_elem_of_lookup_2 in Hq.
    now apply elem_of_nonzero_from in Hq as [? _]. }
  destruct b.
  - destruct j as [|j].
    + injection Hj as <-. now rewrite Nat.sub_diag.
    + change (nonzero_from (S s) ms !! j = Some p) in Hj.
      change (masked_select xs ms !! j = (x :: xs) !! (p - s)%nat).
      rewrite (IH ms (S s) j) by (lia || done).
      specialize (Hlow _ _ Hj).
      now replace (p - s)%nat with (S (p - S s)) by lia.
  - rewrite (IH ms (S s) j) by (lia || done).
    specialize (Hlow _ _ Hj).
    now replace (p - s)%nat with (S (p - S s)) by lia.
Qed.

Lemma Qc_of_Z_add a b : Qc_of_Z (a + b) = (Qc_of_Z a + Qc_of_Z b)%Qc.
Proof.
  unfold Qc_of_Z, Qcplus. apply Q2Qc_eq_iff. cbn [this Q2Qc].
  now rewrite !Qred_correct, inject_Z_plus.
Qed.

Lemma Qc_of_Z_0 : Qc_of_Z 0 = 0%Qc.
Proof. apply Qc_is_canon. reflexivity. Qed.

Lemma Qc_of_Z_1 : Qc_of_Z 1 = 1%Qc.
Proof. apply Qc_is_canon. reflexivity. Qed.

Lemma Qc_of_Z_le a b : (a <= b)%Z <-> (Qc_of_Z a <= Qc_of_Z b)%Qc.
Proof.
  unfold Qc_of_Z, Qcle. cbn [this Q2Qc]. rewrite !Qred_correct.
  now rewrite Zle_Qle.
Qed.

Lemma Qc_of_Z_lt a b : (a < b)%Z <-> (Qc_of_Z a < Qc_of_Z b)%Qc.
Proof.
  unfold Qc_of_Z, Qclt. cbn [this Q2Qc]. rewrite !Qred_correct.
  now rewrite Zlt_Qlt.
Qed.

Lemma Qc_of_Z_inj a b : Qc_of_Z a = Qc_of_Z b -> a = b.
Proof.
  unfold Qc_of_Z. intros H. apply Q2Qc_eq_iff in H.
  exact (proj1 (inject_Z_injective a b) H).
Qed.

Lemma Qc_of_nat_S n : Qc_of_nat (S n) = (Qc_of_nat n + 1)%Qc.
Proof.
  unfold Qc_of_nat. rewrite Nat2Z.inj_succ, <- Z.add_1_r, Qc_of_Z_add.
  now rewrite Qc_of_Z_1.
Qed.

Lemma Qc_sum_replicate n (x : Qc) :
  Qc_sum (replicate n x) = (Qc_of_nat n * x)%Qc.
Proof.
  induction n as [|n IH].
  - change (Qc_of_nat 0) with (Qc_of_Z 0). rewrite Qc_of_Z_0.
    cbn [replicate]. unfold Qc_sum. cbn [foldr]. ring.
  - cbn [replicate Qc_sum foldr]. fold (Qc_sum (replicate n x)). rewrite IH.
    rewrite Qc_of_nat_S. ring.
Qed.

Lemma Qc_of_nat_pos n : (0 < n)%nat -> (0 < Qc_of_nat n)%Qc.
Proof.
  intros H. rewrite <- Qc_of_Z_0. unfold Qc_of_nat. apply -> Qc_of_Z_lt. lia.
Qed.

Lemma clamp_min_ge m x : (m <= clamp_min m x)%Qc.
Proof.
  unfold clamp_min. case_bool_decide as H.
  - apply Qcle_refl.
  - now apply Qcnot_lt_le.
Qed.

Lemma clamp_min_id m x : (m <= x)%Qc -> clamp_min m x = x.
Proof.
  intros H. unfold clamp_min. case_bool_decide as Hlt; [|done].
  exfalso. now apply Qcle_not_lt in H.
Qed.

Lemma clamp_min_count n :
  (0 < n)%nat -> clamp_min 1 (Qc_of_nat n) = Qc_of_nat n.
Proof.
  intros H. apply clamp_min_id. rewrite <- Qc_of_Z_1. unfold Qc_of_nat.
  apply -> Qc_of_Z_le. lia.
Qed.

(** A row with [n > 0] masked entries, each weighted [1 / n], weighs 1. *)
Lemma Qc_sum_reciprocal n :
  (0 < n)%nat -> Qc_sum (replicate n (1 / Qc_of_nat n)%Qc) = 1%Qc.
Proof.
  intros H. rewrite Qc_sum_replicate. field.
  intros Hz. apply Qc_of_nat_pos in H. rewrite Hz in H.
  now apply Qclt_not_eq in H.
Qed.

Lemma expand_as_map {A} (f : list bool -> A) rows :
  expand_as (map f rows) rows = map (fun row => replicate (length row) (f row)) rows.
Proof.
  unfold expand_as. induction rows as [|row rows IH]; cbn; [done|].
  now rewrite IH.
Qed.

(** Row by row, the weight vector holds one copy of the row's weight per
    masked entry of the row. *)
Lemma compute_masks_weight_rows rows :
  compute_masks_weight rows =
  concat (map (fun row => replicate (row_sum row) (row_weight row)) rows).
Proof.
  unfold compute_masks_weight, clamped_sums. rewrite map_map.
  rewrite (expand_as_map (fun row => (1 / clamp_min 1 (Qc_of_nat (row_sum row)))%Qc)).
  induction rows as [|row rows IH]; cbn [map concat]; [done|].
  rewrite masked_select_app by now rewrite length_replicate.
  now rewrite masked_select_replicate, IH.
Qed.

Lemma nonzero_concat_rows s rows :
  nonzero_from s (concat rows) =
  concat (zip_with (fun off row => nonzero_from off row)
            (map (fun r => (s + length (concat (take r rows)))%nat)
               (seq 0 (length rows))) rows).
Proof.
  revert s. induction rows as [|row rows IH]; intros s; [done|].
  cbn [concat length seq map zip_with take]. rewrite nonzero_from_app.
  rewrite Nat.add_0_r. f_equal. rewrite IH. f_equal.
  rewrite <- seq_shift, map_map. f_equal. apply map_ext. intros r.
  cbn [take concat]. rewrite length_app. lia.
Qed.

Lemma row_sum_concat rows :
  row_sum (concat rows) = sum_list (map row_sum rows).
Proof.
  induction rows as [|row rows IH]; cbn; [done|].
  now rewrite row_sum_app, IH.
Qed.

(** Splitting a per-row concatenation around row [r]. *)
Lemma concat_map_middle {A B} (f : list A -> list B) rows r row :
  rows !! r = Some row ->
  concat (map f rows) =
  concat (map f (take r rows)) ++ f row ++ concat (map f (drop (S r) rows)).
Proof.
  intros Hr. rewrite <- (take_drop_middle rows r row Hr) at 1.
  rewrite map_app, concat_app. now cbn [map concat].
Qed.

Lemma segment_of_row {A B} (f : list A -> list B) rows r row :
  rows !! r = Some row ->
  take (length (f row))
    (drop (length (concat (map f (take r rows)))) (concat (map f rows))) = f row.
Proof.
  intros Hr. rewrite (concat_map_middle f rows r row Hr).
  rewrite drop_app_length. now rewrite take_app_length.
Qed.

Lemma length_per_row {A} (f : list bool -> A) rows :
  length (concat (map (fun row => replicate (row_sum row) (f row)) rows)) =
  row_sum (concat rows).
Proof.
  induction rows as [|row rows IH]; cbn [map concat]; [done|].
  now rewrite length_app, length_replicate, row_sum_app, IH.
Qed.

(** *** The two mask loops *)

Lemma py_index_nonneg {A} (l : list A) i x :
  (0 <= i)%Z -> l !! Z.to_nat i = Some x -> py_index l i = Ok x.
Proof.
  intros Hi Hl. unfold py_index.
  destruct (Z.ltb_spec i 0) as [?|_]; [lia|].
  destruct (Z.ltb_spec i 0) as [?|_]; [lia|]. now rewrite Hl.
Qed.

Lemma linspace_upper a b k probs i :
  linspace a b (k + 1) = Ok probs ->
  (0 <= i < k)%Z ->
  py_index probs (i + 1) =
    Ok (a + Qc_of_Z (i + 1) * ((b - a) / Qc_of_Z k))%Qc.
Proof.
  unfold linspace. intros Hp Hi.
  destruct (Z.ltb_spec (k + 1) 0) as [?|_]; [lia|].
  destruct (Z.eqb_spec (k + 1) 1) as [?|_]; [lia|].
  injection Hp as <-. apply py_index_nonneg; [lia|].
  change (map ?f ?l) with (f <$> l). rewrite list_lookup_fmap.
  rewrite lookup_seqZ_lt by lia. cbn [fmap option_fmap option_map].
  rewrite Z2Nat.id by lia.
  now replace (k + 1 - 1)%Z with k by lia.
Qed.

Section Loops.

Context {G : Type}.
Variable random : G -> Qc * G.
Variable torch_rand : nat -> G -> list Qc * G.
Variable mask_generator : Z -> G -> grid * G.
Variable cfg : config.
Variable fr : front.

Abbreviation masked := (masked_body random torch_rand mask_generator cfg fr).
Abbreviation unmasked := (unmasked_body mask_generator cfg fr).

Lemma masked_body_inv probs st i st' :
  masked probs st i = Ok st' ->
  exists pm m,
    py_index probs (i + 1) = Ok pm /\
    st_upperbound st' = (st_upperbound st + py_int (Qc_of_Z (N cfg) * pm))%Z /\
    st_masks_list st' = st_masks_list st ++ [m].
Proof.
  unfold masked_body. intros H.
  bind_inv H pmin Emin. bind_inv H pmax Emax. exists pmax.
  destruct (do_free_shapes cfg).
  - bind_inv H n En. destruct (torch_rand n (st_rng st)) as [r g1].
    destruct (uniform random pmin pmax g1) as [u g2].
    injection H as <-. cbn. eauto.
  - destruct (uniform random pmin pmax (st_rng st)) as [u g1].
    destruct (mask_generator _ g1) as [m g2].
    injection H as <-. cbn. eauto.
Qed.

Lemma unmasked_body_inv st i st' :
  unmasked st i = Ok st' ->
  st_upperbound st' = st_upperbound st /\
  exists m,
    st_masks_list st' = st_masks_list st ++ [m] /\
    ((forall g, grid_all_false (mask_generator 0 g).1) -> grid_all_false m).
Proof.
  unfold unmasked_body. intros H. destruct (do_free_shapes cfg).
  - bind_inv H n En. injection H as <-. cbn. split; [done|].
    eexists. split; [done|]. intros _. repeat constructor.
    apply list.Forall_forall. intros b Hb.
    now apply elem_of_replicate in Hb as [-> _].
  - destruct (mask_generator 0 (st_rng st)) as [m g'] eqn:Em.
    injection H as <-. cbn. split; [done|].
    exists m. split; [done|]. intros Hz. specialize (Hz (st_rng st)).
    now rewrite Em in Hz.
Qed.

Lemma masked_loop_inv probs f : forall idx st st',
  for_each (masked probs) st idx = Ok st' ->
  Forall (fun i => py_index probs (i + 1) = Ok (f i)) idx ->
  st_upperbound st' =
    (st_upperbound st +
     Z_sum (map (fun i => py_int (Qc_of_Z (N cfg) * f i)) idx))%Z /\
  exists drawn,
    st_masks_list st' = st_masks_list st ++ drawn /\
    length drawn = length idx.
Proof.
  induction idx as [|i idx IH]; intros st st' H Hidx; cbn [for_each] in H.
  - injection H as <-. cbn. split; [lia|]. exists []. now rewrite app_nil_r.
  - bind_inv H st1 E1. inversion Hidx as [|? ? Hi Hrest]; subst.
    apply masked_body_inv in E1 as (pm & m & Hpm & Hub & Hms).
    rewrite Hi in Hpm. injection Hpm as <-.
    destruct (IH _ _ H Hrest) as (Hub' & drawn & Hms' & Hlen).
    split.
    + rewrite Hub', Hub. cbn [map Z_sum foldr]. fold (Z_sum). unfold Z_sum. lia.
    + exists (m :: drawn). rewrite Hms', Hms, <- app_assoc. cbn. split; [done|lia].
Qed.

Lemma unmasked_loop_inv : forall idx st st',
  for_each unmasked st idx = Ok st' ->
  st_upperbound st' = st_upperbound st /\
  exists rest,
    st_masks_list st' = st_masks_list st ++ rest /\
    length rest = length idx /\
    ((forall g, grid_all_false (mask_generator 0 g).1) ->
     Forall grid_all_false rest).
Proof.
  induction idx as [|i idx IH]; intros st st' H; cbn [for_each] in H.
  - injection H as <-. split; [done|]. exists []. rewrite app_nil_r.
    repeat split. intros _. constructor.
  - bind_inv H st1 E1.
    apply unmasked_body_inv in E1 as (Hub & m & Hms & Hm).
    destruct (IH _ _ H) as (Hub' & rest & Hms' & Hlen & Hall).
    split; [congruence|].
    exists (m :: rest). rewrite Hms', Hms, <- app_assoc. cbn.
    repeat split; [lia|]. intros Hz. constructor; auto.
Qed.

(** The masks in generation order: first the rows with a drawn ratio, then
    the rows generated for coverage 0; and the accumulated upper bound. *)
Lemma generate_masks_inv g st :
  generate_masks random torch_rand mask_generator cfg fr g = Ok st ->
  st_upperbound st = expected_max_masked cfg fr /\
  exists drawn rest,
    st_masks_list st = drawn ++ rest /\
    length drawn = Z.to_nat (n_samples_masked cfg fr) /\
    length rest = Z.to_nat (Z.of_nat (B fr) - n_samples_masked cfg fr) /\
    ((forall g, grid_all_false (mask_generator 0 g).1) ->
     Forall grid_all_false rest).
Proof.
  unfold generate_masks. intros H.
  bind_inv H probs Ep. bind_inv H st1 E1.
  apply unmasked_loop_inv in H as (Hub2 & rest & Hms2 & Hlen2 & Hall).
  apply (masked_loop_inv probs (upper_ratio cfg (n_samples_masked cfg fr)))
    in E1 as (Hub1 & drawn & Hms1 & Hlen1).
  - cbn in Hub1, Hms1. split.
    + rewrite Hub2, Hub1. reflexivity.
    + exists drawn, rest. rewrite Hms2, Hms1.
      unfold py_range in Hlen1, Hlen2. rewrite length_seqZ in Hlen1, Hlen2.
      rewrite Z.sub_0_r in Hlen1. auto.
  - unfold py_range. apply Forall_seqZ. intros i Hi.
    unfold upper_ratio. apply linspace_upper; [exact Ep | lia].
Qed.

End Loops.

(** *** [random.shuffle] permutes *)

Lemma insert_head_Permutation {A} (x : list A) j a b :
  x !! j = Some b -> a :: x ≡ₚ b :: <[j := a]> x.
Proof.
  revert j. induction x as [|c x IH]; intros [|j] Hj; try discriminate.
  - injection Hj as ->. apply perm_swap.
  - cbn in Hj. cbn [insert list_insert].
    rewrite (perm_swap c a x). rewrite (IH j Hj). apply perm_swap.
Qed.

Lemma swap_Permutation {A} (x x' : list A) i j :
  swap x i j = Ok x' -> x' ≡ₚ x.
Proof.
  unfold swap. destruct (x !! i) as [xi|] eqn:Hi; [|discriminate].
  destruct (x !! j) as [xj|] eqn:Hj; [|discriminate].
  intros [= <-]. revert i j Hi Hj.
  induction x as [|a x IH]; intros [|i] [|j] Hi Hj; try discriminate.
  - injection Hi as <-. injection Hj as <-. reflexivity.
  - injection Hi as <-. cbn in Hj. cbn [insert list_insert].
    symmetry. now apply insert_head_Permutation.
  - injection Hj as <-. cbn in Hi. cbn [insert list_insert].
    symmetry. now apply insert_head_Permutation.
  - cbn in Hi, Hj. cbn [insert list_insert]. constructor. now apply IH.
Qed.

Section Shuffle.

Context {G : Type}.
Variable randbelow : nat -> G -> nat * G.

Lemma shuffle_from_Permutation {A} n : forall (x x' : list A) g g',
  shuffle_from randbelow n x g = Ok (x', g') -> x' ≡ₚ x.
Proof.
  induction n as [|n IH]; intros x x' g g' H; cbn [shuffle_from] in H.
  - now injection H as <- _.
  - destruct (randbelow (S (S n)) g) as [j g1].
    bind_inv H x1 E1. apply IH in H. rewrite H.
    now apply swap_Permutation in E1.
Qed.

Lemma shuffle_Permutation {A} (x x' : list A) g g' :
  shuffle randbelow x g = Ok (x', g') -> x' ≡ₚ x.
Proof. apply shuffle_from_Permutation. Qed.

End Shuffle.

(** *** Stacking, flattening and tiling keep all-false masks all-false *)

Lemma stack_flatten_inv ms stacked :
  stack_flatten ms = Ok stacked -> stacked = map (fun m => concat m) ms.
Proof.
  unfold stack_flatten. destruct ms as [|m0 ms]; [discriminate|].
  destruct (forallb _ _); [|discriminate]. now intros [= <-].
Qed.

Lemma concat_all_false (m : grid) : grid_all_false m -> Forall (eq false) (concat m).
Proof.
  induction 1 as [|row m Hrow _ IH]; cbn [concat]; [constructor|].
  apply Forall_app. now split.
Qed.

Lemma tile_row_all_false ch row :
  Forall (eq false) row -> Forall (eq false) (concat (replicate ch row)).
Proof.
  intros H. induction ch as [|ch IH]; cbn; [constructor|].
  apply Forall_app. now split.
Qed.

Section WithRandomSource.

Context {G : Type}.
Variable random : G -> Qc * G.
Variable randbelow : nat -> G -> nat * G.
Variable torch_rand : nat -> G -> list Qc * G.
Variable mask_generator : Z -> G -> grid * G.
Variable cfg : config.
Variable fr : front.

Abbreviation generate := (generate_masks random torch_rand mask_generator cfg fr).
Abbreviation collate :=
  (collate_masks random randbelow torch_rand mask_generator cfg fr).

(** What a successful run of the common part went through. *)
Lemma collate_masks_inv g out :
  collate g = Ok out ->
  exists st ms stacked,
    generate g = Ok st /\
    (if do_free_shapes cfg then ms = st_masks_list st
     else exists g', shuffle randbelow (st_masks_list st) (st_rng st) = Ok (ms, g')) /\
    stack_flatten ms = Ok stacked /\
    (if use_ch_patch_embed cfg
     then exists ch, c fr = Some ch /\ collated_masks out = tile ch stacked
     else collated_masks out = stacked) /\
    mask_indices_list out = nonzero (concat (collated_masks out)) /\
    masks_weight out = compute_masks_weight (collated_masks out) /\
    n_masked_patches out = length (mask_indices_list out) /\
    upperbound out = Z.max (st_upperbound st) (Z.of_nat (n_masked_patches out)).
Proof.
  unfold collate_masks. intros H.
  bind_inv H st Est. bind_inv H msg Esh. destruct msg as [ms g'].
  bind_inv H stacked Estack. bind_inv H rows Erows.
  injection H as <-. cbn [collated_masks mask_indices_list masks_weight
                          n_masked_patches upperbound].
  exists st, ms, stacked. split; [done|]. split.
  { destruct (do_free_shapes cfg); [now injection Esh as <- _ | eauto]. }
  split; [done|]. split.
  { destruct (use_ch_patch_embed cfg).
    - destruct (c fr) as [ch|]; [|discriminate]. injection Erows as <-. eauto.
    - now injection Erows as <-. }
  repeat split.
  destruct (Z.ltb_spec (st_upperbound st)
              (Z.of_nat (length (nonzero (concat rows))))); lia.
Qed.

(** C9. The returned index list is [nonzero] of the flattened collated
    mask: it is strictly ascending, it contains a flat position exactly when
    the flattened mask is true there, and the returned count
    [n_masked_patches] is the number of true entries of the collated mask
    (and the length of the index list). *)
Theorem mask_indices_are_true_positions g out :
  collate g = Ok out ->
  StronglySorted lt (mask_indices_list out) /\
  (forall i, i ∈ mask_indices_list out <->
             concat (collated_masks out) !! i = Some true) /\
  n_masked_patches out = row_sum (concat (collated_masks out)) /\
  n_masked_patches out = length (mask_indices_list out).
Proof.
  intros H. apply collate_masks_inv in H
    as (st & ms & stacked & _ & _ & _ & _ & Hidx & _ & Hn & _).
  rewrite Hn, Hidx. unfold nonzero. repeat split.
  - apply nonzero_from_sorted.
  - intros Hi. apply elem_of_nonzero_from in Hi as [_ Hi].
    now rewrite Nat.sub_0_r in Hi.
  - intros Hi. apply elem_of_nonzero_from. rewrite Nat.sub_0_r.
    split; [lia | done].
  - apply length_nonzero_from.
Qed.

(** C10. Every divisor of the weight computation (the per-row masked count
    clamped below by 1) is at least 1, so none is zero; the weight vector has
    [row_sum row] entries for each row, in row order, hence none for a row
    without masked patch, and its length is the number of true mask entries,
    which is the returned masked count. *)
Theorem masks_weight_safe g out :
  collate g = Ok out ->
  Forall (fun d => (1 <= d)%Qc /\ d <> 0%Qc) (clamped_sums (collated_masks out)) /\
  masks_weight out =
    concat (map (fun row => replicate (row_sum row) (row_weight row))
              (collated_masks out)) /\
  length (masks_weight out) = row_sum (concat (collated_masks out)) /\
  length (masks_weight out) = n_masked_patches out /\
  length (masks_weight out) = length (mask_indices_list out).
Proof.
  intros H. apply collate_masks_inv in H
    as (st & ms & stacked & _ & _ & _ & _ & Hidx & Hw & Hn & _).
  assert (Hlen : length (masks_weight out) = row_sum (concat (collated_masks out))).
  { rewrite Hw, compute_masks_weight_rows. apply length_per_row. }
  split; [|split; [|split; [|split]]].
  - unfold clamped_sums. apply List.Forall_map, List.Forall_forall. intros row _.
    pose proof (clamp_min_ge 1 (Qc_of_nat (row_sum row))) as Hge.
    split; [exact Hge|]. intros Hz. rewrite Hz in Hge.
    apply Qcle_not_lt in Hge. apply Hge. reflexivity.
  - now rewrite Hw, compute_masks_weight_rows.
  - exact Hlen.
  - rewrite Hlen, Hn, Hidx. unfold nonzero. now rewrite length_nonzero_from.
  - rewrite Hlen, Hidx. unfold nonzero. now rewrite length_nonzero_from.
Qed.

(** C5. In a row of the collated mask with at least one masked patch, the
    masked positions of the row (the entries of the index list from rank
    [masked_before] on, which are the row's flat offset plus the masked
    columns) each carry the weight [1 / (masked count of the row)], and these
    weights sum to 1. *)
Theorem masks_weight_normalised g out r row :
  collate g = Ok out ->
  collated_masks out !! r = Some row ->
  (0 < row_sum row)%nat ->
  let rows := collated_masks out in
  row_segment rows r row (mask_indices_list out) =
    map (fun col => (row_offset rows r + col)%nat) (nonzero row) /\
  row_segment rows r row (masks_weight out) =
    replicate (row_sum row) (1 / Qc_of_nat (row_sum row))%Qc /\
  Qc_sum (row_segment rows r row (masks_weight out)) = 1%Qc.
Proof.
  intros H Hr Hpos rows. unfold row_segment.
  apply collate_masks_inv in H
    as (st & ms & stacked & _ & _ & _ & _ & Hidx & Hw & _ & _).
  fold rows in Hidx, Hw, Hr.
  assert (Hseg_w : take (row_sum row) (drop (masked_before rows r) (masks_weight out))
                   = replicate (row_sum row) (1 / Qc_of_nat (row_sum row))%Qc).
  { rewrite Hw, compute_masks_weight_rows.
    pose proof (segment_of_row
      (fun row => replicate (row_sum row) (row_weight row)) rows r row Hr) as Hs.
    cbv beta in Hs. rewrite length_replicate in Hs.
    replace (length (concat (map (fun row0 => replicate (row_sum row0) (row_weight row0))
                             (take r rows)))) with (masked_before rows r) in Hs.
    - rewrite Hs. unfold row_weight. now rewrite clamp_min_count.
    - unfold masked_before. now rewrite length_per_row. }
  split; [|split].
  - rewrite Hidx. unfold nonzero.
    rewrite <- (take_drop_middle rows r row Hr) at 2.
    rewrite concat_app. cbn [concat].
    rewrite !nonzero_from_app. cbn [Nat.add].
    unfold masked_before. rewrite <- (length_nonzero_from 0 (concat (take r rows))).
    rewrite drop_app_length.
    rewrite <- (length_nonzero_from (length (concat (take r rows))) row).
    rewrite take_app_length. now rewrite nonzero_from_shift.
  - exact Hseg_w.
  - rewrite Hseg_w. now apply Qc_sum_reciprocal.
Qed.

(** C4. The returned [upperbound] is the larger of the sum, over the rows
    with a drawn ratio, of the expected-maximum masked count
    [int(N * upper ratio of the row's sub-interval)] and the realized number
    of masked patches; so the realized count never exceeds it. *)
Theorem upperbound_is_max g out :
  collate g = Ok out ->
  upperbound out =
    Z.max (expected_max_masked cfg fr)
          (Z.of_nat (row_sum (concat (collated_masks out)))) /\
  n_masked_patches out = row_sum (concat (collated_masks out)) /\
  (Z.of_nat (n_masked_patches out) <= upperbound out)%Z.
Proof.
  intros H. apply collate_masks_inv in H
    as (st & ms & stacked & Hgen & _ & _ & _ & Hidx & _ & Hn & Hub).
  apply generate_masks_inv in Hgen as [Hexp _].
  assert (Hcount : n_masked_patches out = row_sum (concat (collated_masks out))).
  { rewrite Hn, Hidx. apply length_nonzero_from. }
  rewrite Hub, Hexp, Hcount. repeat split. lia.
Qed.

(** The rows of the collated mask, up to the order the shuffle gives them:
    as many rows with a drawn ratio as [n_samples_masked] says, and the
    remaining rows, which are all-false when the generator returns an
    all-false mask for coverage 0. *)
Lemma collated_rows_split g out :
  (forall g, grid_all_false (mask_generator 0 g).1) ->
  collate g = Ok out ->
  exists drawn rest,
    collated_masks out ≡ₚ drawn ++ rest /\
    length drawn = Z.to_nat (n_samples_masked cfg fr) /\
    length rest = Z.to_nat (Z.of_nat (B fr) - n_samples_masked cfg fr) /\
    Forall (Forall (eq false)) rest.
Proof.
  intros Hzero H. apply collate_masks_inv in H
    as (st & ms & stacked & Hgen & Hsh & Hst & Hrows & _).
  apply generate_masks_inv in Hgen as (_ & drawn & rest & Hms & Hd & Hr & Hall).
  specialize (Hall Hzero).
  assert (Hperm : ms ≡ₚ drawn ++ rest).
  { rewrite <- Hms. destruct (do_free_shapes cfg); [now subst|].
    destruct Hsh as [g' Hsh]. now apply shuffle_Permutation in Hsh. }
  apply stack_flatten_inv in Hst. subst stacked.
  assert (Hflat : Forall (Forall (eq false)) (map (fun m : grid => concat m) rest)).
  { apply List.Forall_map. eapply List.Forall_impl; [|exact Hall].
    intros m Hm. now apply concat_all_false. }
  destruct (use_ch_patch_embed cfg).
  - destruct Hrows as (ch & _ & ->).
    exists (tile ch (map (fun m : grid => concat m) drawn)),
           (tile ch (map (fun m : grid => concat m) rest)).
    unfold tile. rewrite <- map_app, <- map_app, !length_map.
    repeat split; [now rewrite Hperm | done | done |].
    apply List.Forall_map. eapply List.Forall_impl; [|exact Hflat].
    intros row Hrow. now apply tile_row_all_false.
  - rewrite Hrows.
    exists (map (fun m : grid => concat m) drawn),
           (map (fun m : grid => concat m) rest).
    rewrite <- map_app, !length_map. repeat split; [now rewrite Hperm | done..].
Qed.

End WithRandomSource.

(** *** Lists of samples *)

Lemma py_int_floor (q : Qc) : (0 <= q)%Qc -> py_int q = Qfloor q.
Proof.
  intros H. unfold py_int. destruct q as [[n d] Hc]. cbn [this Qnum Qden Qfloor].
  apply Z.quot_div_nonneg; [|lia].
  unfold Qcle in H. change (this 0%Qc) with (0 # 1)%Q in H.
  unfold Qle in H. cbn in H. lia.
Qed.

Lemma mapM_result_length {A B} (f : A -> result B) l k :
  mapM f l = Ok k -> length k = length l.
Proof.
  revert k. induction l as [|x l IH]; intros k H; cbn [mapM] in H.
  - now injection H as <-.
  - bind_inv H y Ey. bind_inv H k' Ek. injection H as <-.
    cbn. f_equal. now apply IH.
Qed.

Lemma mapM_result_Forall {A B} (f : A -> result B) (P : B -> Prop) l k :
  (forall x y, f x = Ok y -> P y) -> mapM f l = Ok k -> Forall P k.
Proof.
  intros Hf. revert k. induction l as [|x l IH]; intros k H; cbn [mapM] in H.
  - injection H as <-. constructor.
  - bind_inv H y Ey. bind_inv H k' Ek. injection H as <-.
    constructor; eauto.
Qed.

Lemma length_concat_uniform {A} (ls : list (list A)) n :
  Forall (fun l => length l = n) ls -> length (concat ls) = (length ls * n)%nat.
Proof.
  induction 1 as [|l ls Hl _ IH]; cbn [concat length]; [done|].
  rewrite length_app, Hl, IH. lia.
Qed.

Section ListOfSamples.

Context {crop : Type}.
Variable crop_shape : crop -> list nat.

Lemma gather_length (key : sample -> list crop) n samples l :
  gather key n samples = Ok l -> length l = (n * length samples)%nat.
Proof.
  unfold gather, fmap, result_fmap. intros H.
  destruct (mapM _ (seq 0 n)) as [rows|] eqn:E; [|discriminate].
  injection H as <-.
  rewrite (length_concat_uniform rows (length samples)).
  - apply mapM_result_length in E. now rewrite E, length_seq.
  - eapply mapM_result_Forall; [|exact E]. cbn beta.
    intros i row Hrow. now apply mapM_result_length in Hrow.
Qed.

Lemma collate_cpu_length samples gcs lcs :
  collate_cpu crop_shape samples = Ok (gcs, lcs) ->
  exists s0, head samples = Some s0 /\
    length gcs = (length (global_crops s0) * length samples)%nat.
Proof.
  unfold collate_cpu. destruct samples as [|s0 samples]; [discriminate|].
  destruct (match global_crops s0 with [] => _ | _ => _ end); [discriminate|].
  intros H. bind_inv H g0 Eg. bind_inv H l0 El.
  bind_inv H g1 Es. bind_inv H l1 Es'. injection H as <- <-.
  exists s0. split; [done|]. apply gather_length in Eg.
  unfold stack_crops in Es. destruct g0 as [|x0 g0]; [discriminate|].
  destruct (forallb _ _); [|discriminate]. now injection Es as <-.
Qed.

Context {G : Type}.
Variable random : G -> Qc * G.
Variable randbelow : nat -> G -> nat * G.
Variable torch_rand : nat -> G -> list Qc * G.
Variable mask_generator : Z -> G -> grid * G.

(** C1 (as the code has it). On a list of samples with fixed shapes the
    batch size [B] of the mask loops is the number of global-crop rows,
    [n_global_crops * len(samples)], not the number of samples.  With
    [k = floor(B * p)], [k] rows of the collated mask are generated for a
    drawn ratio and the other [B - k] rows are all-false (the generator
    returning an all-false mask for coverage 0); the shuffle decides which
    rows are which. *)
Theorem masked_rows_count cfg samples g gcs lcs out :
  do_free_shapes cfg = false ->
  (forall g, grid_all_false (mask_generator 0 g).1) ->
  (0 <= mask_probability cfg)%Qc ->
  collate_data_and_cast crop_shape random randbelow torch_rand mask_generator
    cfg samples g = Ok (gcs, lcs, out) ->
  exists s0, head samples = Some s0 /\
    let rows := (length (global_crops s0) * length samples)%nat in
    let k := Qfloor (Qc_of_nat rows * mask_probability cfg)%Qc in
    length gcs = rows /\
    exists drawn rest,
      collated_masks out ≡ₚ drawn ++ rest /\
      length drawn = Z.to_nat k /\
      length rest = Z.to_nat (Z.of_nat rows - k) /\
      Forall (Forall (eq false)) rest.
Proof.
  intros _ Hzero Hp H. unfold collate_data_and_cast in H.
  bind_inv H gl Ecpu. destruct gl as [gcs' lcs'].
  bind_inv H out' Eout. injection H as <- <- <-.
  destruct (collate_cpu_length _ _ _ Ecpu) as (s0 & Hs0 & Hlen).
  exists s0. split; [exact Hs0|]. cbn zeta. split; [exact Hlen|].
  destruct (collated_rows_split _ _ _ _ _ _ _ _ Hzero Eout)
    as (drawn & rest & Hperm & Hd & Hr & Hall).
  unfold n_samples_masked in Hd, Hr. cbn [B] in Hd, Hr.
  rewrite Hlen in Hd, Hr.
  assert (Hnn : (0 <= Qc_of_nat (length (global_crops s0) * length samples) *
                      mask_probability cfg)%Qc).
  { apply Qcmult_nonneg_nonneg; [|exact Hp].
    change (Q2Qc 0) with 0%Qc. rewrite <- Qc_of_Z_0. unfold Qc_of_nat.
    apply -> Qc_of_Z_le. lia. }
  rewrite (py_int_floor _ Hnn) in Hd, Hr.
  exists drawn, rest. auto.
Qed.

End ListOfSamples.

(** *** The properties on concrete batches *)

Import CollateDemo.

Lemma demo_generator_zero : forall g, grid_all_false (mask_generator 0 g).1.
Proof. intros g. cbn. repeat constructor. Qed.

Lemma mask_indices_are_true_positions_witness :
  exists out,
    collate_masks random randbelow torch_rand mask_generator cfg front8 0%nat
      = Ok out /\
    StronglySorted lt (mask_indices_list out) /\
    (forall i, i ∈ mask_indices_list out <->
               concat (collated_masks out) !! i = Some true) /\
    n_masked_patches out = row_sum (concat (collated_masks out)) /\
    n_masked_patches out = length (mask_indices_list out).
Proof.
  eexists. split; [vm_compute; reflexivity|].
  apply (mask_indices_are_true_positions random randbelow torch_rand
           mask_generator cfg front8 0%nat).
  vm_compute. reflexivity.
Defined.

Lemma masks_weight_safe_witness :
  exists out,
    collate_masks random randbelow torch_rand mask_generator cfg_free front8 0%nat
      = Ok out /\
    Forall (fun d => (1 <= d)%Qc /\ d <> 0%Qc) (clamped_sums (collated_masks out)) /\
    masks_weight out =
      concat (map (fun row => replicate (row_sum row) (row_weight row))
                (collated_masks out)) /\
    length (masks_weight out) = row_sum (concat (collated_masks out)) /\
    length (masks_weight out) = n_masked_patches out /\
    length (masks_weight out) = length (mask_indices_list out).
Proof.
  eexists. split; [vm_compute; reflexivity|].
  apply (masks_weight_safe random randbelow torch_rand mask_generator
           cfg_free front8 0%nat).
  vm_compute. reflexivity.
Defined.

Lemma masks_weight_normalised_witness :
  exists out row,
    collate_masks random randbelow torch_rand mask_generator cfg front8 0%nat
      = Ok out /\
    collated_masks out !! 1%nat = Some row /\
    (0 < row_sum row)%nat /\
    row_segment (collated_masks out) 1 row (mask_indices_list out) =
      map (fun col => (row_offset (collated_masks out) 1 + col)%nat) (nonzero row) /\
    row_segment (collated_masks out) 1 row (masks_weight out) =
      replicate (row_sum row) (1 / Qc_of_nat (row_sum row))%Qc /\
    Qc_sum (row_segment (collated_masks out) 1 row (masks_weight out)) = 1%Qc.
Proof.
  eexists. eexists.
  split; [vm_compute; reflexivity|].
  split; [vm_compute; reflexivity|].
  split; [vm_compute; lia|].
  apply (masks_weight_normalised random randbelow torch_rand mask_generator
           cfg front8 0%nat).
  - vm_compute. reflexivity.
  - vm_compute. reflexivity.
  - vm_compute. lia.
Defined.

Lemma upperbound_is_max_witness :
  exists out,
    collate_masks random randbelow torch_rand mask_generator cfg front8 0%nat
      = Ok out /\
    upperbound out =
      Z.max (expected_max_masked cfg front8)
            (Z.of_nat (row_sum (concat (collated_masks out)))) /\
    n_masked_patches out = row_sum (concat (collated_masks out)) /\
    (Z.of_nat (n_masked_patches out) <= upperbound out)%Z.
Proof.
  eexists. split; [vm_compute; reflexivity|].
  apply (upperbound_is_max random randbelow torch_rand mask_generator
           cfg front8 0%nat).
  vm_compute. reflexivity.
Defined.

Lemma masked_rows_count_witness :
  exists gcs lcs out,
    do_free_shapes cfg = false /\
    (forall g, grid_all_false (mask_generator 0 g).1) /\
    (0 <= mask_probability cfg)%Qc /\
    run randbelow 0%nat = Ok (gcs, lcs, out) /\
    exists s0, head four_samples = Some s0 /\
      let rows := (length (global_crops s0) * length four_samples)%nat in
      let k := Qfloor (Qc_of_nat rows * mask_probability cfg)%Qc in
      length gcs = rows /\
      exists drawn rest,
        collated_masks out ≡ₚ drawn ++ rest /\
        length drawn = Z.to_nat k /\
        length rest = Z.to_nat (Z.of_nat rows - k) /\
        Forall (Forall (eq false)) rest.
Proof.
  eexists. eexists. eexists.
  split; [reflexivity|].
  split; [exact demo_generator_zero|].
  split; [vm_compute; discriminate|].
  split; [vm_compute; reflexivity|].
  eapply (masked_rows_count id random randbelow torch_rand mask_generator
            cfg four_samples 0%nat).
  - reflexivity.
  - exact demo_generator_zero.
  - vm_compute. discriminate.
  - vm_compute. reflexivity.
Defined.

(** A row that is generated for a drawn ratio need not be non-trivial:
    with 4 tokens per crop and ratios below 1/4 every requested coverage is
    0, and all 8 rows are all-false although 4 of them had a ratio drawn. *)
Lemma drawn_rows_can_be_all_false :
  exists gcs lcs out,
    collate_data_and_cast id random randbelow torch_rand mask_generator
      cfg_small four_samples 0%nat = Ok (gcs, lcs, out) /\
    n_samples_masked cfg_small {| B := 8; gc_last_dim := 56; c := None |} = 4%Z /\
    nontrivial_rows (collated_masks out) = [].
Proof.
  do 3 eexists. split; [vm_compute; reflexivity|]. split; reflexivity.
Qed.

(** C1 (as stated) fails on a batch of 4 samples with 2 global crops each
    and [p = 1/2].  The claim gives [floor(4 * 1/2) = 2] samples with a
    non-trivial mask; the collated mask has 8 rows, 4 of them non-trivial,
    and (under the draws for which the shuffle leaves the order alone) these
    are the first global crop of each of the 4 samples. *)
Lemma four_of_eight_rows_masked :
  exists gcs lcs out,
    run randbelow_last 0%nat = Ok (gcs, lcs, out) /\
    length four_samples = 4%nat /\
    Qfloor (Qc_of_nat (length four_samples) * mask_probability cfg)%Qc = 2%Z /\
    length (collated_masks out) = 8%nat /\
    nontrivial_rows (collated_masks out) = [0; 1; 2; 3]%nat /\
    masked_samples 4 (collated_masks out) = [0; 1; 2; 3]%nat /\
    length (masked_samples 4 (collated_masks out)) <> 2%nat.
Proof.
  eexists. eexists. eexists.
  split; [vm_compute; reflexivity|].
  repeat split; vm_compute; discriminate.
Qed.

End CollateProps.

Module MetaArchProps.
Import Collate MetaArch CollateProps.

(** *** Packing and splitting *)

Lemma boundaries_head s lens : exists rest, boundaries s lens = s :: rest.
Proof. destruct lens; cbn; eauto. Qed.

Lemma last_boundaries s lens :
  List.last (boundaries s lens) 0%nat = (s + sum_list lens)%nat.
Proof.
  revert s. induction lens as [|n lens IH]; intros s.
  - cbn. lia.
  - cbn [boundaries]. destruct (boundaries_head (s + n) lens) as [rest Hrest].
    rewrite Hrest.
    change (List.last (s :: (s + n)%nat :: rest) 0%nat)
      with (List.last ((s + n)%nat :: rest) 0%nat).
    rewrite <- Hrest, IH. cbn. lia.
Qed.

Lemma length_concat_sum {A} (groups : list (list A)) :
  length (concat groups) = sum_list (map length groups).
Proof.
  induction groups as [|g groups IH]; cbn; [done|].
  now rewrite length_app, IH.
Qed.

Lemma blocks_cons {A} s e rest (x : list A) :
  blocks (s :: e :: rest) x = take (e - s) (drop s x) :: blocks (e :: rest) x.
Proof. reflexivity. Qed.

(** Cutting at the boundaries of the packed groups gives the groups back,
    wherever the packed tokens start. *)
Lemma blocks_boundaries {A} (groups : list (list A)) : forall pre,
  blocks (boundaries (length pre) (map length groups)) (pre ++ concat groups)
  = groups.
Proof.
  induction groups as [|g groups IH]; intros pre; [done|].
  cbn [map boundaries concat].
  destruct (boundaries_head (length pre + length g) (map length groups))
    as [rest Hrest].
  rewrite Hrest, blocks_cons, <- Hrest. f_equal.
  - replace (length pre + length g - length pre)%nat with (length g) by lia.
    rewrite drop_app_length. now rewrite take_app_length.
  - rewrite <- length_app, app_assoc. apply IH.
Qed.

(** C8. Packing token groups of any lengths (empty groups included) and
    splitting the packed tensor back at the same block boundaries returns
    the groups, equal and in the same order. *)
Theorem pack_split_roundtrip {A} (groups : list (list A)) :
  split (from_tensor_list groups).1 (from_tensor_list groups).2 = Ok groups.
Proof.
  unfold split, from_tensor_list. cbn [fst snd seqstart].
  rewrite last_boundaries, length_concat_sum.
  rewrite bool_decide_eq_true_2 by lia.
  f_equal. apply (blocks_boundaries groups []).
Qed.

(** The use in [forward_backward]: a head that acts on each token, applied
    to the packed tensor, comes back group by group. *)
Lemma split_after_head {A B} (head : A -> B) (groups : list (list A)) :
  split (from_tensor_list groups).1 (map head (from_tensor_list groups).2)
  = Ok (map (map head) groups).
Proof.
  unfold split, from_tensor_list. cbn [fst snd seqstart].
  rewrite last_boundaries, length_map, length_concat_sum.
  rewrite bool_decide_eq_true_2 by lia. f_equal.
  rewrite concat_map.
  replace (map length groups) with (map length (map (map head) groups)).
  - apply (blocks_boundaries (map (map head) groups) []).
  - rewrite map_map. apply map_ext. intros g. apply length_map.
Qed.

Example pack_split_with_empty_group :
  split (from_tensor_list [[1; 2]; []; [3; 4; 5]]%nat).1
        (from_tensor_list [[1; 2]; []; [3; 4; 5]]%nat).2
  = Ok [[1; 2]; []; [3; 4; 5]]%nat.
Proof. reflexivity. Qed.

(** *** The global-crop distillation loss *)

Lemma Qc_sum_app l1 l2 : Qc_sum (l1 ++ l2) = (Qc_sum l1 + Qc_sum l2)%Qc.
Proof.
  unfold Qc_sum. induction l1 as [|x l1 IH]; cbn [app foldr]; [ring|].
  rewrite IH. ring.
Qed.

Lemma Qc_of_nat_add n m : Qc_of_nat (n + m) = (Qc_of_nat n + Qc_of_nat m)%Qc.
Proof. unfold Qc_of_nat. now rewrite Nat2Z.inj_add, Qc_of_Z_add. Qed.

Lemma Qc_of_nat_neq_0 n : (0 < n)%nat -> Qc_of_nat n <> 0%Qc.
Proof.
  intros H Hz. apply Qc_of_nat_pos in H. rewrite Hz in H.
  now apply Qclt_not_eq in H.
Qed.

Lemma Qc_of_nat_2 : Qc_of_nat 2 = (1 + 1)%Qc.
Proof. apply Qc_is_canon. reflexivity. Qed.

Section Losses.

Variable cross_entropy : row -> row -> Qc.

Abbreviation pair_ce := (pair_cross_entropy cross_entropy).

(** The cross-entropy over two crops processed together is the average of
    the two per-crop cross-entropies. *)
Lemma pair_cross_entropy_app S0 S1 Ta Tb :
  length Ta = length S0 -> length S1 = length S0 -> length Tb = length S0 ->
  (0 < length S0)%nat ->
  pair_ce (S0 ++ S1) (Ta ++ Tb) =
  ((pair_ce S0 Ta + pair_ce S1 Tb) / Qc_of_nat 2)%Qc.
Proof.
  intros HTa HS1 HTb Hpos. unfold pair_cross_entropy, mean.
  rewrite zip_with_app by congruence.
  rewrite Qc_sum_app, length_app, !length_zip_with.
  rewrite HTa, HS1, HTb, Nat.min_id, Qc_of_nat_add.
  assert (Hn : Qc_of_nat (length S0) <> 0%Qc) by now apply Qc_of_nat_neq_0.
  assert (Hnn : (Qc_of_nat (length S0) + Qc_of_nat (length S0))%Qc <> 0%Qc).
  { rewrite <- Qc_of_nat_add. apply Qc_of_nat_neq_0. lia. }
  assert (H2 : (1 + 1)%Qc <> 0%Qc) by (intros E; discriminate E).
  rewrite Qc_of_nat_2. field. repeat split; assumption.
Qed.

(** With the two global crops ([n_global_crops = 2]), student outputs [S0],
    [S1] and the teacher pseudo-targets [Ta], [Tb] they are matched with,
    the expression assigned to [dino_global_crops_loss] is the sum of the two
    per-pair cross-entropies divided by the number of loss terms: the factor
    [loss_scales = 2] only undoes the averaging over the two crops that are
    processed together. *)
Lemma dino_global_crops_loss_pairs n_local S0 S1 Ta Tb :
  length Ta = length S0 -> length S1 = length S0 -> length Tb = length S0 ->
  (0 < length S0)%nat ->
  dino_global_crops_loss cross_entropy n_local (S0 ++ S1) [Ta; Tb] =
  ((pair_ce S0 Ta + pair_ce S1 Tb)
   / Qc_of_nat (n_global_crops * (n_global_crops - 1)
                + Nat.max (n_local * n_global_crops) 1))%Qc.
Proof.
  intros HTa HS1 HTb Hpos.
  unfold dino_global_crops_loss, dino_loss, n_global_crops_loss_terms,
    n_local_crops_loss_terms, loss_scales.
  cbn [mbind list_bind app concat]. rewrite !app_nil_r.
  unfold Qc_sum at 1. cbn [foldr].
  rewrite pair_cross_entropy_app by assumption.
  replace ((n_global_crops - 1) * n_global_crops)%nat
    with (n_global_crops * (n_global_crops - 1))%nat by (cbn; lia).
  set (terms := Qc_of_nat (n_global_crops * (n_global_crops - 1) + _)).
  assert (Hterms : terms <> 0%Qc).
  { subst terms. apply Qc_of_nat_neq_0. cbn. lia. }
  assert (H2 : (1 + 1)%Qc <> 0%Qc) by (intros E; discriminate E).
  rewrite Qc_of_nat_2. field. repeat split; assumption.
Qed.

End Losses.

(** *** Construction and first use of the centering mode *)

(** The constructor does not look at [cfg.train.centering]. *)
Lemma init_ignores_centering s c :
  init (set_centering s c) = with_cfg (set_centering s c) <$> init c.
Proof.
  unfold init. cbn [set_centering dino_loss_weight koleo_loss_weight
    ibot_loss_weight ibot_separate_head mask_ratio_min_max
    mask_sample_probability].
  destruct (Qc_ltb 0 (dino_loss_weight c)), (Qc_ltb 0 (ibot_loss_weight c));
    cbn; try reflexivity.
  all: destruct (Qc_ltb 0 (Qc_max _ _)); cbn; try reflexivity.
  all: destruct (Qc_ltb 0 (mask_sample_probability c)); reflexivity.
Qed.

Section Step.

Context {crop : Type}.
Variable net : networks crop.
Variable self : SSLMetaArch.

(** The first half of the teacher forward only logs teacher events. *)
Lemma teacher_tokens_after_head_log im log log' r :
  teacher_tokens_after_head net self im log = (log', r) ->
  exists evs, log' = log ++ evs /\ forallb teacher_event evs = true.
Proof.
  unfold teacher_tokens_after_head, mbind, M_bind, emit, lift, raise, lift,
    mret, M_ret.
  destruct (teacher_backbone net _) as [cls patches].
  repeat match goal with
         | |- context [match ?x with _ => _ end] => destruct x
         | |- context [if ?b then _ else _] => destruct b
         end;
    intros [= <- <-];
    (eexists; split; [rewrite <- ?app_assoc; reflexivity | reflexivity]).
Qed.

Lemma get_teacher_output_unrecognised im temp log :
  recognised_centering (centering (the_cfg self)) = false ->
  get_teacher_output net self im temp log =
  match teacher_tokens_after_head net self im log with
  | (log', Ok _) => (log', Raise NotImplementedError)
  | (log', Raise e) => (log', Raise e)
  end.
Proof.
  unfold recognised_centering. intros H.
  apply orb_false_iff in H as [H1 H2].
  unfold get_teacher_output, mbind, M_bind.
  destruct (teacher_tokens_after_head net self im log) as [log' [[a b]|e]];
    [|reflexivity].
  now rewrite H1, H2.
Qed.

End Step.

(** C3 (as the code has it). The constructor accepts a configuration
    whatever its centering mode is: it returns what it returns for any other
    mode.  With a mode that is neither ["centering"] nor ["sinkhorn_knopp"],
    the first training step fails inside the teacher forward: it raises
    [NotImplementedError] as soon as the teacher heads have run, having
    logged teacher events only, so before the student forward, the losses
    and the backward pass. *)
Theorem unrecognised_centering_fails_at_first_use {crop} (net : networks crop)
    c self im temp log :
  recognised_centering (centering c) = false ->
  init c = Ok self ->
  (forall s, init (set_centering s c) = Ok (with_cfg (set_centering s c) self)) /\
  exists e evs,
    forward_backward net self im temp log = (log ++ evs, Raise e) /\
    forallb teacher_event evs = true /\
    (forall log1 x, teacher_tokens_after_head net self im log = (log1, Ok x) ->
                    e = NotImplementedError).
Proof.
  intros Hmode Hinit. split.
  { intros s. now rewrite init_ignores_centering, Hinit. }
  assert (Hcfg : the_cfg self = c).
  { unfold init in Hinit. bind_inv Hinit h1 E1. bind_inv Hinit h2 E2.
    now injection Hinit as <-. }
  rewrite <- Hcfg in Hmode.
  unfold forward_backward, mbind at 1, M_bind at 1.
  rewrite (get_teacher_output_unrecognised net self im temp log Hmode).
  destruct (teacher_tokens_after_head net self im log) as [log' r] eqn:Et.
  destruct (teacher_tokens_after_head_log net self im log log' r Et)
    as (evs & -> & Hevs).
  destruct r as [x|e].
  - exists NotImplementedError, evs. split; [reflexivity|]. split; [exact Hevs|].
    reflexivity.
  - exists e, evs. split; [reflexivity|]. split; [exact Hevs|].
    intros log1 x Hok. discriminate Hok.
Qed.

(** *** The loss entries of a successful step *)

Lemma split_packed_head {A B} (head : A -> B) (groups : list (list A)) :
  split {| seqstart := boundaries 0 (map length groups) |}
    (map head (concat groups))
  = Ok (map (map head) groups).
Proof. apply split_after_head. Qed.

Section StepLosses.

Context {crop : Type}.
Variable net : networks crop.
Variable self : SSLMetaArch.

(** A successful step stores under ["dino_global_crops_loss"] the value of
    [dino_global_crops_loss] at the student head's outputs for the global
    class tokens and the teacher's centred targets. *)
Lemma forward_backward_global_loss_entry im temp log log' d :
  forward_backward net self im temp log = (log', Ok d) ->
  do_dino self = true ->
  exists log1 T masked,
    get_teacher_output net self im temp log = (log1, Ok (T, masked)) /\
    ("dino_global_crops_loss"%string,
     dino_global_crops_loss (cross_entropy net)
       (local_crops_number (the_cfg self))
       (map (student_dino_head net)
          (student_backbone net (collated_global_crops im)
             (MetaArch.collated_masks im) (collated_local_crops im)).1.1)
       T) ∈ d.
Proof.
  intros H Hdino. unfold forward_backward in H.
  unfold mbind at 1, M_bind at 1 in H.
  destruct (get_teacher_output net self im temp log) as [log1 [[T masked]|e]];
    [|discriminate H].
  exists log1, T, masked. split; [reflexivity|].
  destruct (student_backbone net _ _ _) as [[g_cls g_patches] l_cls].
  cbn [fst snd]. rewrite Hdino in H.
  unfold mbind, M_bind, emit, lift, raise, lift, mret, M_ret in H.
  cbn [negb] in H.
  set (entry := (_, dino_global_crops_loss _ _ _ _)).
  repeat (first
    [ rewrite split_packed_head in H
    | progress unfold from_tensor_list in H
    | progress cbn [negb andb map app pop0 fst snd] in H
    | progress cbv beta iota zeta in H
    | match type of H with
      | context [if ?b then _ else _] => destruct b eqn:?
      | context [match ?x with Ok _ => _ | Raise _ => _ end] =>
          destruct x eqn:?
      end
    | discriminate H ]).
  all: injection H as _ <-.
  all: subst entry; rewrite ?elem_of_app, ?elem_of_cons; auto 10.
Qed.

Lemma view_two {A} (x : list A) T :
  view 2 x = Ok T ->
  exists Ta Tb, T = [Ta; Tb] /\ x = Ta ++ Tb /\
    length Ta = length Tb /\ (0 < length Ta)%nat.
Proof.
  unfold view. set (h := (length x / 2)%nat). cbn [Nat.eqb orb].
  destruct (Nat.eqb_spec (length x) 0) as [|Hne]; [discriminate|].
  destruct (Nat.eqb_spec (length x mod 2) 0) as [Hmod|]; [|discriminate].
  intros Hv.
  change (Ok [take h (drop (0 * h) x); take h (drop (1 * h) x)] = Ok T) in Hv.
  assert (HT : T = [take h (drop (0 * h) x); take h (drop (1 * h) x)])
    by congruence.
  clear Hv. subst T. rewrite Nat.mul_0_l, Nat.mul_1_l, drop_0.
  assert (Hlen : length x = (2 * h)%nat).
  { subst h. pose proof (Nat.div_mod (length x) 2). lia. }
  exists (take h x), (drop h x). repeat split.
  - f_equal. f_equal. apply take_ge. rewrite length_drop. lia.
  - now rewrite take_drop.
  - rewrite length_take, length_drop. lia.
  - rewrite length_take. lia.
Qed.

(** The teacher's targets come out of [view(n_global_crops, -1, ...)]. *)
Lemma get_teacher_output_view im temp log log1 T masked :
  get_teacher_output net self im temp log = (log1, Ok (T, masked)) ->
  exists x : rows, view n_global_crops x = Ok T.
Proof.
  unfold get_teacher_output, mbind, M_bind, emit, lift, raise, lift, mret, M_ret.
  destruct (teacher_tokens_after_head net self im log) as [l [[a b]|e]];
    [|discriminate].
  repeat match goal with
         | |- context [if ?b then _ else _] => destruct b
         | |- context [match view ?n ?x with _ => _ end] =>
             destruct (view n x) eqn:?
         end;
    try discriminate; intros [= _ <- _]; eauto.
Qed.

(** C7. In every successful training step with the DINO loss on, the value
    stored under ["dino_global_crops_loss"] is the sum of the two per-pair
    cross-entropies (student crop [S0] against teacher target [Ta], student
    crop [S1] against [Tb]) divided by [global_loss_terms +
    local_loss_terms], where [global_loss_terms = n_global * (n_global - 1)],
    [local_loss_terms = max(n_local * n_global, 1)] and [n_global = 2]; the
    student and the teacher are assumed to produce as many class tokens. *)
Theorem global_loss_normalisation im temp log log' d log1 T masked :
  forward_backward net self im temp log = (log', Ok d) ->
  do_dino self = true ->
  get_teacher_output net self im temp log = (log1, Ok (T, masked)) ->
  length (student_backbone net (collated_global_crops im)
            (MetaArch.collated_masks im) (collated_local_crops im)).1.1
    = length (concat T) ->
  exists S0 S1 Ta Tb,
    T = [Ta; Tb] /\
    map (student_dino_head net)
      (student_backbone net (collated_global_crops im)
         (MetaArch.collated_masks im) (collated_local_crops im)).1.1
      = S0 ++ S1 /\
    length S0 = length Ta /\ length S1 = length Tb /\
    ("dino_global_crops_loss"%string,
     ((pair_cross_entropy (cross_entropy net) S0 Ta
       + pair_cross_entropy (cross_entropy net) S1 Tb)
      / Qc_of_nat (n_global_crops * (n_global_crops - 1)
                   + Nat.max (local_crops_number (the_cfg self)
                              * n_global_crops) 1))%Qc) ∈ d.
Proof.
  intros Hrun Hdino Hteacher Hlen.
  destruct (forward_backward_global_loss_entry _ _ _ _ _ Hrun Hdino)
    as (log1' & T' & masked' & Hteacher' & Hentry).
  rewrite Hteacher in Hteacher'. injection Hteacher' as <- <- <-.
  destruct (get_teacher_output_view _ _ _ _ _ _ Hteacher) as [x Hview].
  apply view_two in Hview as (Ta & Tb & -> & _ & HTab & Hpos).
  set (S := map _ _) in *.
  assert (HS : length S = (length Ta + length Tb)%nat).
  { subst S. rewrite length_map, Hlen. cbn [concat].
    now rewrite !length_app, Nat.add_0_r. }
  exists (take (length Ta) S), (drop (length Ta) S), Ta, Tb.
  assert (H0 : length (take (length Ta) S) = length Ta)
    by (rewrite length_take; lia).
  assert (H1 : length (drop (length Ta) S) = length Tb)
    by (rewrite length_drop; lia).
  split; [done|]. split; [now rewrite take_drop|].
  split; [done|]. split; [done|].
  rewrite <- dino_global_crops_loss_pairs by lia.
  now rewrite take_drop.
Qed.

End StepLosses.

(** *** The properties on concrete inputs *)

Import MetaArchDemo.

Lemma global_loss_normalisation_witness :
  exists log' d log1 T masked,
    forward_backward net good_arch batch 1%Qc [] = (log', Ok d) /\
    do_dino good_arch = true /\
    get_teacher_output net good_arch batch 1%Qc [] = (log1, Ok (T, masked)) /\
    length (student_backbone net (collated_global_crops batch)
              (MetaArch.collated_masks batch) (collated_local_crops batch)).1.1
      = length (concat T) /\
    exists S0 S1 Ta Tb,
      T = [Ta; Tb] /\
      map (student_dino_head net)
        (student_backbone net (collated_global_crops batch)
           (MetaArch.collated_masks batch) (collated_local_crops batch)).1.1
        = S0 ++ S1 /\
      length S0 = length Ta /\ length S1 = length Tb /\
      ("dino_global_crops_loss"%string,
       ((pair_cross_entropy (cross_entropy net) S0 Ta
         + pair_cross_entropy (cross_entropy net) S1 Tb)
        / Qc_of_nat (n_global_crops * (n_global_crops - 1)
                     + Nat.max (local_crops_number (the_cfg good_arch)
                                * n_global_crops) 1))%Qc) ∈ d.
Proof.
  do 5 eexists.
  split; [vm_compute; reflexivity|].
  split; [reflexivity|].
  split; [vm_compute; reflexivity|].
  split; [reflexivity|].
  eapply (global_loss_normalisation net good_arch batch 1%Qc []).
  - vm_compute. reflexivity.
  - reflexivity.
  - vm_compute. reflexivity.
  - reflexivity.
Defined.

Lemma unrecognised_centering_fails_at_first_use_witness :
  recognised_centering (centering bad_cfg) = false /\
  init bad_cfg = Ok bad_arch /\
  (forall s, init (set_centering s bad_cfg)
             = Ok (with_cfg (set_centering s bad_cfg) bad_arch)) /\
  exists e evs,
    forward_backward net bad_arch batch 1%Qc [] = ([] ++ evs, Raise e) /\
    forallb teacher_event evs = true /\
    (forall log1 x,
        teacher_tokens_after_head net bad_arch batch [] = (log1, Ok x) ->
        e = NotImplementedError).
Proof.
  assert (H1 : recognised_centering (centering bad_cfg) = false) by reflexivity.
  assert (H2 : init bad_cfg = Ok bad_arch) by (vm_compute; reflexivity).
  split; [exact H1|]. split; [exact H2|].
  exact (unrecognised_centering_fails_at_first_use net bad_cfg bad_arch batch
           1%Qc [] H1 H2).
Defined.

(** C3 (as stated) fails: the constructor returns an architecture for a
    configuration whose centering mode is not recognised, and the step that
    follows is where [NotImplementedError] comes from. *)
Lemma init_accepts_unrecognised_centering :
  recognised_centering (centering bad_cfg) = false /\
  init bad_cfg = Ok bad_arch /\
  forward_backward net bad_arch batch 1%Qc [] =
    ([TeacherBackboneForward; TeacherHeadForward], Raise NotImplementedError).
Proof. repeat split; vm_compute; reflexivity. Qed.

End MetaArchProps.

Module EmaProps.
Import Ema.

Section Scalars.

Context {T : Type}.
Variables (mul add sub : T -> T -> T) (one : T).

Abbreviation scaled m t :=
  {| data := map (fun x => mul x m) (data t);
     requires_grad := requires_grad t;
     is_leaf := is_leaf t |}.

(** Gradient mode off: an in-place operation only rewrites the data. *)
Lemma inplace_no_grad others f (t : tensor T) :
  inplace false others f t =
  Ok {| data := f (data t); requires_grad := requires_grad t;
        is_leaf := is_leaf t |}.
Proof. reflexivity. Qed.

Lemma foreach_mul_spec m : forall tensors (s s' : gmap nat (tensor T)),
  NoDup tensors ->
  foreach_mul_ mul false tensors m s = Ok s' ->
  (forall r, r ∈ tensors ->
     exists t, s !! r = Some t /\ s' !! r = Some (scaled m t)) /\
  (forall r, r ∉ tensors -> s' !! r = s !! r).
Proof.
  induction tensors as [|r0 tensors IH]; intros s s' Hnd H;
    cbn [foreach_mul_] in H.
  - injection H as <-. split; [intros r Hr; now apply elem_of_nil in Hr | done].
  - apply NoDup_cons in Hnd as [Hr0 Hnd].
    destruct (s !! r0) as [t0|] eqn:E0; [|discriminate].
    rewrite inplace_no_grad in H. cbn in H.
    destruct (IH _ _ Hnd H) as [Hin Hout]. split.
    + intros r Hr. apply elem_of_cons in Hr as [->|Hr].
      * exists t0. split; [done|]. rewrite (Hout r0 Hr0).
        apply lookup_insert_eq.
      * destruct (Hin r Hr) as (t & Ht & Ht'). exists t. split; [|done].
        rewrite lookup_insert_ne in Ht; [done|]. intros ->. contradiction.
    + intros r Hr. apply not_elem_of_cons in Hr as [Hne Hr].
      rewrite (Hout r Hr). now apply lookup_insert_ne.
Qed.

Lemma foreach_add_loop_spec alpha : forall pairs (s s' : gmap nat (tensor T)),
  NoDup (pairs.*1) ->
  (forall o, o ∈ pairs.*2 -> o ∉ pairs.*1) ->
  foreach_add_loop mul add false pairs alpha s = Ok s' ->
  (forall r o, (r, o) ∈ pairs ->
     exists t x, s !! r = Some t /\ s !! o = Some x /\
       s' !! r = Some {| data := add_alpha mul add alpha (data x) (data t);
                         requires_grad := requires_grad t;
                         is_leaf := is_leaf t |}) /\
  (forall r, r ∉ pairs.*1 -> s' !! r = s !! r).
Proof.
  induction pairs as [|[r0 o0] pairs IH]; intros s s' Hnd Hdisj H;
    cbn [foreach_add_loop] in H.
  - injection H as <-. split; [intros r o Hr; now apply elem_of_nil in Hr | done].
  - cbn [fmap list_fmap fst snd] in Hnd, Hdisj.
    apply NoDup_cons in Hnd as [Hr0 Hnd].
    destruct (s !! r0) as [t0|] eqn:E0; [|discriminate].
    destruct (s !! o0) as [x0|] eqn:Eo; [|discriminate].
    case_bool_decide as Hlen; [|discriminate].
    rewrite inplace_no_grad in H. cbn in H.
    assert (Hdisj' : forall o, o ∈ pairs.*2 -> o ∉ pairs.*1).
    { intros o Ho Hin. apply (Hdisj o); [now right | now right]. }
    destruct (IH _ _ Hnd Hdisj' H) as [Hin Hout]. split.
    + intros r o Hr. apply elem_of_cons in Hr as [[= -> ->]|Hr].
      * exists t0, x0. repeat split; [done..|].
        rewrite (Hout r0 Hr0). apply lookup_insert_eq.
      * destruct (Hin r o Hr) as (t & x & Ht & Hx & Ht').
        assert (Hrin : r ∈ pairs.*1).
        { apply list_elem_of_fmap. now exists (r, o). }
        assert (Hoin : o ∈ pairs.*2).
        { apply list_elem_of_fmap. now exists (r, o). }
        assert (r <> r0) by (intros ->; contradiction).
        assert (o <> r0).
        { intros ->. apply (Hdisj r0); [now right | now left]. }
        rewrite lookup_insert_ne in Ht by done.
        rewrite lookup_insert_ne in Hx by done.
        exists t, x. auto.
    + intros r Hr. cbn [fmap list_fmap fst] in Hr.
      apply not_elem_of_cons in Hr as [Hne Hr].
      rewrite (Hout r Hr). now apply lookup_insert_ne.
Qed.

Lemma add_alpha_scaled m (t x : list T) :
  (forall a b, mul a b = mul b a) ->
  add_alpha mul add (sub one m) x (map (fun v => mul v m) t) =
  ema mul add sub one m t x.
Proof.
  intros Hcomm. unfold add_alpha, ema.
  change (map ?f ?l) with (f <$> l). rewrite zip_with_fmap_l.
  apply zip_with_ext; [|done..]. intros a b. now rewrite (Hcomm a m).
Qed.

(** C6. With the flat lists [teacher_param_list] and [student_param_list]
    that the two loops build (teacher references distinct and not shared
    with the student), [update_teacher(m)] leaves in every teacher tensor
    [m * teacher + (1 - m) * student] of the pair at the same position,
    element by element; it records nothing in the autograd graph (the
    attributes of the teacher tensor are unchanged although the student
    requires gradients), restores the gradient mode, and changes no other
    tensor.  Multiplication is only assumed to commute. *)
Theorem update_teacher_ema student teacher m (st st' : state T) sl tl :
  (forall a b, mul a b = mul b a) ->
  param_lists student teacher = Ok (sl, tl) ->
  NoDup tl ->
  (forall r, r ∈ sl -> r ∉ tl) ->
  update_teacher mul add sub one student teacher m st = Ok st' ->
  grad_enabled st' = grad_enabled st /\
  (forall i tr sr, tl !! i = Some tr -> sl !! i = Some sr ->
     exists t x,
       params st !! tr = Some t /\ params st !! sr = Some x /\
       params st' !! tr =
         Some {| data := ema mul add sub one m (data t) (data x);
                 requires_grad := requires_grad t;
                 is_leaf := is_leaf t |} /\
       params st' !! sr = Some x) /\
  (forall r, r ∉ tl -> params st' !! r = params st !! r).
Proof.
  intros Hcomm Hpl Hnd Hdisj H. unfold update_teacher in H.
  rewrite Hpl in H. cbn [mbind result_bind] in H.
  bind_inv H s1 E1. bind_inv H s2 E2. injection H as <-.
  cbn [grad_enabled params]. split; [done|].
  apply foreach_mul_spec in E1 as [Hmul_in Hmul_out]; [|exact Hnd].
  unfold foreach_add_ in E2. case_bool_decide as Hlen; [|discriminate].
  apply foreach_add_loop_spec in E2 as [Hadd_in Hadd_out].
  - rewrite fst_zip in Hadd_out by lia. split.
    + intros i tr sr Htr Hsr.
      assert (Hpair : (tr, sr) ∈ zip tl sl).
      { apply list_elem_of_lookup. exists i.
        apply lookup_zip_with_Some. eauto. }
      destruct (Hadd_in _ _ Hpair) as (t1 & x & Ht1 & Hx & Ht').
      assert (Htr_in : tr ∈ tl) by (eapply list_elem_of_lookup_2; eauto).
      assert (Hsr_in : sr ∈ sl) by (eapply list_elem_of_lookup_2; eauto).
      destruct (Hmul_in _ Htr_in) as (t & Ht & Hts).
      rewrite Hts in Ht1. injection Ht1 as <-.
      rewrite (Hmul_out sr (Hdisj _ Hsr_in)) in Hx.
      exists t, x. split; [done|]. split; [done|]. split.
      * rewrite Ht'. cbn [data requires_grad is_leaf].
        now rewrite add_alpha_scaled.
      * rewrite (Hadd_out sr (Hdisj _ Hsr_in)).
        now rewrite (Hmul_out sr (Hdisj _ Hsr_in)).
    + intros r Hr. rewrite (Hadd_out r Hr). now apply Hmul_out.
  - now rewrite fst_zip by lia.
  - rewrite fst_zip, snd_zip by lia. exact Hdisj.
Qed.

End Scalars.

(** *** The update on a concrete student and teacher *)

Import EmaDemo.

Lemma update_teacher_ema_witness :
  exists st',
    (forall a b : Qc, (a * b = b * a)%Qc) /\
    param_lists student teacher = Ok ([0; 1; 2; 3]%nat, [10; 11; 12; 13]%nat) /\
    NoDup [10; 11; 12; 13]%nat /\
    (forall r, r ∈ [0; 1; 2; 3]%nat -> r ∉ [10; 11; 12; 13]%nat) /\
    update st0 = Ok st' /\
    grad_enabled st' = grad_enabled st0 /\
    (forall i tr sr,
       [10; 11; 12; 13]%nat !! i = Some tr -> [0; 1; 2; 3]%nat !! i = Some sr ->
       exists t x,
         params st0 !! tr = Some t /\ params st0 !! sr = Some x /\
         params st' !! tr =
           Some {| data := ema Qcmult Qcplus Qcminus 1%Qc momentum (data t) (data x);
                   requires_grad := requires_grad t;
                   is_leaf := is_leaf t |} /\
         params st' !! sr = Some x) /\
    (forall r, r ∉ [10; 11; 12; 13]%nat -> params st' !! r = params st0 !! r).
Proof.
  assert (H1 : forall a b : Qc, (a * b = b * a)%Qc) by (intros; ring).
  assert (H2 : param_lists student teacher
               = Ok ([0; 1; 2; 3]%nat, [10; 11; 12; 13]%nat)) by reflexivity.
  assert (H3 : NoDup [10; 11; 12; 13]%nat)
    by (repeat (apply NoDup_cons; split;
                  [rewrite ?elem_of_cons, elem_of_nil; lia|]);
        apply NoDup_nil; exact I).
  assert (H4 : forall r, r ∈ [0; 1; 2; 3]%nat -> r ∉ [10; 11; 12; 13]%nat).
  { intros r Hr Hr'. rewrite ?elem_of_cons, elem_of_nil in Hr, Hr'. lia. }
  destruct (update st0) as [st'|e] eqn:E; [|vm_compute in E; discriminate E].
  exists st'.
  split; [exact H1|]. split; [exact H2|]. split; [exact H3|].
  split; [exact H4|]. split; [reflexivity|].
  exact (update_teacher_ema Qcmult Qcplus Qcminus 1%Qc student teacher
           momentum st0 st' _ _ H1 H2 H3 H4 E).
Defined.

Example update_teacher_demo :
  (fun st' => (map this ∘ data <$> params st' !! 10%nat,
               map this ∘ data <$> params st' !! 12%nat))
    <$> update st0
  = Ok (Some [91 # 10; 91 # 5]%Q, Some [182 # 5; 91 # 2; 273 # 5]%Q).
Proof. vm_compute. reflexivity. Qed.

End EmaProps.

Module TrainProps.
Import Train.

Lemma train_iter_nan max_iter gs st inp :
  (iteration st <= max_iter)%nat ->
  PrimFloat.is_nan (losses_reduced gs inp) = true ->
  train_iter max_iter gs st inp =
    ({| iteration := iteration st;
        optimizer_steps := S (optimizer_steps st);
        teacher_updates := S (teacher_updates st);
        logged := logged st |}, Raised AssertionError).
Proof.
  intros Hle Hnan. unfold train_iter.
  destruct (Nat.ltb_spec max_iter (iteration st)) as [Hlt|_]; [lia|].
  cbv zeta. rewrite Hnan. reflexivity.
Qed.

Lemma train_iter_not_nan max_iter gs st inp :
  (iteration st <= max_iter)%nat ->
  PrimFloat.is_nan (losses_reduced gs inp) = false ->
  train_iter max_iter gs st inp =
    ({| iteration := S (iteration st);
        optimizer_steps := S (optimizer_steps st);
        teacher_updates := S (teacher_updates st);
        logged := logged st ++ [losses_reduced gs inp] |}, Next).
Proof.
  intros Hle Hnan. unfold train_iter.
  destruct (Nat.ltb_spec max_iter (iteration st)) as [Hlt|_]; [lia|].
  cbv zeta. rewrite Hnan. reflexivity.
Qed.

Lemma do_train_clean_prefix max_iter gs pre : forall st rest,
  (iteration st + length pre <= max_iter)%nat ->
  Forall (fun i => PrimFloat.is_nan (losses_reduced gs i) = false) pre ->
  do_train max_iter gs st (pre ++ rest) =
  do_train max_iter gs
    {| iteration := iteration st + length pre;
       optimizer_steps := optimizer_steps st + length pre;
       teacher_updates := teacher_updates st + length pre;
       logged := logged st ++ map (losses_reduced gs) pre |} rest.
Proof.
  induction pre as [|i pre IH]; intros st rest Hle Hok.
  - cbn [length app map]. rewrite !Nat.add_0_r, app_nil_r. now destruct st.
  - inversion Hok as [|? ? Hi Hpre]; subst. cbn [length] in Hle.
    cbn [app do_train]. rewrite train_iter_not_nan by (assumption || lia).
    rewrite IH by (cbn; assumption || lia). cbn [iteration optimizer_steps
      teacher_updates logged length map].
    rewrite <- app_assoc. cbn [app].
    f_equal. f_equal; lia.
Qed.

(** C2 (as the code has it). If the reduced total loss of some iteration
    is NaN, and the iterations before it were not, [do_train] stops at that
    iteration by raising [AssertionError]: the optimizer step and the
    teacher update of that iteration have already run, nothing is logged
    for it, and none of the later batches is looked at (the result does
    not depend on [post]). *)
Theorem nan_loss_aborts max_iter gs st pre inp post :
  (iteration st + length pre <= max_iter)%nat ->
  Forall (fun i => PrimFloat.is_nan (losses_reduced gs i) = false) pre ->
  PrimFloat.is_nan (losses_reduced gs inp) = true ->
  do_train max_iter gs st (pre ++ inp :: post) =
    ({| iteration := iteration st + length pre;
        optimizer_steps := S (optimizer_steps st + length pre);
        teacher_updates := S (teacher_updates st + length pre);
        logged := logged st ++ map (losses_reduced gs) pre |},
     Raised AssertionError).
Proof.
  intros Hle Hok Hnan.
  rewrite do_train_clean_prefix by assumption.
  cbn [do_train]. rewrite train_iter_nan by (cbn; assumption || lia).
  reflexivity.
Qed.

Lemma nan_loss_aborts_witness :
  (iteration start + length [ok_batch] <= 10)%nat /\
  Forall (fun i => PrimFloat.is_nan (losses_reduced 2 i) = false) [ok_batch] /\
  PrimFloat.is_nan (losses_reduced 2 nan_batch) = true /\
  do_train 10 2 start ([ok_batch] ++ nan_batch :: [ok_batch; ok_batch]) =
    ({| iteration := 1; optimizer_steps := 2; teacher_updates := 2;
        logged := [float_of_nat 2] |}, Raised AssertionError).
Proof.
  assert (H1 : (iteration start + length [ok_batch] <= 10)%nat) by (cbn; lia).
  assert (H2 : Forall (fun i => PrimFloat.is_nan (losses_reduced 2 i) = false)
                 [ok_batch]) by (repeat constructor).
  assert (H3 : PrimFloat.is_nan (losses_reduced 2 nan_batch) = true)
    by reflexivity.
  split; [exact H1 | split; [exact H2 | split; [exact H3 |]]].
  exact (nan_loss_aborts 10 2 start [ok_batch] nan_batch [ok_batch; ok_batch]
           H1 H2 H3).
Defined.

(** C2 (as stated) fails for an infinite loss: the reduced total of
    [inf_batch] is [+inf], which is not finite, and the loop neither raises
    nor stops; it logs the infinite total and trains on the next batch. *)
Lemma inf_loss_continues :
  non_finite (losses_reduced 1 inf_batch) = true /\
  do_train 10 1 start [inf_batch; ok_batch] =
    ({| iteration := 2; optimizer_steps := 2; teacher_updates := 2;
        logged := [PrimFloat.infinity; float_of_nat 2] |}, Completed).
Proof. split; reflexivity. Qed.

End TrainProps.

(* ================================================================== *)
(** * Further properties *)
(* ================================================================== *)

Module CollateMore.
Import Collate CollateProps CollateSpec.

Lemma Qc_of_nat_nonneg n : (0 <= Qc_of_nat n)%Qc.
Proof.
  rewrite <- Qc_of_Z_0. unfold Qc_of_nat. apply -> Qc_of_Z_le. lia.
Qed.

Lemma Qfloor_Qc_of_Z z : Qfloor (Qc_of_Z z) = z.
Proof.
  unfold Qc_of_Z. cbn [this Q2Qc].
  rewrite (Qfloor_comp _ _ (Qred_correct (inject_Z z))). apply Qfloor_Z.
Qed.

Lemma n_samples_masked_bounds cfg fr :
  (0 <= mask_probability cfg)%Qc -> (mask_probability cfg <= 1)%Qc ->
  (0 <= n_samples_masked cfg fr <= Z.of_nat (B fr))%Z.
Proof.
  intros H0 H1. unfold n_samples_masked.
  assert (Hnn : (0 <= Qc_of_nat (B fr) * mask_probability cfg)%Qc).
  { apply Qcmult_nonneg_nonneg; [apply Qc_of_nat_nonneg | exact H0]. }
  assert (Hle : (Qc_of_nat (B fr) * mask_probability cfg <= Qc_of_nat (B fr))%Qc).
  { rewrite <- (Qcmult_1_r (Qc_of_nat (B fr))) at 2.
    rewrite !(Qcmult_comm (Qc_of_nat (B fr))).
    apply Qcmult_le_compat_r; [exact H1 | apply Qc_of_nat_nonneg]. }
  rewrite (py_int_floor _ Hnn). split.
  - change 0%Z with (Qfloor 0). apply Qfloor_resp_le. exact Hnn.
  - rewrite <- (Qfloor_Qc_of_Z (Z.of_nat (B fr))). apply Qfloor_resp_le. exact Hle.
Qed.

Lemma length_concat_grid (m : grid) : length (concat m) = sum_list (grid_shape m).
Proof.
  unfold grid_shape. induction m as [|row m IH]; cbn; [done|].
  now rewrite length_app, IH.
Qed.

Lemma stack_flatten_uniform ms stacked :
  stack_flatten ms = Ok stacked ->
  exists W, Forall (fun row => length row = W) stacked.
Proof.
  unfold stack_flatten. destruct ms as [|m0 ms]; [discriminate|].
  destruct (forallb _ _) eqn:E; [|discriminate]. intros [= <-].
  exists (length (concat m0)).
  change (Forall (fun row : list bool => length row = length (concat m0))
            (map (@concat bool) (m0 :: ms))).
  apply List.Forall_map. rewrite forallb_forall in E. apply List.Forall_forall.
  intros m Hm. apply E in Hm. apply bool_decide_eq_true in Hm.
  rewrite !length_concat_grid. now rewrite Hm.
Qed.

Lemma length_tile_row ch (row : list bool) :
  length (concat (replicate ch row)) = (ch * length row)%nat.
Proof.
  induction ch as [|ch IH]; cbn; [done|]. now rewrite length_app, IH.
Qed.

Lemma all_false_no_index ms s :
  Forall (eq false) ms -> nonzero_from s ms = [].
Proof.
  intros H. apply nil_length_inv. rewrite length_nonzero_from.
  now apply row_sum_all_false.
Qed.

Lemma masked_row_count_weight rows :
  Qc_sum (concat (map (fun row => replicate (row_sum row) (row_weight row)) rows))
  = Qc_of_nat (masked_row_count rows).
Proof.
  unfold masked_row_count.
  induction rows as [|row rows IH]; cbn [map concat List.filter]; [done|].
  rewrite MetaArchProps.Qc_sum_app, IH.
  destruct (Nat.eqb_spec (row_sum row) 0) as [Hz|Hnz]; cbn [negb length].
  - rewrite Hz. cbn [replicate Qc_sum foldr]. ring.
  - unfold row_weight. rewrite clamp_min_count by lia.
    rewrite Qc_sum_reciprocal by lia. rewrite Qc_of_nat_S. ring.
Qed.

Section WithRandomSource.

Context {G : Type}.
Variable random : G -> Qc * G.
Variable randbelow : nat -> G -> nat * G.
Variable torch_rand : nat -> G -> list Qc * G.
Variable mask_generator : Z -> G -> grid * G.
Variable cfg : config.
Variable fr : front.

Abbreviation collate :=
  (collate_masks random randbelow torch_rand mask_generator cfg fr).

(** The collated mask is a matrix: all its rows have one width.  It has
    one row per mask generated by the two loops ([range(0, k)] and
    [range(k, B)] with [k = int(B * mask_probability)]), which is [B] rows
    for a probability between 0 and 1. *)
Theorem collated_mask_is_a_matrix g out :
  collate g = Ok out ->
  let k := n_samples_masked cfg fr in
  length (collated_masks out) =
    (Z.to_nat k + Z.to_nat (Z.of_nat (B fr) - k))%nat /\
  ((0 <= mask_probability cfg)%Qc -> (mask_probability cfg <= 1)%Qc ->
   length (collated_masks out) = B fr) /\
  exists W, Forall (fun row => length row = W) (collated_masks out) /\
            length (concat (collated_masks out)) =
              (length (collated_masks out) * W)%nat.
Proof.
  intros H k. apply collate_masks_inv in H
    as (st & ms & stacked & Hgen & Hsh & Hst & Hrows & _).
  apply generate_masks_inv in Hgen as (_ & drawn & rest & Hms & Hd & Hr & _).
  assert (Hlen_ms : length ms = (Z.to_nat k + Z.to_nat (Z.of_nat (B fr) - k))%nat).
  { transitivity (length (st_masks_list st)).
    - destruct (do_free_shapes cfg); [now subst|].
      destruct Hsh as [g' Hsh]. apply shuffle_Permutation in Hsh.
      now apply Permutation_length.
    - rewrite Hms, length_app. unfold k. lia. }
  destruct (stack_flatten_uniform _ _ Hst) as [W HW].
  apply stack_flatten_inv in Hst.
  assert (Hlen : length (collated_masks out) =
                 (Z.to_nat k + Z.to_nat (Z.of_nat (B fr) - k))%nat).
  { destruct (use_ch_patch_embed cfg).
    - destruct Hrows as (ch & _ & ->). unfold tile.
      now rewrite length_map, Hst, length_map.
    - now rewrite Hrows, Hst, length_map. }
  split; [exact Hlen|]. split.
  { intros H0 H1. rewrite Hlen.
    pose proof (n_samples_masked_bounds cfg fr H0 H1). unfold k. lia. }
  assert (HU : exists W', Forall (fun row => length row = W') (collated_masks out)).
  { destruct (use_ch_patch_embed cfg).
    - destruct Hrows as (ch & _ & ->). exists (ch * W)%nat. unfold tile.
      apply List.Forall_map. eapply List.Forall_impl; [|exact HW].
      cbn beta. intros row <-. apply length_tile_row.
    - rewrite Hrows. eauto. }
  destruct HU as [W' HW']. exists W'. split; [exact HW'|].
  now apply length_concat_uniform.
Qed.

(** When [int(B * mask_probability)] is 0 no row gets a drawn ratio: the
    collated mask is all-false, the index list and the weight vector are
    empty, and both the masked count and the upper bound are 0. *)
Theorem nothing_masked_when_no_row_is_drawn g out :
  (forall g, grid_all_false (mask_generator 0 g).1) ->
  n_samples_masked cfg fr = 0%Z ->
  collate g = Ok out ->
  Forall (Forall (eq false)) (collated_masks out) /\
  mask_indices_list out = [] /\
  masks_weight out = [] /\
  n_masked_patches out = 0%nat /\
  upperbound out = 0%Z.
Proof.
  intros Hzero Hk H.
  destruct (collated_rows_split _ _ _ _ _ _ _ _ Hzero H)
    as (drawn & rest & Hperm & Hd & _ & Hall).
  rewrite Hk in Hd. destruct drawn; [|discriminate]. cbn [app] in Hperm.
  assert (Hfalse : Forall (Forall (eq false)) (collated_masks out)).
  { eapply Permutation_Forall; [symmetry; exact Hperm | exact Hall]. }
  assert (Hsum : row_sum (concat (collated_masks out)) = 0%nat).
  { apply row_sum_all_false. apply Forall_concat. exact Hfalse. }
  apply collate_masks_inv in H
    as (st & ms & stacked & Hgen & _ & _ & _ & Hidx & Hw & Hn & Hub).
  apply generate_masks_inv in Hgen as [Hexp _].
  assert (Hi : mask_indices_list out = []).
  { apply nil_length_inv. rewrite Hidx. unfold nonzero.
    now rewrite length_nonzero_from. }
  split; [exact Hfalse|]. split; [exact Hi|]. split.
  { apply nil_length_inv. rewrite Hw, compute_masks_weight_rows, length_per_row.
    exact Hsum. }
  assert (Hn0 : n_masked_patches out = 0%nat) by now rewrite Hn, Hi.
  split; [exact Hn0|].
  rewrite Hub, Hexp, Hn0. unfold expected_max_masked. rewrite Hk. reflexivity.
Qed.

(** The weights of a batch sum to the number of rows that have a masked
    patch: every such row contributes a total weight of 1, whatever its
    number of masked patches, and the other rows contribute nothing. *)
Theorem masks_weight_total g out :
  collate g = Ok out ->
  Qc_sum (masks_weight out) = Qc_of_nat (masked_row_count (collated_masks out)).
Proof.
  intros H. apply collate_masks_inv in H
    as (st & ms & stacked & _ & _ & _ & _ & _ & Hw & _).
  rewrite Hw, compute_masks_weight_rows. apply masked_row_count_weight.
Qed.

Abbreviation unmasked := (unmasked_body mask_generator cfg fr).

Lemma unmasked_loop_free_shapes : forall idx st st',
  do_free_shapes cfg = true ->
  for_each unmasked st idx = Ok st' ->
  st_masks_list st' =
    st_masks_list st ++
    replicate (length idx) [replicate (gc_last_dim fr / patch_size cfg) false].
Proof.
  induction idx as [|i idx IH]; intros st st' Hfree H; cbn [for_each] in H.
  - injection H as <-. cbn. now rewrite app_nil_r.
  - bind_inv H st1 E1. rewrite (IH _ _ Hfree H).
    unfold unmasked_body in E1. rewrite Hfree in E1.
    bind_inv E1 n En. injection E1 as <-. cbn [st_masks_list].
    unfold crop_patches in En. bind_inv En d Ed.
    destruct (patch_size cfg =? 0)%nat; [discriminate|]. injection En as <-.
    rewrite <- app_assoc. reflexivity.
Qed.

(** With free shapes the masks are not shuffled: the rows with a drawn
    ratio are the first [k = int(B * mask_probability)] rows of the collated
    mask, in crop order, and every later row is an all-false row of
    [shape[-1] // patch_size] entries. *)
Theorem free_shapes_mask_the_first_rows g out :
  do_free_shapes cfg = true ->
  use_ch_patch_embed cfg = false ->
  collate g = Ok out ->
  let k := n_samples_masked cfg fr in
  exists drawn,
    length drawn = Z.to_nat k /\
    collated_masks out =
      drawn ++ replicate (Z.to_nat (Z.of_nat (B fr) - k))
                 (replicate (gc_last_dim fr / patch_size cfg) false).
Proof.
  intros Hfree Htile H k. apply collate_masks_inv in H
    as (st & ms & stacked & Hgen & Hsh & Hst & Hrows & _).
  rewrite Hfree in Hsh. rewrite Htile in Hrows. subst ms.
  apply stack_flatten_inv in Hst. rewrite Hrows, Hst. clear Hrows Hst.
  unfold generate_masks in Hgen.
  bind_inv Hgen probs Ep. bind_inv Hgen st1 E1.
  apply (unmasked_loop_free_shapes _ _ _ Hfree) in Hgen.
  apply (masked_loop_inv random torch_rand mask_generator cfg fr probs
           (upper_ratio cfg (n_samples_masked cfg fr)))
    in E1 as (_ & drawn & Hms1 & Hlen1).
  - cbn [st_masks_list app] in Hms1. rewrite Hgen, Hms1.
    unfold py_range in *. rewrite length_seqZ in *. rewrite Z.sub_0_r in Hlen1.
    exists (map (fun m : grid => concat m) drawn).
    rewrite length_map. split; [exact Hlen1|].
    rewrite map_app. f_equal. fold k.
    generalize (Z.to_nat (Z.of_nat (B fr) - k)). intros n.
    induction n as [|n IH]; cbn [replicate map]; [done|].
    rewrite IH. f_equal. cbn [concat]. apply app_nil_r.
  - unfold py_range. apply Forall_seqZ. intros i Hi.
    unfold upper_ratio. apply linspace_upper; [exact Ep | lia].
Qed.

Abbreviation generate := (generate_masks random torch_rand mask_generator).

Lemma tiling_needs_channel_count g out :
  collate g = Ok out -> c fr = None ->
  collate_masks random randbelow torch_rand mask_generator
    (with_ch_patch_embed true cfg) fr g = Raise UnboundLocalError.
Proof.
  intros H Hc. apply collate_masks_inv in H
    as (st & ms & stacked & Hgen & Hsh & Hst & _).
  unfold collate_masks, mbind, result_bind.
  change (generate (with_ch_patch_embed true cfg)) with (generate cfg).
  rewrite Hgen.
  change (do_free_shapes (with_ch_patch_embed true cfg)) with (do_free_shapes cfg).
  destruct (do_free_shapes cfg).
  - subst ms. rewrite Hst. cbn. now rewrite Hc.
  - destruct Hsh as [g' Hsh]. rewrite Hsh, Hst. cbn. now rewrite Hc.
Qed.

End WithRandomSource.

(** *** Lists of samples *)

Lemma mapM_result_lookup {A B} (f : A -> result B) l k i x :
  mapM f l = Ok k -> l !! i = Some x ->
  exists y, f x = Ok y /\ k !! i = Some y.
Proof.
  revert k i. induction l as [|a l IH]; intros k i H Hi; [discriminate|].
  cbn [mapM] in H. bind_inv H y Ey. bind_inv H k' Ek. injection H as <-.
  destruct i as [|i].
  - injection Hi as <-. eauto.
  - cbn in Hi. destruct (IH _ _ Ek Hi) as (z & Hz & Hk). eauto.
Qed.

Lemma mapM_result_Raise {A B} (f : A -> result B) l e :
  mapM f l = Raise e -> exists x, x ∈ l /\ f x = Raise e.
Proof.
  induction l as [|a l IH]; intros H; [discriminate|].
  cbn [mapM] in H. unfold mbind, result_bind in H.
  destruct (f a) as [y|e'] eqn:Ey.
  - destruct (mapM f l) as [k'|e'] eqn:Ek; [discriminate|].
    injection H as <-. destruct (IH eq_refl) as (x & Hx & Hfx).
    exists x. split; [now constructor|exact Hfx].
  - injection H as <-. exists a. split; [constructor|exact Ey].
Qed.

Lemma concat_uniform_lookup {A} (rows : list (list A)) n i j :
  Forall (fun r => length r = n) rows -> (j < n)%nat ->
  concat rows !! (i * n + j)%nat = rows !! i ≫= (fun r => r !! j).
Proof.
  intros Hall Hj. revert i. induction Hall as [|r rows Hr _ IH]; intros i.
  - now rewrite !lookup_nil.
  - cbn [concat]. destruct i as [|i].
    + cbn. rewrite lookup_app_l by lia. reflexivity.
    + rewrite lookup_app_r by (rewrite Hr; lia).
      replace (S i * n + j - length r)%nat with (i * n + j)%nat by (rewrite Hr; lia).
      apply IH.
Qed.

Section ListOfSamples.

Context {crop : Type}.
Variable crop_shape : crop -> list nat.

Lemma gather_lookup (key : sample -> list crop) n samples l i j s :
  gather key n samples = Ok l ->
  (i < n)%nat -> samples !! j = Some s ->
  exists x, key s !! i = Some x /\ l !! (i * length samples + j)%nat = Some x.
Proof.
  unfold gather, fmap, result_fmap. intros H Hi Hj.
  destruct (mapM _ (seq 0 n)) as [rows|] eqn:E; [|discriminate].
  injection H as <-.
  assert (Hrows : Forall (fun r : list crop => length r = length samples) rows).
  { eapply mapM_result_Forall; [|exact E]. cbn beta.
    intros i' row Hrow. now apply mapM_result_length in Hrow. }
  rewrite (concat_uniform_lookup rows (length samples) i j Hrows)
    by (apply lookup_lt_Some in Hj; exact Hj).
  destruct (mapM_result_lookup _ _ _ i i E) as (row & Hrow & Hri).
  { now apply lookup_seq_lt. }
  destruct (mapM_result_lookup _ _ _ j s Hrow Hj) as (x & Hx & Hrj).
  rewrite Hri. cbn. destruct (key s !! i) as [y|]; [|discriminate].
  injection Hx as <-. eauto.
Qed.

Lemma gather_raises_IndexError (key : sample -> list crop) n samples e :
  gather key n samples = Raise e -> e = IndexError.
Proof.
  unfold gather, fmap, result_fmap. intros H.
  destruct (mapM _ (seq 0 n)) as [rows|e'] eqn:E; [discriminate|].
  injection H as <-.
  apply mapM_result_Raise in E as (i & _ & E).
  apply mapM_result_Raise in E as (s & _ & E).
  destruct (key s !! i); [discriminate|]. now injection E.
Qed.

Lemma gather_short_sample (key : sample -> list crop) n samples s :
  s ∈ samples -> (length (key s) < n)%nat ->
  gather key n samples = Raise IndexError.
Proof.
  intros Hs Hlen. destruct (gather key n samples) as [l|e] eqn:E.
  - apply list_elem_of_lookup_1 in Hs as [j Hj].
    destruct (gather_lookup key n samples l (length (key s)) j s E Hlen Hj)
      as (x & Hx & _).
    apply lookup_lt_Some in Hx. lia.
  - apply gather_raises_IndexError in E. now subst.
Qed.

(** [collate_cpu] lays the crops out crop-major: position
    [i * len(samples) + j] of the global (local) output holds the [i]-th
    global (local) crop of sample [j], so the first [len(samples)] entries
    are the first crop of every sample, in sample order. *)
Theorem collate_cpu_is_crop_major samples gcs lcs :
  collate_cpu crop_shape samples = Ok (gcs, lcs) ->
  exists s0, head samples = Some s0 /\
    forall j s, samples !! j = Some s ->
      (forall i, (i < length (global_crops s0))%nat ->
         exists x, global_crops s !! i = Some x /\
                   gcs !! (i * length samples + j)%nat = Some x) /\
      (forall i, (i < length (local_crops s0))%nat ->
         exists x, local_crops s !! i = Some x /\
                   lcs !! (i * length samples + j)%nat = Some x).
Proof.
  unfold collate_cpu. destruct samples as [|s0 samples]; [discriminate|].
  destruct (match global_crops s0 with [] => _ | _ => _ end); [discriminate|].
  intros H. bind_inv H g0 Eg. bind_inv H l0 El.
  bind_inv H g1 Es. bind_inv H l1 Es'. injection H as <- <-.
  assert (g1 = g0) as ->.
  { unfold stack_crops in Es. destruct g0; [discriminate|].
    destruct (forallb _ _); [|discriminate]. now injection Es. }
  assert (l1 = l0) as ->.
  { unfold stack_crops in Es'. destruct l0; [discriminate|].
    destruct (forallb _ _); [|discriminate]. now injection Es'. }
  exists s0. split; [done|]. intros j s Hj. split; intros i Hi.
  - exact (gather_lookup _ _ _ _ i j s Eg Hi Hj).
  - exact (gather_lookup _ _ _ _ i j s El Hi Hj).
Qed.

(** A batch in which some sample has fewer global or fewer local crops
    than the first sample is refused with [IndexError] (the first sample's
    crops having the three dimensions that the unpacking of the shape asks
    for). *)
Theorem collate_cpu_ragged_batch samples s0 s :
  head samples = Some s0 ->
  match global_crops s0 with
  | x :: _ => length (crop_shape x) = 3%nat
  | [] => True
  end ->
  s ∈ samples ->
  (length (global_crops s) < length (global_crops s0))%nat \/
  (length (local_crops s) < length (local_crops s0))%nat ->
  collate_cpu crop_shape samples = Raise IndexError.
Proof.
  intros Hhead Hshape Hs Hshort. unfold collate_cpu.
  destruct samples as [|s0' samples]; [discriminate|]. injection Hhead as ->.
  destruct (match global_crops s0 with [] => _ | _ => _ end) eqn:Echeck.
  { destruct (global_crops s0) as [|x ?]; [discriminate|].
    rewrite Hshape in Echeck. discriminate. }
  destruct Hshort as [Hg|Hl].
  - now rewrite (gather_short_sample global_crops _ _ s Hs Hg).
  - destruct (gather global_crops _ _) as [g0|e] eqn:Eg.
    + cbn. now rewrite (gather_short_sample local_crops _ _ s Hs Hl).
    + apply gather_raises_IndexError in Eg. now subst.
Qed.

Context {G : Type}.
Variable random : G -> Qc * G.
Variable randbelow : nat -> G -> nat * G.
Variable torch_rand : nat -> G -> list Qc * G.
Variable mask_generator : Z -> G -> grid * G.

(** On a list of samples the channel count [c] is never assigned: a batch
    that collates without [use_ch_patch_embed] raises [UnboundLocalError]
    with it, at the tiling of the collated mask. *)
Theorem ch_patch_embed_unbound_on_list_batch cfg samples g r :
  collate_data_and_cast crop_shape random randbelow torch_rand mask_generator
    cfg samples g = Ok r ->
  collate_data_and_cast crop_shape random randbelow torch_rand mask_generator
    (with_ch_patch_embed true cfg) samples g = Raise UnboundLocalError.
Proof.
  unfold collate_data_and_cast. intros H.
  bind_inv H gl Ecpu. destruct gl as [gcs lcs]. cbn zeta in *.
  bind_inv H out Eout. clear H.
  unfold mbind at 1. unfold result_bind at 1. cbv beta iota zeta.
  now rewrite (tiling_needs_channel_count random randbelow torch_rand
                 mask_generator cfg _ g out Eout eq_refl).
Qed.

End ListOfSamples.

(** *** The properties on concrete batches *)

Import CollateDemo CollateScenarios.

Lemma collated_mask_is_a_matrix_witness :
  exists out,
    collate_masks random randbelow torch_rand mask_generator cfg front8 0%nat
      = Ok out /\
    let k := n_samples_masked cfg front8 in
    length (collated_masks out) =
      (Z.to_nat k + Z.to_nat (Z.of_nat (B front8) - k))%nat /\
    ((0 <= mask_probability cfg)%Qc -> (mask_probability cfg <= 1)%Qc ->
     length (collated_masks out) = B front8) /\
    exists W, Forall (fun row => length row = W) (collated_masks out) /\
              length (concat (collated_masks out)) =
                (length (collated_masks out) * W)%nat.
Proof.
  eexists. split; [vm_compute; reflexivity|].
  apply (collated_mask_is_a_matrix random randbelow torch_rand mask_generator
           cfg front8 0%nat).
  vm_compute. reflexivity.
Defined.

Lemma nothing_masked_when_no_row_is_drawn_witness :
  exists out,
    (forall g, grid_all_false (mask_generator 0 g).1) /\
    n_samples_masked cfg_rare front8 = 0%Z /\
    collate_masks random randbelow torch_rand mask_generator cfg_rare front8 0%nat
      = Ok out /\
    Forall (Forall (eq false)) (collated_masks out) /\
    mask_indices_list out = [] /\
    masks_weight out = [] /\
    n_masked_patches out = 0%nat /\
    upperbound out = 0%Z.
Proof.
  eexists. split; [exact demo_generator_zero|].
  split; [vm_compute; reflexivity|].
  split; [vm_compute; reflexivity|].
  apply (nothing_masked_when_no_row_is_drawn random randbelow torch_rand
           mask_generator cfg_rare front8 0%nat).
  - exact demo_generator_zero.
  - vm_compute. reflexivity.
  - vm_compute. reflexivity.
Defined.

Lemma masks_weight_total_witness :
  exists out,
    collate_masks random randbelow torch_rand mask_generator cfg front8 0%nat
      = Ok out /\
    Qc_sum (masks_weight out) = Qc_of_nat (masked_row_count (collated_masks out)).
Proof.
  eexists. split; [vm_compute; reflexivity|].
  apply (masks_weight_total random randbelow torch_rand mask_generator
           cfg front8 0%nat).
  vm_compute. reflexivity.
Defined.

Lemma free_shapes_mask_the_first_rows_witness :
  exists out,
    do_free_shapes cfg_free_plain = true /\
    use_ch_patch_embed cfg_free_plain = false /\
    collate_masks random randbelow torch_rand mask_generator cfg_free_plain
      front8 0%nat = Ok out /\
    let k := n_samples_masked cfg_free_plain front8 in
    exists drawn,
      length drawn = Z.to_nat k /\
      collated_masks out =
        drawn ++ replicate (Z.to_nat (Z.of_nat (B front8) - k))
                   (replicate (gc_last_dim front8 / patch_size cfg_free_plain)
                      false).
Proof.
  eexists. split; [reflexivity|]. split; [reflexivity|].
  split; [vm_compute; reflexivity|].
  apply (free_shapes_mask_the_first_rows random randbelow torch_rand
           mask_generator cfg_free_plain front8 0%nat).
  - reflexivity.
  - reflexivity.
  - vm_compute. reflexivity.
Defined.

Lemma collate_cpu_is_crop_major_witness :
  exists gcs lcs,
    collate_cpu id four_samples = Ok (gcs, lcs) /\
    exists s0, head four_samples = Some s0 /\
      forall j s, four_samples !! j = Some s ->
        (forall i, (i < length (global_crops s0))%nat ->
           exists x, global_crops s !! i = Some x /\
                     gcs !! (i * length four_samples + j)%nat = Some x) /\
        (forall i, (i < length (local_crops s0))%nat ->
           exists x, local_crops s !! i = Some x /\
                     lcs !! (i * length four_samples + j)%nat = Some x).
Proof.
  eexists. eexists. split; [vm_compute; reflexivity|].
  apply (collate_cpu_is_crop_major id four_samples).
  vm_compute. reflexivity.
Defined.

Lemma collate_cpu_ragged_batch_witness :
  head ragged_samples = Some a_sample /\
  short_sample ∈ ragged_samples /\
  (length (global_crops short_sample) < length (global_crops a_sample))%nat /\
  collate_cpu id ragged_samples = Raise IndexError.
Proof.
  assert (Hin : short_sample ∈ ragged_samples)
    by (apply list_elem_of_further, list_elem_of_here).
  assert (Hlen : (length (global_crops short_sample)
                  < length (global_crops a_sample))%nat) by (cbn; lia).
  split; [reflexivity|]. split; [exact Hin|]. split; [exact Hlen|].
  apply (collate_cpu_ragged_batch id ragged_samples a_sample short_sample).
  - reflexivity.
  - reflexivity.
  - exact Hin.
  - left. exact Hlen.
Defined.

Lemma ch_patch_embed_unbound_on_list_batch_witness :
  exists r,
    collate_data_and_cast id random randbelow torch_rand mask_generator cfg
      four_samples 0%nat = Ok r /\
    collate_data_and_cast id random randbelow torch_rand mask_generator
      (with_ch_patch_embed true cfg) four_samples 0%nat
      = Raise UnboundLocalError.
Proof.
  eexists. split; [vm_compute; reflexivity|].
  eapply (ch_patch_embed_unbound_on_list_batch id random randbelow torch_rand
            mask_generator cfg four_samples 0%nat).
  vm_compute. reflexivity.
Defined.

End CollateMore.

Module MetaArchMore.
Import Collate MetaArch CollateProps MetaArchProps MetaArchSpec.

Lemma Qc_ltb_true x y : Qc_ltb x y = true <-> (x < y)%Qc.
Proof. unfold Qc_ltb. apply bool_decide_eq_true. Qed.

Lemma Qc_ltb_false x y : Qc_ltb x y = false <-> (y <= x)%Qc.
Proof.
  unfold Qc_ltb. rewrite bool_decide_eq_false. split.
  - apply Qcnot_lt_le.
  - apply Qcle_not_lt.
Qed.

(** What a constructed architecture looks like: the three switches are
    the signs of the loss weights, the DINO head exists exactly when the DINO
    loss is on, a separate iBOT head exactly when the iBOT loss is on and
    asks for one, and the iBOT loss is never on without the DINO loss, a
    positive mask ratio and a positive mask probability. *)
Theorem init_invariants c self :
  init c = Ok self ->
  the_cfg self = c /\
  (do_dino self = true <-> (0 < dino_loss_weight c)%Qc) /\
  (do_koleo self = true <-> (0 < koleo_loss_weight c)%Qc) /\
  (do_ibot self = true <-> (0 < ibot_loss_weight c)%Qc) /\
  has_dino_head self = do_dino self /\
  has_ibot_head self = do_ibot self && ibot_separate_head c /\
  (do_ibot self = true ->
   do_dino self = true /\
   ((0 < (mask_ratio_min_max c).1)%Qc \/ (0 < (mask_ratio_min_max c).2)%Qc) /\
   (0 < mask_sample_probability c)%Qc).
Proof.
  unfold init. intros H. bind_inv H h1 E1. bind_inv H h2 E2.
  injection H as <-. cbn [the_cfg do_dino do_koleo do_ibot has_dino_head
                          has_ibot_head].
  split; [done|]. rewrite !Qc_ltb_true. do 3 (split; [done|]).
  destruct (Qc_ltb 0 (dino_loss_weight c)) eqn:Hd,
           (Qc_ltb 0 (ibot_loss_weight c)) eqn:Hi; cbn in E1, E2;
    try discriminate; injection E1 as <-.
  - destruct (Qc_ltb 0 (Qc_max _ _)) eqn:Hr; [|discriminate]. cbn in E2.
    destruct (Qc_ltb 0 (mask_sample_probability c)) eqn:Hp; [|discriminate].
    injection E2 as <-. split; [reflexivity|]. split; [reflexivity|].
    intros _. split; [now apply Qc_ltb_true|]. split.
    + unfold Qc_max in Hr. apply Qc_ltb_true in Hr.
      destruct (Qc_ltb (mask_ratio_min_max c).1 (mask_ratio_min_max c).2); auto.
    + now apply Qc_ltb_true.
  - injection E2 as <-. split; [reflexivity|]. split; [reflexivity|].
    intros Hlt. apply Qc_ltb_true in Hlt. congruence.
  - injection E2 as <-. split; [reflexivity|]. split; [reflexivity|].
    intros Hlt. apply Qc_ltb_true in Hlt. congruence.
Qed.

(** An iBOT loss without the DINO loss cannot be constructed: the DINO
    head, which the iBOT branch needs as well, is only bound when the DINO
    loss is on. *)
Theorem ibot_without_dino_is_unbound c :
  (dino_loss_weight c <= 0)%Qc -> (0 < ibot_loss_weight c)%Qc ->
  init c = Raise UnboundLocalError.
Proof.
  intros Hd Hi. unfold init.
  apply Qc_ltb_false in Hd. apply Qc_ltb_true in Hi. now rewrite Hd, Hi.
Qed.

(** *** The training step *)

(** Case analysis on a run of [forward_backward] whose teacher part has
    been set aside. *)
Ltac step_cases H :=
  unfold mbind, M_bind, emit, lift, raise, lift, mret, M_ret in H;
  repeat (first
    [ rewrite split_packed_head in H
    | progress unfold from_tensor_list in H
    | progress cbn [negb andb map app pop0 fst snd] in H
    | progress cbv beta iota zeta in H
    | match type of H with
      | context [if ?b then _ else _] => destruct b eqn:?
      | context [match ?x with Ok _ => _ | Raise _ => _ end] =>
          destruct x eqn:?
      end
    | discriminate H ]).

Lemma teacher_event_side e : teacher_event e = true -> teacher_side_event e = true.
Proof. now destruct e. Qed.

Lemma forallb_teacher_side evs :
  forallb teacher_event evs = true -> forallb teacher_side_event evs = true.
Proof.
  induction evs as [|e evs IH]; [done|]. cbn [forallb].
  intros [He Hevs]%andb_prop. rewrite (teacher_event_side e He). now apply IH.
Qed.

Section StepMore.

Context {crop : Type}.
Variable net : networks crop.
Variable self : SSLMetaArch.

Lemma get_teacher_output_log im temp log log1 r :
  get_teacher_output net self im temp log = (log1, r) ->
  exists evs, log1 = log ++ evs /\ forallb teacher_side_event evs = true.
Proof.
  unfold get_teacher_output. unfold mbind at 1, M_bind at 1.
  destruct (teacher_tokens_after_head net self im log) as [l r0] eqn:Et.
  destruct (teacher_tokens_after_head_log net self im log l r0 Et)
    as (evs & -> & Hevs%forallb_teacher_side).
  destruct r0 as [[a b]|e].
  - unfold mbind, M_bind, emit, lift, raise, lift, mret, M_ret.
    repeat match goal with
           | |- context [if ?b then _ else _] => destruct b
           | |- context [match view ?n ?x with _ => _ end] =>
               destruct (view n x)
           end;
      intros [= <- <-]; rewrite <- ?app_assoc;
      (eexists; split; [reflexivity|]);
      first [exact Hevs | rewrite forallb_app, Hevs; reflexivity].
  - intros [= <- <-]. eauto.
Qed.

(** A successful step logs, in this order: the teacher's forwards and
    centre updates, the reshard of the teacher, the student backbone, one or
    two student heads, one backward pass, the stream synchronisation. *)
Theorem successful_step_event_order im temp log log' d :
  forward_backward net self im temp log = (log', Ok d) ->
  exists tev sev L,
    log' = log ++ tev ++ [ReshardTeacher; StudentBackboneForward] ++ sev
               ++ [Backward L; SynchronizeStreams] /\
    forallb teacher_side_event tev = true /\
    (sev = [StudentHeadForward] \/
     sev = [StudentHeadForward; StudentHeadForward]).
Proof.
  intros H. unfold forward_backward in H.
  unfold mbind at 1, M_bind at 1 in H.
  destruct (get_teacher_output net self im temp log) as [log1 [[T masked]|e]]
    eqn:Ht; [|discriminate H].
  destruct (get_teacher_output_log _ _ _ _ _ Ht) as (tev & -> & Htev).
  destruct (student_backbone net _ _ _) as [[g_cls g_patches] l_cls].
  step_cases H.
  all: injection H as <- _.
  all: exists tev; rewrite <- ?app_assoc; cbn [app].
  all: first [ exists [StudentHeadForward]; eexists;
               split; [reflexivity|]; split; [exact Htev | now left]
             | exists [StudentHeadForward; StudentHeadForward]; eexists;
               split; [reflexivity|]; split; [exact Htev | now right] ].
Qed.


(** The keys of the returned mapping depend on the configuration only:
    the local-crops entry when there are local crops, the global-crops entry
    (and the KoLeo entry when that is on) when the DINO loss is on, the iBOT
    entry when the iBOT loss is on, in this order. *)
Theorem loss_dict_keys im temp log log' d :
  forward_backward net self im temp log = (log', Ok d) ->
  map fst d = expected_keys self.
Proof.
  intros H. unfold forward_backward in H.
  unfold mbind at 1, M_bind at 1 in H.
  destruct (get_teacher_output net self im temp log) as [log1 [[T masked]|e]];
    [|discriminate H].
  destruct (student_backbone net _ _ _) as [[g_cls g_patches] l_cls].
  unfold expected_keys.
  destruct (do_ibot self) eqn:Hibot, (do_dino self) eqn:Hdino,
           (do_koleo self) eqn:Hkoleo,
           (0 <? local_crops_number (the_cfg self))%nat eqn:Hloc.
  all: step_cases H.
  all: injection H as _ <-; reflexivity.
Qed.

Lemma backprop_weight_local c :
  backprop_weight c "dino_local_crops_loss" = dino_loss_weight c.
Proof. reflexivity. Qed.

Lemma backprop_weight_global c :
  backprop_weight c "dino_global_crops_loss" = dino_loss_weight c.
Proof. reflexivity. Qed.

Lemma backprop_weight_koleo c : backprop_weight c "koleo_loss" = loss_scales.
Proof. reflexivity. Qed.

Lemma backprop_weight_ibot c :
  backprop_weight c "ibot_loss" = (ibot_loss_weight c * Qc_of_nat 2)%Qc.
Proof. reflexivity. Qed.

Lemma Qc_two_neq_0 : (1 + 1)%Qc <> 0%Qc.
Proof. intros H. apply (f_equal this) in H. vm_compute in H. discriminate H. Qed.

(** The scalar that is backpropagated is the weighted sum of the displayed
    losses: the two DINO entries weighted by [dino.loss_weight], the KoLeo
    entry (stored divided by 2, its weight already applied) by 2, the iBOT
    entry (stored divided by 2) by twice [ibot.loss_weight]. *)
Theorem backward_loss_is_weighted_sum im temp log log' d :
  forward_backward net self im temp log = (log', Ok d) ->
  exists pre,
    log' = pre ++ [Backward (Qc_sum (map (fun kv =>
                      (backprop_weight (the_cfg self) kv.1 * kv.2)%Qc) d));
                   SynchronizeStreams].
Proof.
  intros H. unfold forward_backward in H.
  unfold mbind at 1, M_bind at 1 in H.
  destruct (get_teacher_output net self im temp log) as [log1 [[T masked]|e]];
    [|discriminate H].
  destruct (student_backbone net _ _ _) as [[g_cls g_patches] l_cls].
  step_cases H.
  all: injection H as <- <-.
  all: eexists; rewrite <- (app_assoc _ [Backward _] [SynchronizeStreams]);
       cbn [app]; f_equal; f_equal; f_equal.
  all: cbn [map Qc_sum foldr fst snd app].
  all: rewrite ?backprop_weight_local, ?backprop_weight_global,
         ?backprop_weight_koleo, ?backprop_weight_ibot.
  all: unfold loss_scales, ibot_loss_scale, n_global_crops;
       rewrite ?Qc_of_nat_2.
  all: first [ring | field; apply Qc_two_neq_0].
Qed.

Lemma ibot_scale_cancel (x : Qc) :
  (x * loss_scales * ibot_loss_scale / Qc_of_nat 2 = x / Qc_of_nat 2)%Qc.
Proof.
  unfold loss_scales, ibot_loss_scale, n_global_crops. rewrite Qc_of_nat_2.
  field. apply Qc_two_neq_0.
Qed.

Lemma index_select_length {A} (x : list A) idx sel :
  index_select x idx = Ok sel -> length sel = length idx.
Proof. apply mapM_result_length. Qed.

Lemma take_head_of_buffer {A B} (h : A -> B) n (sel pad : list A) :
  length sel = n -> take n (map h (sel ++ pad)) = map h sel.
Proof.
  intros <-. rewrite map_app. rewrite <- (length_map h sel) at 1.
  apply take_app_length.
Qed.

(** The student tokens handed to the iBOT loss are the head's outputs for
    the selected masked patch tokens and nothing else: the zero rows that
    pad the buffer up to [upperbound] are cut off before the loss.  The
    displayed value is half of what [forward_masked] returns. *)
Theorem ibot_loss_ignores_buffer_padding im temp log log' d :
  forward_backward net self im temp log = (log', Ok d) ->
  do_ibot self = true ->
  exists selected log1 T masked,
    index_select
      (student_backbone net (collated_global_crops im)
         (MetaArch.collated_masks im) (collated_local_crops im)).1.2
      (MetaArch.mask_indices_list im) = Ok selected /\
    get_teacher_output net self im temp log = (log1, Ok (T, masked)) /\
    ("ibot_loss"%string,
     (ibot_forward_masked net
        (map (if ibot_separate_head (the_cfg self)
              then student_ibot_head net else student_dino_head net) selected)
        (default [] masked) (MetaArch.collated_masks im)
        (length (MetaArch.mask_indices_list im)) (MetaArch.masks_weight im)
      / Qc_of_nat 2)%Qc) ∈ d.
Proof.
  intros H Hibot. unfold forward_backward in H.
  unfold mbind at 1, M_bind at 1 in H.
  destruct (get_teacher_output net self im temp log) as [log1 [[T masked]|e]];
    [|discriminate H].
  destruct (student_backbone net _ _ _) as [[g_cls g_patches] l_cls].
  cbn [fst snd]. rewrite Hibot in H.
  destruct (index_select g_patches (MetaArch.mask_indices_list im))
    as [selected|e] eqn:Hsel.
  2: { step_cases H. }
  pose proof (index_select_length _ _ _ Hsel) as Hlen.
  exists selected, log1, T, masked. split; [reflexivity|]. split; [reflexivity|].
  unfold fill_buffer in H.
  destruct (ibot_separate_head (the_cfg self)) eqn:Hsep.
  all: step_cases H.
  all: rewrite ?ibot_scale_cancel in H.
  all: cbn [default from_option id] in H.
  all: rewrite (take_head_of_buffer _ _ _ _ Hlen) in H.
  all: injection H as _ <-.
  all: rewrite ?elem_of_app, ?elem_of_cons; auto 10.
Qed.

End StepMore.

(** *** Steps that cannot succeed, and the buffers of a collated batch *)



Lemma index_select_nonzero {A} (ms : list bool) : forall (pre x : list A),
  length x = length ms ->
  index_select (pre ++ x) (nonzero_from (length pre) ms)
  = Ok (masked_select x ms).
Proof.
  unfold index_select.
  induction ms as [|b ms IH]; intros pre [|a x] Hlen; try discriminate;
    [reflexivity|].
  cbn [nonzero_from masked_select].
  assert (Hnext : mapM (M := result)
            (fun i => match (pre ++ a :: x) !! i with
                      | Some r => Ok r
                      | None => Raise IndexError
                      end) (nonzero_from (S (length pre)) ms)
          = Ok (masked_select x ms)).
  { specialize (IH (pre ++ [a]) x). rewrite <- app_assoc in IH. cbn [app] in IH.
    rewrite length_app in IH. cbn [length] in IH.
    rewrite Nat.add_1_r in IH. apply IH. now injection Hlen. }
  destruct b; [|exact Hnext].
  cbn [mapM]. rewrite Hnext.
  rewrite lookup_app_r by lia. rewrite Nat.sub_diag. reflexivity.
Qed.

Section Buffers.

Context {crop : Type} {G : Type}.
Variable net : networks crop.
Variable random : G -> Qc * G.
Variable randbelow : nat -> G -> nat * G.
Variable torch_rand : nat -> G -> list Qc * G.
Variable mask_generator : Z -> G -> grid * G.
Variable ccfg : config.
Variable fr : front.

(** What the collation returns always fits what the training step does
    with it.  On patch tokens that have one row per mask entry, the gather
    by [mask_indices_list] succeeds and selects the tokens at the true mask
    positions, [n_masked_patches] of them; the buffer of [upperbound] rows
    can hold them, and its first [n_masked_patches] rows are the selected
    tokens. *)
Theorem collated_batch_fits_the_buffer g out (patch_tokens : rows) :
  collate_masks random randbelow torch_rand mask_generator ccfg fr g = Ok out ->
  length patch_tokens = length (concat (Collate.collated_masks out)) ->
  exists selected buffer,
    index_select patch_tokens (Collate.mask_indices_list out) = Ok selected /\
    selected = masked_select patch_tokens (concat (Collate.collated_masks out)) /\
    length selected = n_masked_patches out /\
    fill_buffer net (Collate.upperbound out) selected = Ok buffer /\
    length buffer = Z.to_nat (Collate.upperbound out) /\
    take (n_masked_patches out) buffer = selected.
Proof.
  intros H Hlen. apply collate_masks_inv in H
    as (st & ms & stacked & _ & _ & _ & _ & Hidx & _ & Hn & Hub).
  set (flat := concat (Collate.collated_masks out)) in *.
  assert (Hcount : n_masked_patches out = row_sum flat).
  { rewrite Hn, Hidx. apply length_nonzero_from. }
  assert (Hsel : length (masked_select patch_tokens flat) = n_masked_patches out).
  { rewrite Hcount. now apply length_masked_select. }
  exists (masked_select patch_tokens flat).
  exists (masked_select patch_tokens flat ++
          zeros net (Z.to_nat (Collate.upperbound out) - n_masked_patches out)).
  split.
  { rewrite Hidx. exact (index_select_nonzero flat [] patch_tokens Hlen). }
  split; [reflexivity|]. split; [exact Hsel|]. split.
  { unfold fill_buffer. rewrite Hsel.
    destruct (Z.ltb_spec (Collate.upperbound out) (Z.of_nat (n_masked_patches out)));
      [lia | reflexivity]. }
  split.
  - rewrite length_app, Hsel. unfold zeros. rewrite length_replicate. lia.
  - rewrite <- Hsel. apply take_app_length.
Qed.

End Buffers.

(** *** The properties on concrete inputs *)

Import MetaArchDemo MetaArchScenarios.

Lemma init_invariants_witness :
  init ibot_cfg = Ok ibot_arch /\
  the_cfg ibot_arch = ibot_cfg /\
  (do_dino ibot_arch = true <-> (0 < dino_loss_weight ibot_cfg)%Qc) /\
  (do_koleo ibot_arch = true <-> (0 < koleo_loss_weight ibot_cfg)%Qc) /\
  (do_ibot ibot_arch = true <-> (0 < ibot_loss_weight ibot_cfg)%Qc) /\
  has_dino_head ibot_arch = do_dino ibot_arch /\
  has_ibot_head ibot_arch = do_ibot ibot_arch && ibot_separate_head ibot_cfg /\
  (do_ibot ibot_arch = true ->
   do_dino ibot_arch = true /\
   ((0 < (mask_ratio_min_max ibot_cfg).1)%Qc \/
    (0 < (mask_ratio_min_max ibot_cfg).2)%Qc) /\
   (0 < mask_sample_probability ibot_cfg)%Qc).
Proof.
  assert (H : init ibot_cfg = Ok ibot_arch) by (vm_compute; reflexivity).
  split; [exact H|]. exact (init_invariants ibot_cfg ibot_arch H).
Defined.

Lemma ibot_without_dino_is_unbound_witness :
  (dino_loss_weight ibot_only_cfg <= 0)%Qc /\
  (0 < ibot_loss_weight ibot_only_cfg)%Qc /\
  init ibot_only_cfg = Raise UnboundLocalError.
Proof.
  assert (H1 : (dino_loss_weight ibot_only_cfg <= 0)%Qc)
    by (vm_compute; discriminate).
  assert (H2 : (0 < ibot_loss_weight ibot_only_cfg)%Qc)
    by (vm_compute; reflexivity).
  split; [exact H1|]. split; [exact H2|].
  exact (ibot_without_dino_is_unbound ibot_only_cfg H1 H2).
Defined.

Lemma successful_step_event_order_witness :
  exists log' d,
    forward_backward net ibot_arch batch 1%Qc [] = (log', Ok d) /\
    exists tev sev L,
      log' = [] ++ tev ++ [ReshardTeacher; StudentBackboneForward] ++ sev
                ++ [Backward L; SynchronizeStreams] /\
      forallb teacher_side_event tev = true /\
      (sev = [StudentHeadForward] \/
       sev = [StudentHeadForward; StudentHeadForward]).
Proof.
  eexists. eexists. split; [vm_compute; reflexivity|].
  eapply (successful_step_event_order net ibot_arch batch 1%Qc []).
  vm_compute. reflexivity.
Defined.


Lemma loss_dict_keys_witness :
  exists log' d,
    forward_backward net ibot_arch batch 1%Qc [] = (log', Ok d) /\
    map fst d = expected_keys ibot_arch.
Proof.
  eexists. eexists. split; [vm_compute; reflexivity|].
  eapply (loss_dict_keys net ibot_arch batch 1%Qc []).
  vm_compute. reflexivity.
Defined.

Lemma backward_loss_is_weighted_sum_witness :
  exists log' d,
    forward_backward net ibot_arch batch 1%Qc [] = (log', Ok d) /\
    exists pre,
      log' = pre ++ [Backward (Qc_sum (map (fun kv =>
                        (backprop_weight (the_cfg ibot_arch) kv.1 * kv.2)%Qc) d));
                     SynchronizeStreams].
Proof.
  eexists. eexists. split; [vm_compute; reflexivity|].
  eapply (backward_loss_is_weighted_sum net ibot_arch batch 1%Qc []).
  vm_compute. reflexivity.
Defined.

Lemma ibot_loss_ignores_buffer_padding_witness :
  exists log' d,
    forward_backward net ibot_arch batch 1%Qc [] = (log', Ok d) /\
    do_ibot ibot_arch = true /\
    exists selected log1 T masked,
      index_select
        (student_backbone net (collated_global_crops batch)
           (MetaArch.collated_masks batch) (collated_local_crops batch)).1.2
        (MetaArch.mask_indices_list batch) = Ok selected /\
      get_teacher_output net ibot_arch batch 1%Qc [] = (log1, Ok (T, masked)) /\
      ("ibot_loss"%string,
       (ibot_forward_masked net
          (map (if ibot_separate_head (the_cfg ibot_arch)
                then student_ibot_head net else student_dino_head net) selected)
          (default [] masked) (MetaArch.collated_masks batch)
          (length (MetaArch.mask_indices_list batch)) (MetaArch.masks_weight batch)
        / Qc_of_nat 2)%Qc) ∈ d.
Proof.
  eexists. eexists. split; [vm_compute; reflexivity|].
  split; [reflexivity|].
  eapply (ibot_loss_ignores_buffer_padding net ibot_arch batch 1%Qc []).
  - vm_compute. reflexivity.
  - reflexivity.
Defined.


Lemma collated_batch_fits_the_buffer_witness :
  exists out,
    collate_masks CollateDemo.random CollateDemo.randbelow CollateDemo.torch_rand
      CollateDemo.mask_generator CollateDemo.cfg CollateDemo.front8 0%nat
      = Ok out /\
    length CollateScenarios.patch_tokens
      = length (concat (Collate.collated_masks out)) /\
    exists selected buffer,
      index_select CollateScenarios.patch_tokens (Collate.mask_indices_list out)
        = Ok selected /\
      selected = masked_select CollateScenarios.patch_tokens
                   (concat (Collate.collated_masks out)) /\
      length selected = n_masked_patches out /\
      fill_buffer net (Collate.upperbound out) selected = Ok buffer /\
      length buffer = Z.to_nat (Collate.upperbound out) /\
      take (n_masked_patches out) buffer = selected.
Proof.
  eexists. split; [vm_compute; reflexivity|].
  split; [vm_compute; reflexivity|].
  apply (collated_batch_fits_the_buffer net CollateDemo.random
           CollateDemo.randbelow CollateDemo.torch_rand
           CollateDemo.mask_generator CollateDemo.cfg CollateDemo.front8 0%nat).
  - vm_compute. reflexivity.
  - vm_compute. reflexivity.
Defined.

End MetaArchMore.

Module EmaMore.
Import Ema EmaProps EmaSpec.

Section Scalars.

Context {T : Type}.
Variables (mul add sub : T -> T -> T) (one : T).

(** *** Shapes and autograd attributes are preserved *)

Lemma same_signature_insert (s : gmap nat (tensor T)) r t t' :
  s !! r = Some t -> signature t' = signature t ->
  same_signature s (<[r := t']> s).
Proof.
  intros Hr Hsig r'. destruct (decide (r' = r)) as [->|Hne].
  - rewrite lookup_insert_eq, Hr. cbn. now rewrite Hsig.
  - now rewrite lookup_insert_ne.
Qed.

Lemma same_signature_trans (s1 s2 s3 : gmap nat (tensor T)) :
  same_signature s1 s2 -> same_signature s2 s3 -> same_signature s1 s3.
Proof. intros H12 H23 r. now rewrite H23, H12. Qed.

Lemma foreach_mul_signature m : forall tensors (s s' : gmap nat (tensor T)),
  foreach_mul_ mul false tensors m s = Ok s' -> same_signature s s'.
Proof.
  induction tensors as [|r tensors IH]; intros s s' H; cbn [foreach_mul_] in H.
  - now injection H as <-.
  - destruct (s !! r) as [t|] eqn:Er; [|discriminate].
    rewrite inplace_no_grad in H. cbn in H.
    eapply same_signature_trans; [|exact (IH _ _ H)].
    apply (same_signature_insert s r t); [exact Er|].
    unfold signature. cbn. now rewrite length_map.
Qed.

Lemma foreach_add_loop_signature alpha :
  forall pairs (s s' : gmap nat (tensor T)),
  foreach_add_loop mul add false pairs alpha s = Ok s' -> same_signature s s'.
Proof.
  induction pairs as [|[r o] pairs IH]; intros s s' H;
    cbn [foreach_add_loop] in H.
  - now injection H as <-.
  - destruct (s !! r) as [t|] eqn:Er; [|discriminate].
    destruct (s !! o) as [x|] eqn:Eo; [|discriminate].
    case_bool_decide as Hlen; [|discriminate].
    rewrite inplace_no_grad in H. cbn in H.
    eapply same_signature_trans; [|exact (IH _ _ H)].
    apply (same_signature_insert s r t); [exact Er|].
    unfold signature, add_alpha. cbn. rewrite length_zip_with. f_equal. f_equal. lia.
Qed.

(** Whatever the student and the teacher are, a successful update changes
    no tensor's number of elements and no autograd attribute, adds no
    parameter and removes none, and restores the gradient mode. *)
Theorem update_teacher_keeps_signatures student teacher m (st st' : state T) :
  update_teacher mul add sub one student teacher m st = Ok st' ->
  grad_enabled st' = grad_enabled st /\
  forall r, signature <$> params st' !! r = signature <$> params st !! r.
Proof.
  unfold update_teacher. intros H.
  bind_inv H p Ep. destruct p as [sl tl].
  bind_inv H s1 E1. bind_inv H s2 E2. injection H as <-.
  cbn [grad_enabled params]. split; [done|].
  apply foreach_mul_signature in E1.
  unfold foreach_add_ in E2. case_bool_decide; [|discriminate].
  apply foreach_add_loop_signature in E2.
  exact (same_signature_trans _ _ _ E1 E2).
Qed.

(** *** The update at the ends of the momentum range and at a fixed point *)

Lemma foreach_add_loop_lengths alpha :
  forall pairs (s s' : gmap nat (tensor T)),
  NoDup (pairs.*1) ->
  (forall o, o ∈ pairs.*2 -> o ∉ pairs.*1) ->
  foreach_add_loop mul add false pairs alpha s = Ok s' ->
  forall r o, (r, o) ∈ pairs ->
    exists t x, s !! r = Some t /\ s !! o = Some x /\
                length (data t) = length (data x).
Proof.
  induction pairs as [|[r0 o0] pairs IH]; intros s s' Hnd Hdisj H r o Hr;
    cbn [foreach_add_loop] in H.
  - now apply elem_of_nil in Hr.
  - cbn [fmap list_fmap fst snd] in Hnd, Hdisj.
    apply NoDup_cons in Hnd as [Hr0 Hnd].
    destruct (s !! r0) as [t0|] eqn:E0; [|discriminate].
    destruct (s !! o0) as [x0|] eqn:Eo; [|discriminate].
    case_bool_decide as Hlen; [|discriminate].
    rewrite inplace_no_grad in H. cbn in H.
    apply elem_of_cons in Hr as [[= -> ->]|Hr]; [eauto|].
    assert (Hdisj' : forall o, o ∈ pairs.*2 -> o ∉ pairs.*1).
    { intros o' Ho Hin. apply (Hdisj o'); [now right | now right]. }
    destruct (IH _ _ Hnd Hdisj' H r o Hr) as (t & x & Ht & Hx & Hl).
    assert (Hrin : r ∈ pairs.*1).
    { apply list_elem_of_fmap. now exists (r, o). }
    assert (Hoin : o ∈ pairs.*2).
    { apply list_elem_of_fmap. now exists (r, o). }
    assert (r <> r0) by (intros ->; contradiction).
    assert (o <> r0).
    { intros ->. apply (Hdisj r0); [now right | now left]. }
    rewrite lookup_insert_ne in Ht by done.
    rewrite lookup_insert_ne in Hx by done.
    eauto.
Qed.

(** The outcome of a successful update, pair by pair, with the shapes the
    element-wise addition has checked. *)
Lemma update_teacher_pairs student teacher m (st st' : state T) sl tl :
  (forall a b, mul a b = mul b a) ->
  param_lists student teacher = Ok (sl, tl) ->
  NoDup tl ->
  (forall r, r ∈ sl -> r ∉ tl) ->
  update_teacher mul add sub one student teacher m st = Ok st' ->
  (forall i tr, tl !! i = Some tr ->
     exists sr t x,
       sl !! i = Some sr /\
       params st !! tr = Some t /\ params st !! sr = Some x /\
       length (data t) = length (data x) /\
       params st' !! tr =
         Some {| data := ema mul add sub one m (data t) (data x);
                 requires_grad := requires_grad t;
                 is_leaf := is_leaf t |}) /\
  (forall r, r ∉ tl -> params st' !! r = params st !! r).
Proof.
  intros Hcomm Hpl Hnd Hdisj H. unfold update_teacher in H.
  rewrite Hpl in H. cbn [mbind result_bind] in H.
  bind_inv H s1 E1. bind_inv H s2 E2. injection H as <-.
  cbn [params].
  apply foreach_mul_spec in E1 as [Hmul_in Hmul_out]; [|exact Hnd].
  unfold foreach_add_ in E2. case_bool_decide as Hlen; [|discriminate].
  assert (Hnd' : NoDup (zip tl sl).*1) by now rewrite fst_zip by lia.
  assert (Hdisj' : forall o, o ∈ (zip tl sl).*2 -> o ∉ (zip tl sl).*1)
    by (rewrite fst_zip, snd_zip by lia; exact Hdisj).
  pose proof (foreach_add_loop_lengths _ _ _ _ Hnd' Hdisj' E2) as Hlens.
  apply foreach_add_loop_spec in E2 as [Hadd_in Hadd_out]; [|done..].
  rewrite fst_zip in Hadd_out by lia. split.
  - intros i tr Hi.
    destruct (lookup_lt_is_Some_2 sl i) as [sr Hsr].
    { rewrite <- Hlen. now apply lookup_lt_Some in Hi. }
    assert (Hpair : (tr, sr) ∈ zip tl sl).
    { apply list_elem_of_lookup. exists i. apply lookup_zip_with_Some. eauto. }
    destruct (Hadd_in _ _ Hpair) as (t1 & x & Ht1 & Hx & Ht').
    destruct (Hlens _ _ Hpair) as (t1' & x' & Ht1' & Hx' & Hl).
    rewrite Ht1 in Ht1'. injection Ht1' as <-.
    rewrite Hx in Hx'. injection Hx' as <-.
    assert (Htr_in : tr ∈ tl) by (eapply list_elem_of_lookup_2; eauto).
    assert (Hsr_in : sr ∈ sl) by (eapply list_elem_of_lookup_2; eauto).
    destruct (Hmul_in _ Htr_in) as (t & Ht & Hts).
    rewrite Hts in Ht1. injection Ht1 as <-.
    rewrite (Hmul_out sr (Hdisj _ Hsr_in)) in Hx.
    cbn [data] in Hl. rewrite length_map in Hl.
    exists sr, t, x. do 4 (split; [done|]).
    rewrite Ht'. cbn [data requires_grad is_leaf].
    now rewrite add_alpha_scaled.
  - intros r Hr. rewrite (Hadd_out r Hr). now apply Hmul_out.
Qed.

End Scalars.

(** Over the rationals. *)

Abbreviation update_teacher_Qc :=
  (update_teacher Qcmult Qcplus Qcminus 1%Qc).



Lemma ema_same m (t : list Qc) :
  ema Qcmult Qcplus Qcminus 1%Qc m t t = t.
Proof.
  unfold ema. induction t as [|a t IH]; [done|].
  cbn [zip_with]. rewrite IH. f_equal. ring.
Qed.

Lemma tensor_eta (t : tensor Qc) :
  {| data := data t; requires_grad := requires_grad t; is_leaf := is_leaf t |} = t.
Proof. now destruct t. Qed.


(** A teacher that holds the values of the student is a fixed point of
    the update, whatever the momentum: [m * x + (1 - m) * x = x]. *)
Theorem equal_teacher_is_a_fixed_point student teacher m (st st' : state Qc) sl tl :
  param_lists student teacher = Ok (sl, tl) ->
  NoDup tl ->
  (forall r, r ∈ sl -> r ∉ tl) ->
  (forall i tr sr, tl !! i = Some tr -> sl !! i = Some sr ->
     data <$> params st !! tr = data <$> params st !! sr) ->
  update_teacher_Qc student teacher m st = Ok st' ->
  st' = st.
Proof.
  intros Hpl Hnd Hdisj Heq H.
  destruct (update_teacher_pairs Qcmult Qcplus Qcminus 1%Qc student teacher m
              st st' sl tl ltac:(intros; ring) Hpl Hnd Hdisj H) as [Hin Hout].
  assert (Hgrad : grad_enabled st' = grad_enabled st).
  { unfold update_teacher in H. bind_inv H p Ep. destruct p as [sl' tl'].
    bind_inv H s1 E1. bind_inv H s2 E2. now injection H as <-. }
  destruct st as [ps ge], st' as [ps' ge']. cbn in *. f_equal; [|done].
  apply map_eq. intros r. destruct (decide (r ∈ tl)) as [Hr|Hr].
  - apply list_elem_of_lookup_1 in Hr as [i Hi].
    destruct (Hin i r Hi) as (sr & t & x & Hsr & Ht & Hx & Hl & Ht').
    specialize (Heq i r sr Hi Hsr). rewrite Ht, Hx in Heq. cbn in Heq.
    injection Heq as Heq. rewrite Ht', Ht, <- Heq, ema_same.
    now rewrite tensor_eta.
  - now apply Hout.
Qed.

(** *** The properties on a concrete student and teacher *)

Import EmaDemo EmaScenarios.

Lemma teacher_refs_NoDup : NoDup [10; 11; 12; 13]%nat.
Proof.
  repeat (apply NoDup_cons; split; [rewrite ?elem_of_cons, elem_of_nil; lia|]).
  apply NoDup_nil. exact I.
Defined.

Lemma teacher_refs_disjoint :
  forall r, r ∈ [0; 1; 2; 3]%nat -> r ∉ [10; 11; 12; 13]%nat.
Proof.
  intros r Hr Hr'. rewrite ?elem_of_cons, elem_of_nil in Hr, Hr'. lia.
Defined.

Lemma update_teacher_keeps_signatures_witness :
  exists st',
    update st0 = Ok st' /\
    grad_enabled st' = grad_enabled st0 /\
    forall r, signature <$> params st' !! r = signature <$> params st0 !! r.
Proof.
  destruct (update st0) as [st'|e] eqn:E; [|vm_compute in E; discriminate E].
  exists st'. split; [reflexivity|].
  exact (update_teacher_keeps_signatures Qcmult Qcplus Qcminus 1%Qc student
           teacher momentum st0 st' E).
Defined.


Lemma equal_teacher_is_a_fixed_point_witness :
  exists st',
    param_lists student teacher = Ok ([0; 1; 2; 3]%nat, [10; 11; 12; 13]%nat) /\
    NoDup [10; 11; 12; 13]%nat /\
    (forall r, r ∈ [0; 1; 2; 3]%nat -> r ∉ [10; 11; 12; 13]%nat) /\
    (forall i tr sr,
       [10; 11; 12; 13]%nat !! i = Some tr -> [0; 1; 2; 3]%nat !! i = Some sr ->
       data <$> params st_equal !! tr = data <$> params st_equal !! sr) /\
    update_teacher Qcmult Qcplus Qcminus 1%Qc student teacher momentum st_equal
      = Ok st' /\
    st' = st_equal.
Proof.
  assert (H1 : param_lists student teacher
               = Ok ([0; 1; 2; 3]%nat, [10; 11; 12; 13]%nat)) by reflexivity.
  assert (H4 : forall i tr sr,
             [10; 11; 12; 13]%nat !! i = Some tr ->
             [0; 1; 2; 3]%nat !! i = Some sr ->
             data <$> params st_equal !! tr = data <$> params st_equal !! sr).
  { intros [|[|[|[|i]]]] tr sr Htr Hsr; try discriminate Htr;
      injection Htr as <-; injection Hsr as <-; reflexivity. }
  destruct (update_teacher Qcmult Qcplus Qcminus 1%Qc student teacher momentum
              st_equal) as [st'|e] eqn:E; [|vm_compute in E; discriminate E].
  exists st'.
  split; [exact H1|]. split; [exact teacher_refs_NoDup|].
  split; [exact teacher_refs_disjoint|]. split; [exact H4|].
  split; [reflexivity|].
  exact (equal_teacher_is_a_fixed_point student teacher momentum st_equal st'
           _ _ H1 teacher_refs_NoDup teacher_refs_disjoint H4 E).
Defined.

End EmaMore.

Module TrainMore.
Import Train TrainProps.

(** *** NaN propagates through the reduction *)

Lemma SFeqb_refl_not_nan (f : spec_float) :
  f <> S754_nan -> SFeqb f f = true.
Proof.
  intros Hn. unfold SFeqb, SFcompare. destruct f as [s|s| |s m e];
    try reflexivity; try contradiction.
  - now destruct s.
  - rewrite Z.compare_refl.
    change (PosDef.Pos.compare_cont Eq m m) with (Pos.compare m m).
    rewrite Pos.compare_refl. now destruct s.
Qed.

Lemma is_nan_spec (x : float) :
  PrimFloat.is_nan x = true <-> Prim2SF x = S754_nan.
Proof.
  unfold PrimFloat.is_nan. rewrite FloatAxioms.eqb_spec. split.
  - intros H. destruct (Prim2SF x) eqn:E; try reflexivity;
      rewrite SFeqb_refl_not_nan in H by discriminate; discriminate H.
  - now intros ->.
Qed.

Lemma is_nan_add_l x y :
  PrimFloat.is_nan x = true -> PrimFloat.is_nan (x + y) = true.
Proof.
  rewrite !is_nan_spec, FloatAxioms.add_spec. now intros ->.
Qed.

Lemma is_nan_add_r x y :
  PrimFloat.is_nan y = true -> PrimFloat.is_nan (x + y) = true.
Proof.
  rewrite !is_nan_spec, FloatAxioms.add_spec. intros ->. now destruct (Prim2SF x).
Qed.

Lemma is_nan_div_l x y :
  PrimFloat.is_nan x = true -> PrimFloat.is_nan (x / y) = true.
Proof.
  rewrite !is_nan_spec, FloatAxioms.div_spec. now intros ->.
Qed.

Lemma fold_add_nan_acc vs : forall acc,
  PrimFloat.is_nan acc = true ->
  PrimFloat.is_nan (fold_left PrimFloat.add vs acc) = true.
Proof.
  induction vs as [|v vs IH]; intros acc H; [exact H|].
  cbn [fold_left]. apply IH. now apply is_nan_add_l.
Qed.

Lemma fold_add_nan_elem vs : forall acc v,
  v ∈ vs -> PrimFloat.is_nan v = true ->
  PrimFloat.is_nan (fold_left PrimFloat.add vs acc) = true.
Proof.
  induction vs as [|v0 vs IH]; intros acc v Hv H.
  - now apply elem_of_nil in Hv.
  - cbn [fold_left]. apply elem_of_cons in Hv as [<-|Hv].
    + apply fold_add_nan_acc. now apply is_nan_add_r.
    + now apply (IH _ v).
Qed.

Lemma all_reduce_dict_nan ps : forall d j k v,
  (k, v) ∈ d -> PrimFloat.is_nan v = true ->
  exists v', (k, v') ∈ all_reduce_dict ps j d /\ PrimFloat.is_nan v' = true.
Proof.
  induction d as [|[k0 v0] d IH]; intros j k v Hin Hv.
  - now apply elem_of_nil in Hin.
  - cbn [all_reduce_dict]. apply elem_of_cons in Hin as [[= <- <-]|Hin].
    + exists (all_reduce ps j v). split; [constructor|].
      unfold all_reduce. now apply fold_add_nan_acc.
    + destruct (IH (S j) k v Hin Hv) as (v' & Hin' & Hv').
      exists v'. split; [now constructor | exact Hv'].
Qed.

Lemma nan_entry_total gs inp k v :
  (k, v) ∈ losses inp -> PrimFloat.is_nan v = true ->
  PrimFloat.is_nan (losses_reduced gs inp) = true.
Proof.
  intros Hin Hv. unfold losses_reduced, loss_dict_reduced, py_sum.
  set (d := if (1 <? gs)%nat then _ else _).
  assert (Hd : exists v', (k, v') ∈ d /\ PrimFloat.is_nan v' = true).
  { subst d. destruct (1 <? gs)%nat; [|eauto].
    now apply (all_reduce_dict_nan _ _ _ k v). }
  destruct Hd as (v' & Hin' & Hv').
  apply (fold_add_nan_elem _ _ (v' / float_of_nat gs)%float).
  - rewrite map_map. cbn [snd]. apply list_elem_of_fmap.
    exists (k, v'). split; [reflexivity | exact Hin'].
  - now apply is_nan_div_l.
Qed.

(** A NaN in any entry of the loss mapping of a batch makes the reduced
    total NaN, on one process or on several, whatever the other entries and
    the other processes contribute: the loop raises [AssertionError] at that
    batch, after the optimizer step and the teacher update, and logs
    nothing for it. *)
Theorem nan_entry_aborts max_iter gs st inp rest k v :
  (iteration st <= max_iter)%nat ->
  (k, v) ∈ losses inp ->
  PrimFloat.is_nan v = true ->
  do_train max_iter gs st (inp :: rest) =
    ({| iteration := iteration st;
        optimizer_steps := S (optimizer_steps st);
        teacher_updates := S (teacher_updates st);
        logged := logged st |}, Raised AssertionError).
Proof.
  intros Hle Hin Hv. cbn [do_train].
  rewrite train_iter_nan; [reflexivity | exact Hle |].
  exact (nan_entry_total gs inp k v Hin Hv).
Qed.

(** *** Book-keeping of the loop *)

Lemma Forall_take_not_nan gs (data : list iter_input) n :
  Forall (fun i => PrimFloat.is_nan (losses_reduced gs i) = false) data ->
  Forall (fun i => PrimFloat.is_nan (losses_reduced gs i) = false) (take n data).
Proof. apply Forall_take. Qed.

Lemma do_train_prefix max_iter gs pre : forall st rest,
  (iteration st + length pre <= max_iter + 1)%nat ->
  Forall (fun i => PrimFloat.is_nan (losses_reduced gs i) = false) pre ->
  do_train max_iter gs st (pre ++ rest) =
  do_train max_iter gs
    {| iteration := iteration st + length pre;
       optimizer_steps := optimizer_steps st + length pre;
       teacher_updates := teacher_updates st + length pre;
       logged := logged st ++ map (losses_reduced gs) pre |} rest.
Proof.
  induction pre as [|i pre IH]; intros st rest Hle Hok.
  - cbn [length app map]. rewrite !Nat.add_0_r, app_nil_r. now destruct st.
  - inversion Hok as [|? ? Hi Hpre]; subst. cbn [length] in Hle.
    cbn [app do_train]. rewrite train_iter_not_nan by (assumption || lia).
    rewrite IH by (cbn; assumption || lia). cbn [iteration optimizer_steps
      teacher_updates logged length map].
    rewrite <- app_assoc. cbn [app].
    f_equal. f_equal; lia.
Qed.

(** On batches whose reduced totals are not NaN the loop runs iterations
    [iteration], ..., [max_iter], the last one included: it takes
    [max_iter + 1 - iteration] passes if the loader yields that many batches,
    each with one optimizer step, one teacher update and one logged total,
    and returns at the next batch, if there is one. *)
Theorem do_train_runs_through_max_iter max_iter gs st data :
  Forall (fun i => PrimFloat.is_nan (losses_reduced gs i) = false) data ->
  let n := Nat.min (length data) (max_iter + 1 - iteration st) in
  do_train max_iter gs st data =
    ({| iteration := iteration st + n;
        optimizer_steps := optimizer_steps st + n;
        teacher_updates := teacher_updates st + n;
        logged := logged st ++ map (losses_reduced gs) (take n data) |},
     if (n <? length data)%nat then Returned else Completed).
Proof.
  intros Hok n.
  rewrite <- (take_drop n data) at 1.
  assert (Hlen : length (take n data) = n).
  { rewrite length_take. unfold n. lia. }
  destruct (Nat.eq_dec n 0) as [Hz|Hnz].
  - rewrite Hz in *. rewrite take_0, drop_0. cbn [app map].
    rewrite !Nat.add_0_r, app_nil_r.
    destruct data as [|inp data].
    + cbn. now destruct st.
    + cbn [length Nat.ltb Nat.leb do_train]. unfold train_iter.
      destruct (Nat.ltb_spec max_iter (iteration st)) as [_|Hge].
      * now destruct st.
      * exfalso. unfold n in Hz. cbn [length] in Hz. lia.
  - rewrite do_train_prefix.
    + rewrite Hlen. destruct (drop n data) as [|inp rest] eqn:Edrop.
      * cbn [do_train]. f_equal.
        apply (f_equal length) in Edrop. rewrite length_drop in Edrop.
        cbn [length] in Edrop.
        destruct (Nat.ltb_spec n (length data)); [lia | reflexivity].
      * cbn [do_train]. unfold train_iter. cbn [iteration].
        apply (f_equal length) in Edrop. rewrite length_drop in Edrop.
        cbn [length] in Edrop.
        destruct (Nat.ltb_spec max_iter (iteration st + n)) as [_|Hge].
        -- destruct (Nat.ltb_spec n (length data)); [reflexivity | lia].
        -- exfalso. unfold n in *. clear Hlen.
           destruct (Nat.min_spec (length data) (max_iter + 1 - iteration st))
             as [[? Hm]|[? Hm]]; rewrite Hm in *; lia.
    + rewrite Hlen. unfold n.
      destruct (Nat.min_spec (length data) (max_iter + 1 - iteration st))
        as [[? Hm]|[? Hm]]; rewrite Hm; lia.
    + now apply Forall_take_not_nan.
Qed.


(** *** The properties on concrete batches *)

Import TrainScenarios.

Lemma nan_entry_aborts_witness :
  (iteration start <= 10)%nat /\
  ("dino_global_crops_loss"%string, PrimFloat.nan) ∈ losses nan_entry_batch /\
  PrimFloat.is_nan PrimFloat.nan = true /\
  do_train 10 2 start (nan_entry_batch :: [ok_batch]) =
    ({| iteration := iteration start;
        optimizer_steps := S (optimizer_steps start);
        teacher_updates := S (teacher_updates start);
        logged := logged start |}, Raised AssertionError).
Proof.
  assert (H1 : (iteration start <= 10)%nat) by (cbn; lia).
  assert (H2 : ("dino_global_crops_loss"%string, PrimFloat.nan)
               ∈ losses nan_entry_batch)
    by (apply list_elem_of_further, list_elem_of_here).
  assert (H3 : PrimFloat.is_nan PrimFloat.nan = true) by reflexivity.
  split; [exact H1|]. split; [exact H2|]. split; [exact H3|].
  exact (nan_entry_aborts 10 2 start nan_entry_batch [ok_batch] _ _ H1 H2 H3).
Defined.

Lemma do_train_runs_through_max_iter_witness :
  Forall (fun i => PrimFloat.is_nan (losses_reduced 2 i) = false)
    [ok_batch; ok_batch; ok_batch] /\
  let n := Nat.min (length [ok_batch; ok_batch; ok_batch])
             (1 + 1 - iteration start) in
  do_train 1 2 start [ok_batch; ok_batch; ok_batch] =
    ({| iteration := iteration start + n;
        optimizer_steps := optimizer_steps start + n;
        teacher_updates := teacher_updates start + n;
        logged := logged start ++
                  map (losses_reduced 2) (take n [ok_batch; ok_batch; ok_batch]) |},
     if (n <? length [ok_batch; ok_batch; ok_batch])%nat
     then Returned else Completed).
Proof.
  assert (H : Forall (fun i => PrimFloat.is_nan (losses_reduced 2 i) = false)
                [ok_batch; ok_batch; ok_batch]) by (repeat constructor).
  split; [exact H|].
  exact (do_train_runs_through_max_iter 1 2 start
           [ok_batch; ok_batch; ok_batch] H).
Defined.


End TrainMore.

Module CollateDictProps.
Import Collate CollateDict.

Section WithRandomSource.

Context {G : Type}.
Variable random : G -> Qc * G.
Variable randbelow : nat -> G -> nat * G.
Variable torch_rand : nat -> G -> list Qc * G.
Variable mask_generator : Z -> G -> grid * G.

(** A pre-batched mapping is never collated.  Every call on a mapping
    raises; when the mapping has 4-dimensional global crops and local crops
    and the masks are generated without an error, the exception is the
    [UnboundLocalError] for [num_ch_list], raised while the result is put
    together. *)
Theorem prebatched_mapping_is_never_collated cfg samples g :
  (exists e, collate_data_and_cast_dict random randbelow torch_rand
               mask_generator cfg samples g = Raise e) /\
  forall B c h w out,
    samples !! "global_crops"%string = Some [B; c; h; w] ->
    is_Some (samples !! "local_crops"%string) ->
    collate_masks random randbelow torch_rand mask_generator cfg
      {| Collate.B := B; gc_last_dim := w; Collate.c := Some c |} g = Ok out ->
    collate_data_and_cast_dict random randbelow torch_rand mask_generator
      cfg samples g = Raise UnboundLocalError.
Proof.
  unfold collate_data_and_cast_dict. split.
  - destruct (prebatched_front samples) as [fr|e]; [|cbn; eauto].
    cbn. destruct (collate_masks _ _ _ _ _ _ _) as [out|e]; cbn; eauto.
  - intros B c h w out Hg [lc Hl] Hout.
    unfold prebatched_front, getitem. rewrite Hg. cbn. rewrite Hl. cbn.
    now rewrite Hout.
Qed.

End WithRandomSource.

(** *** The property on a concrete batch *)

Import CollateDemo CollateDictDemo.

Lemma prebatched_mapping_is_never_collated_witness :
  exists out,
    prebatched !! "global_crops"%string = Some [8; 3; 56; 56]%nat /\
    is_Some (prebatched !! "local_crops"%string) /\
    collate_masks random randbelow torch_rand mask_generator cfg
      {| Collate.B := 8; gc_last_dim := 56; Collate.c := Some 3%nat |} 0%nat
      = Ok out /\
    collate_data_and_cast_dict random randbelow torch_rand mask_generator
      cfg prebatched 0%nat = Raise UnboundLocalError.
Proof.
  assert (H1 : prebatched !! "global_crops"%string = Some [8; 3; 56; 56]%nat)
    by reflexivity.
  assert (H2 : is_Some (prebatched !! "local_crops"%string))
    by (eexists; reflexivity).
  eexists. split; [exact H1|]. split; [exact H2|].
  split; [vm_compute; reflexivity|].
  eapply (proj2 (prebatched_mapping_is_never_collated random randbelow
                   torch_rand mask_generator cfg prebatched 0%nat)
            8%nat 3%nat 56%nat 56%nat _ H1 H2).
  vm_compute. reflexivity.
Defined.

End CollateDictProps.

Module OptimProps.
Import Optim.

Lemma update_group_Ok lr wd ll g g' :
  update_group lr wd ll g = Ok g' ->
  exists flag lrm wdm,
    g !! "is_last_layer"%string = Some flag /\
    g !! "lr_multiplier"%string = Some lrm /\
    g !! "wd_multiplier"%string = Some wdm /\
    g' = <["lr"%string := PyFloat ((if truthy flag then ll else lr) * number lrm)]>
           (<["weight_decay"%string := PyFloat (wd * number wdm)]> g).
Proof.
  unfold update_group, getitem. intros H.
  destruct (g !! "is_last_layer"%string) as [flag|]; [|discriminate].
  destruct (g !! "lr_multiplier"%string) as [lrm|]; [|discriminate].
  destruct (g !! "wd_multiplier"%string) as [wdm|]; [|discriminate].
  cbn in H. injection H as <-. eauto 10.
Qed.

Lemma update_group_schedulable lr wd ll g :
  schedulable g -> exists g', update_group lr wd ll g = Ok g'.
Proof.
  intros ([flag Hf] & [lrm Hl] & [wdm Hw]).
  unfold update_group, getitem. rewrite Hf, Hl, Hw. cbn. eauto.
Qed.

Lemma update_group_raises lr wd ll g e :
  update_group lr wd ll g = Raise e -> e = KeyError /\ ~ schedulable g.
Proof.
  unfold update_group, getitem, schedulable. intros H.
  destruct (g !! "is_last_layer"%string) as [flag|] eqn:Hf.
  2: { injection H as <-. split; [done|]. intros ([? ?] & _). discriminate. }
  destruct (g !! "lr_multiplier"%string) as [lrm|] eqn:Hl.
  2: { injection H as <-. split; [done|]. intros (_ & [? ?] & _). discriminate. }
  destruct (g !! "wd_multiplier"%string) as [wdm|] eqn:Hw.
  2: { injection H as <-. split; [done|]. intros (_ & _ & [? ?]). discriminate. }
  discriminate H.
Qed.

(** The entries a run reads are not among those it writes. *)
Lemma update_group_keeps_inputs lr wd ll g g' k :
  update_group lr wd ll g = Ok g' ->
  k <> "lr"%string -> k <> "weight_decay"%string ->
  g' !! k = g !! k.
Proof.
  intros H Hlr Hwd. apply update_group_Ok in H
    as (flag & lrm & wdm & _ & _ & _ & ->).
  rewrite lookup_insert_ne by done. now rewrite lookup_insert_ne by done.
Qed.

(** What a run of the scheduler leaves in every group: the weight decay
    times the group's multiplier, and the learning rate (for a last-layer
    group: the last-layer learning rate) times the group's multiplier; every
    other entry is as before.  In particular a last-layer learning rate of 0
    freezes the last-layer groups whatever their multiplier is. *)
Theorem scheduled_values groups lr wd ll groups' :
  apply_optim_scheduler groups lr wd ll = (groups', Ok tt) ->
  length groups' = length groups /\
  forall i g, groups !! i = Some g ->
    exists g' flag lrm wdm,
      groups' !! i = Some g' /\
      g !! "is_last_layer"%string = Some flag /\
      g !! "lr_multiplier"%string = Some lrm /\
      g !! "wd_multiplier"%string = Some wdm /\
      g' !! "weight_decay"%string = Some (PyFloat (wd * number wdm)) /\
      g' !! "lr"%string =
        Some (PyFloat ((if truthy flag then ll else lr) * number lrm)) /\
      (forall k, k <> "lr"%string -> k <> "weight_decay"%string ->
                 g' !! k = g !! k) /\
      (truthy flag = true -> ll = 0%Qc -> g' !! "lr"%string = Some (PyFloat 0)).
Proof.
  revert groups'. induction groups as [|g0 groups IH]; intros groups' H;
    cbn [apply_optim_scheduler] in H.
  - injection H as <-. split; [done|]. intros i g Hi. discriminate.
  - destruct (update_group lr wd ll g0) as [g0'|e] eqn:E0; [|discriminate].
    destruct (apply_optim_scheduler groups lr wd ll) as [rest' r] eqn:Er.
    injection H as <- ->. destruct (IH _ eq_refl) as [Hlen Hall].
    split; [cbn; now rewrite Hlen|].
    intros [|i] g Hi; [|now apply Hall]. injection Hi as <-.
    pose proof (fun k => update_group_keeps_inputs _ _ _ _ _ k E0) as Hkeep.
    apply update_group_Ok in E0 as (flag & lrm & wdm & Hf & Hl & Hw & ->).
    eexists. exists flag, lrm, wdm. split; [reflexivity|]. do 3 (split; [done|]).
    split; [|split; [|split]].
    + rewrite lookup_insert_ne by done. apply lookup_insert_eq.
    + apply lookup_insert_eq.
    + exact Hkeep.
    + intros Ht ->. rewrite lookup_insert_eq, Ht. do 2 f_equal. ring.
Qed.

Lemma update_group_twice lr1 wd1 ll1 lr2 wd2 ll2 g g1 :
  update_group lr1 wd1 ll1 g = Ok g1 ->
  update_group lr2 wd2 ll2 g1 = update_group lr2 wd2 ll2 g.
Proof.
  intros H1. pose proof (fun k => update_group_keeps_inputs _ _ _ _ _ k H1) as Hkeep.
  apply update_group_Ok in H1 as (flag & lrm & wdm & Hf & Hl & Hw & Hg1).
  unfold update_group, getitem.
  rewrite !Hkeep by done. rewrite Hf, Hl, Hw. cbn. f_equal.
  rewrite Hg1.
  rewrite (insert_insert_ne _ "weight_decay"%string "lr"%string) by done.
  now rewrite !insert_insert_eq.
Qed.

(** The scheduler keeps no history: after any successful run, a run with
    new schedule values leaves exactly what it would have left on the
    original groups.  The multipliers and the last-layer flag are never
    overwritten, so nothing drifts from one iteration to the next; in
    particular running it twice with the same values changes nothing. *)
Theorem schedule_has_no_history groups lr1 wd1 ll1 lr2 wd2 ll2 groups1 :
  apply_optim_scheduler groups lr1 wd1 ll1 = (groups1, Ok tt) ->
  apply_optim_scheduler groups1 lr2 wd2 ll2 =
  apply_optim_scheduler groups lr2 wd2 ll2.
Proof.
  revert groups1. induction groups as [|g0 groups IH]; intros groups1 H;
    cbn [apply_optim_scheduler] in H.
  - now injection H as <-.
  - destruct (update_group lr1 wd1 ll1 g0) as [g0'|e] eqn:E0; [|discriminate].
    destruct (apply_optim_scheduler groups lr1 wd1 ll1) as [rest' r] eqn:Er.
    injection H as <- ->. cbn [apply_optim_scheduler].
    rewrite (update_group_twice _ _ _ lr2 wd2 ll2 _ _ E0).
    rewrite (IH _ eq_refl).
    destruct (update_group_schedulable lr2 wd2 ll2 g0) as [g2 E2].
    { apply update_group_Ok in E0 as (? & ? & ? & ? & ? & ? & _).
      unfold schedulable. eauto. }
    now rewrite E2.
Qed.

(** A group that lacks one of the three entries stops the run with
    [KeyError]: the groups before it have their new values already, the
    group itself and the groups after it are untouched. *)
Theorem missing_entry_stops_midway pre g post lr wd ll :
  Forall schedulable pre -> ~ schedulable g ->
  exists pre',
    apply_optim_scheduler (pre ++ g :: post) lr wd ll =
      (pre' ++ g :: post, Raise KeyError) /\
    apply_optim_scheduler pre lr wd ll = (pre', Ok tt).
Proof.
  intros Hpre Hg. induction Hpre as [|g0 pre Hg0 _ IH];
    cbn [app apply_optim_scheduler].
  - exists []. destruct (update_group lr wd ll g) as [g'|e] eqn:E.
    + exfalso. apply Hg. apply update_group_Ok in E as (? & ? & ? & ? & ? & ? & _).
      unfold schedulable. eauto.
    + apply update_group_raises in E as [-> _]. done.
  - destruct IH as (pre' & -> & ->).
    destruct (update_group_schedulable lr wd ll g0 Hg0) as [g0' ->].
    exists (g0' :: pre'). done.
Qed.

(** *** The properties on concrete parameter groups *)

Import OptimDemo.

Lemma demo_group_schedulable last m : schedulable (group last m).
Proof. repeat split; eexists; reflexivity. Defined.

Lemma scheduled_values_witness :
  exists groups',
    apply_optim_scheduler groups (Q2Qc (1 # 100)) (Q2Qc (1 # 25)) 0%Qc
      = (groups', Ok tt) /\
    length groups' = length groups /\
    forall i g, groups !! i = Some g ->
      exists g' flag lrm wdm,
        groups' !! i = Some g' /\
        g !! "is_last_layer"%string = Some flag /\
        g !! "lr_multiplier"%string = Some lrm /\
        g !! "wd_multiplier"%string = Some wdm /\
        g' !! "weight_decay"%string = Some (PyFloat (Q2Qc (1 # 25) * number wdm)) /\
        g' !! "lr"%string =
          Some (PyFloat ((if truthy flag then 0%Qc else Q2Qc (1 # 100))
                         * number lrm)) /\
        (forall k, k <> "lr"%string -> k <> "weight_decay"%string ->
                   g' !! k = g !! k) /\
        (truthy flag = true -> 0%Qc = 0%Qc ->
         g' !! "lr"%string = Some (PyFloat 0)).
Proof.
  destruct (apply_optim_scheduler groups (Q2Qc (1 # 100)) (Q2Qc (1 # 25)) 0%Qc)
    as [groups' r] eqn:E.
  assert (Hr : r = Ok tt).
  { apply (f_equal snd) in E. cbn [snd] in E. rewrite <- E. reflexivity. }
  subst r. exists groups'. split; [reflexivity|].
  exact (scheduled_values groups _ _ _ groups' E).
Defined.

Lemma schedule_has_no_history_witness :
  exists groups1,
    apply_optim_scheduler groups (Q2Qc (1 # 100)) (Q2Qc (1 # 25)) 0%Qc
      = (groups1, Ok tt) /\
    apply_optim_scheduler groups1 (Q2Qc (1 # 50)) (Q2Qc (1 # 20)) (Q2Qc (1 # 50)) =
    apply_optim_scheduler groups (Q2Qc (1 # 50)) (Q2Qc (1 # 20)) (Q2Qc (1 # 50)).
Proof.
  destruct (apply_optim_scheduler groups (Q2Qc (1 # 100)) (Q2Qc (1 # 25)) 0%Qc)
    as [groups1 r] eqn:E.
  assert (Hr : r = Ok tt).
  { apply (f_equal snd) in E. cbn [snd] in E. rewrite <- E. reflexivity. }
  subst r. exists groups1. split; [reflexivity|].
  exact (schedule_has_no_history groups _ _ _ _ _ _ groups1 E).
Defined.

Lemma missing_entry_stops_midway_witness :
  Forall schedulable [group false 1] /\
  ~ schedulable (delete "lr_multiplier"%string (group false 1)) /\
  exists pre',
    apply_optim_scheduler
      ([group false 1] ++ delete "lr_multiplier"%string (group false 1)
         :: [group true 1])
      (Q2Qc (1 # 100)) (Q2Qc (1 # 25)) 0%Qc =
      (pre' ++ delete "lr_multiplier"%string (group false 1) :: [group true 1],
       Raise KeyError) /\
    apply_optim_scheduler [group false 1] (Q2Qc (1 # 100)) (Q2Qc (1 # 25)) 0%Qc
      = (pre', Ok tt).
Proof.
  assert (H1 : Forall schedulable [group false 1]).
  { constructor; [apply demo_group_schedulable | constructor]. }
  assert (H2 : ~ schedulable (delete "lr_multiplier"%string (group false 1))).
  { intros (_ & [v Hv] & _). vm_compute in Hv. discriminate Hv. }
  split; [exact H1|]. split; [exact H2|].
  exact (missing_entry_stops_midway [group false 1] _ [group true 1]
           (Q2Qc (1 # 100)) (Q2Qc (1 # 25)) 0%Qc H1 H2).
Defined.

End OptimProps.

Module StreamsProps.
Import Streams.

Lemma share_stream_Ok attr m m' :
  share_stream attr m = (m', Ok tt) ->
  exists stream sh th,
    teacher_backbone m !! attr = Some stream /\
    student_dino_head m = Some sh /\
    teacher_dino_head m = Some th /\
    m' = {| teacher_backbone := teacher_backbone m;
            student_backbone := <[attr := stream]> (student_backbone m);
            student_dino_head := Some (<[attr := stream]> sh);
            teacher_dino_head := Some (<[attr := stream]> th);
            need_to_synchronize_fsdp_streams := need_to_synchronize_fsdp_streams m;
            cuda_synchronize_calls := cuda_synchronize_calls m |}.
Proof.
  unfold share_stream. intros H.
  destruct (teacher_backbone m !! attr) as [stream|]; [|discriminate].
  destruct (student_dino_head m) as [sh|]; [|discriminate].
  cbn in H. destruct (teacher_dino_head m) as [th|]; [|discriminate].
  injection H as <-. eauto 10.
Qed.

Lemma shares_insert attrs attr (source before target : gmap string nat) stream :
  source !! attr = Some stream ->
  shares attrs source before target ->
  shares (attr :: attrs) source before (<[attr := stream]> target).
Proof.
  intros Hs Hsh a. destruct (decide (a = attr)) as [->|Hne].
  - rewrite lookup_insert_eq. rewrite bool_decide_eq_true_2 by constructor. done.
  - rewrite lookup_insert_ne by done. rewrite (Hsh a).
    destruct (decide (a ∈ attrs)) as [Hin|Hnin].
    + rewrite !bool_decide_eq_true_2; [done | now constructor | done].
    + rewrite !bool_decide_eq_false_2; [done | | done].
      intros [?|?]%elem_of_cons; contradiction.
Qed.

Lemma shares_nil (before : gmap string nat) source : shares [] source before before.
Proof. intros a. rewrite bool_decide_eq_false_2; [done|]. apply not_elem_of_nil. Qed.

Lemma shares_perm attrs attrs' (source before target : gmap string nat) :
  attrs ≡ₚ attrs' -> shares attrs source before target ->
  shares attrs' source before target.
Proof.
  intros Hp Hsh a. rewrite (Hsh a).
  destruct (decide (a ∈ attrs)) as [Hin|Hnin].
  - rewrite !bool_decide_eq_true_2; [done | now rewrite <- Hp | done].
  - rewrite !bool_decide_eq_false_2; [done | now rewrite <- Hp | done].
Qed.

(** The loop, started on modules that already share the streams named in
    [seen]. *)
Lemma share_streams_Ok attrs : forall seen m m' sb0 sh0 th0 sh th,
  share_streams attrs m = (m', Ok tt) ->
  student_dino_head m = Some sh -> teacher_dino_head m = Some th ->
  shares seen (teacher_backbone m) sb0 (student_backbone m) ->
  shares seen (teacher_backbone m) sh0 sh ->
  shares seen (teacher_backbone m) th0 th ->
  exists sh' th',
    teacher_backbone m' = teacher_backbone m /\
    student_dino_head m' = Some sh' /\ teacher_dino_head m' = Some th' /\
    need_to_synchronize_fsdp_streams m' = need_to_synchronize_fsdp_streams m /\
    cuda_synchronize_calls m' = cuda_synchronize_calls m /\
    shares (rev attrs ++ seen) (teacher_backbone m) sb0 (student_backbone m') /\
    shares (rev attrs ++ seen) (teacher_backbone m) sh0 sh' /\
    shares (rev attrs ++ seen) (teacher_backbone m) th0 th' /\
    Forall (fun a => is_Some (teacher_backbone m !! a)) attrs.
Proof.
  induction attrs as [|attr attrs IH];
    intros seen m m' sb0 sh0 th0 sh th H Hsh Hth Sb Sh Th; cbn [share_streams] in H.
  - injection H as <-. exists sh, th. cbn [rev app]. repeat split; auto.
  - destruct (share_stream attr m) as [m1 [[]|e]] eqn:E1; [|discriminate].
    apply share_stream_Ok in E1 as (stream & sh1 & th1 & Hs & Hsh1 & Hth1 & ->).
    rewrite Hsh in Hsh1. injection Hsh1 as <-.
    rewrite Hth in Hth1. injection Hth1 as <-.
    destruct (IH (attr :: seen) _ _ sb0 sh0 th0 _ _ H eq_refl eq_refl
                (shares_insert _ _ _ _ _ _ Hs Sb)
                (shares_insert _ _ _ _ _ _ Hs Sh)
                (shares_insert _ _ _ _ _ _ Hs Th))
      as (sh' & th' & Htb & Hsh' & Hth' & Hflag & Hcalls & Sb' & Sh' & Th' & Hall).
    cbn [teacher_backbone need_to_synchronize_fsdp_streams
         cuda_synchronize_calls] in *.
    exists sh', th'. cbn [rev]. rewrite <- !app_assoc. cbn [app].
    repeat split; auto.
Qed.

(** The first successful call makes the student backbone and the two DINO
    heads share the teacher backbone's streams under the five names, in
    whatever order the set of names is iterated; their other attributes and
    the teacher backbone are left alone; the device is synchronised once and
    the flag cleared, so that every later call does nothing. *)
Theorem streams_are_shared_once order order' m m' :
  order ≡ₚ stream_attrs ->
  need_to_synchronize_fsdp_streams m = true ->
  fsdp_synchronize_streams order m = (m', Ok tt) ->
  teacher_backbone m' = teacher_backbone m /\
  shares stream_attrs (teacher_backbone m) (student_backbone m)
    (student_backbone m') /\
  (exists sh th sh' th',
     student_dino_head m = Some sh /\ teacher_dino_head m = Some th /\
     student_dino_head m' = Some sh' /\ teacher_dino_head m' = Some th' /\
     shares stream_attrs (teacher_backbone m) sh sh' /\
     shares stream_attrs (teacher_backbone m) th th') /\
  cuda_synchronize_calls m' = S (cuda_synchronize_calls m) /\
  need_to_synchronize_fsdp_streams m' = false /\
  fsdp_synchronize_streams order' m' = (m', Ok tt).
Proof.
  intros Hperm Hflag H. unfold fsdp_synchronize_streams in H. rewrite Hflag in H.
  destruct (share_streams order _) as [m1 [[]|e]] eqn:E; [|discriminate].
  injection H as <-.
  assert (Hheads : exists sh th,
            student_dino_head m = Some sh /\ teacher_dino_head m = Some th).
  { destruct order as [|a order].
    - apply Permutation_length in Hperm. discriminate.
    - cbn [share_streams] in E.
      destruct (share_stream a _) as [m2 [[]|e]] eqn:E2; [|discriminate].
      apply share_stream_Ok in E2 as (? & sh & th & _ & ? & ? & _). eauto. }
  destruct Hheads as (sh & th & Hsh & Hth).
  destruct (share_streams_Ok order [] _ _ (student_backbone m) sh th sh th E
              Hsh Hth (shares_nil _ _) (shares_nil _ _) (shares_nil _ _))
    as (sh' & th' & Htb & Hsh' & Hth' & _ & Hcalls & Sb & Sh & Th & _).
  cbn [teacher_backbone student_backbone student_dino_head teacher_dino_head
       need_to_synchronize_fsdp_streams cuda_synchronize_calls] in *.
  rewrite app_nil_r in Sb, Sh, Th.
  assert (Hp : rev order ≡ₚ stream_attrs) by now rewrite <- Permutation_rev.
  split; [exact Htb|].
  split; [exact (shares_perm _ _ _ _ _ Hp Sb)|].
  split.
  { exists sh, th, sh', th'. repeat split; auto.
    - exact (shares_perm _ _ _ _ _ Hp Sh).
    - exact (shares_perm _ _ _ _ _ Hp Th). }
  split; [exact Hcalls|]. split; reflexivity.
Qed.

(** *** The property on a concrete model *)

Import StreamsDemo.

Lemma streams_are_shared_once_witness :
  exists m',
    stream_attrs ≡ₚ stream_attrs /\
    need_to_synchronize_fsdp_streams fresh = true /\
    fsdp_synchronize_streams stream_attrs fresh = (m', Ok tt) /\
    teacher_backbone m' = teacher_backbone fresh /\
    shares stream_attrs (teacher_backbone fresh) (student_backbone fresh)
      (student_backbone m') /\
    (exists sh th sh' th',
       student_dino_head fresh = Some sh /\ teacher_dino_head fresh = Some th /\
       student_dino_head m' = Some sh' /\ teacher_dino_head m' = Some th' /\
       shares stream_attrs (teacher_backbone fresh) sh sh' /\
       shares stream_attrs (teacher_backbone fresh) th th') /\
    cuda_synchronize_calls m' = S (cuda_synchronize_calls fresh) /\
    need_to_synchronize_fsdp_streams m' = false /\
    fsdp_synchronize_streams (rev stream_attrs) m' = (m', Ok tt).
Proof.
  destruct (fsdp_synchronize_streams stream_attrs fresh) as [m' r] eqn:E.
  assert (Hr : r = Ok tt).
  { apply (f_equal snd) in E. cbn [snd] in E. rewrite <- E. reflexivity. }
  subst r. exists m'.
  split; [reflexivity|]. split; [reflexivity|]. split; [reflexivity|].
  exact (streams_are_shared_once stream_attrs (rev stream_attrs) fresh m'
           (reflexivity _) eq_refl E).
Defined.

End StreamsProps.

Module Hdf5Props.
Import Collate CollateProps Hdf5.

Lemma table_ok_step file_name e a :
  table_ok a ->
  table_ok
    {| accumulated := accumulated a ++ [tag file_name e];
       class_ids := if bool_decide (fe_class_id e ∈ class_ids a)
                    then class_ids a else class_ids a ++ [fe_class_id e];
       class_names := if bool_decide (fe_class_id e ∈ class_ids a)
                      then class_names a else class_names a ++ [fe_class_str e] |}.
Proof.
  intros (Hnd & Hlen & Hids & Hnames). unfold table_ok.
  cbn [accumulated class_ids class_names].
  case_bool_decide as Hknown.
  - split; [exact Hnd|]. split; [exact Hlen|]. split.
    + intros z. rewrite Hids. split.
      * intros (x & Hx & Hz). exists x. split; [|done].
        apply elem_of_app. now left.
      * intros (x & Hx & Hz). apply elem_of_app in Hx as [Hx|Hx]; [eauto|].
        apply list_elem_of_singleton in Hx as ->. cbn in Hz. subst z.
        now apply Hids.
    + intros i z s Hi Hs. destruct (Hnames i z s Hi Hs) as (x & Hx & Hz).
      exists x. split; [|done]. apply elem_of_app. now left.
  - split.
    { apply NoDup_app. split; [exact Hnd|]. split.
      - intros x Hx Hx'. apply list_elem_of_singleton in Hx' as ->. contradiction.
      - apply NoDup_singleton. }
    split; [rewrite !length_app; cbn; lia|]. split.
    + intros z. rewrite elem_of_app, Hids, list_elem_of_singleton. split.
      * intros [(x & Hx & Hz)| ->].
        -- exists x. split; [|done]. apply elem_of_app. now left.
        -- exists (tag file_name e). split; [|done].
           apply elem_of_app. right. constructor.
      * intros (x & Hx & Hz). apply elem_of_app in Hx as [Hx|Hx]; [eauto|].
        apply list_elem_of_singleton in Hx as ->. now right.
    + intros i z s Hi Hs.
      destruct (decide (i < length (class_ids a))%nat) as [Hlt|Hge].
      * rewrite lookup_app_l in Hi by done.
        rewrite lookup_app_l in Hs by lia.
        destruct (Hnames i z s Hi Hs) as (x & Hx & Hz).
        exists x. split; [|done]. apply elem_of_app. now left.
      * rewrite lookup_app_r in Hi by lia.
        rewrite lookup_app_r in Hs by lia. rewrite Hlen in Hs.
        destruct (i - length (class_ids a))%nat as [|n]; [|discriminate].
        injection Hi as <-. injection Hs as <-.
        exists (tag file_name e). split; [|done].
        apply elem_of_app. right. constructor.
Qed.

Lemma add_entries_table short file_name entries : forall a,
  table_ok a -> table_ok (add_entries short file_name entries a).
Proof.
  induction entries as [|e entries IH]; intros a Ha; cbn [add_entries]; [done|].
  pose proof (table_ok_step file_name e a Ha) as Hstep.
  destruct (short && _); [exact Hstep | now apply IH].
Qed.

Lemma add_entries_all file_name entries : forall a,
  accumulated (add_entries false file_name entries a) =
  accumulated a ++ map (tag file_name) entries.
Proof.
  induction entries as [|e entries IH]; intros a; cbn [add_entries andb map].
  - now rewrite app_nil_r.
  - rewrite IH. cbn [accumulated]. now rewrite <- app_assoc.
Qed.

(** In either mode the accumulated entries are a prefix of the file's. *)
Lemma add_entries_prefix short file_name entries : forall a,
  exists n,
    accumulated (add_entries short file_name entries a) =
    accumulated a ++ map (tag file_name) (take n entries).
Proof.
  induction entries as [|e entries IH]; intros a; cbn [add_entries].
  - exists 0%nat. now rewrite app_nil_r.
  - destruct (short && _).
    + exists 1%nat. reflexivity.
    + match goal with
      | |- context [add_entries _ _ _ ?a'] => destruct (IH a') as [n Hn]
      end.
      exists (S n). rewrite Hn. cbn [accumulated take map].
      now rewrite <- app_assoc.
Qed.

Lemma add_entries_short_cap file_name entries : forall a,
  (length (class_ids a) < 7)%nat ->
  (length (class_ids (add_entries true file_name entries a)) <= 7)%nat.
Proof.
  induction entries as [|e entries IH]; intros a Ha; cbn [add_entries andb];
    [lia|].
  set (ids := if bool_decide _ then _ else _).
  assert (Hids : (length ids <= 7)%nat).
  { subst ids. case_bool_decide; [lia|]. rewrite length_app. cbn. lia. }
  cbn [class_ids].
  destruct (Nat.eqb_spec (length ids) 7) as [Heq|Hne].
  - cbn [class_ids]. lia.
  - apply IH. cbn [class_ids]. lia.
Qed.

Lemma load_files_table short file_list : forall handles a handles' a',
  load_files short file_list handles a = (handles', a') ->
  table_ok a -> table_ok a'.
Proof.
  induction file_list as [|[name file] rest IH]; intros handles a handles' a' H Ha;
    cbn [load_files] in H.
  - now injection H as _ <-.
  - eapply IH; [exact H|]. now apply add_entries_table.
Qed.

Lemma load_files_all file_list : forall handles a handles' a',
  load_files false file_list handles a = (handles', a') ->
  accumulated a' = accumulated a ++ all_entries file_list.
Proof.
  unfold all_entries.
  induction file_list as [|[name file] rest IH]; intros handles a handles' a' H;
    cbn [load_files] in H.
  - injection H as _ <-. cbn. now rewrite app_nil_r.
  - rewrite (IH _ _ _ _ H), add_entries_all. cbn [map concat fst snd].
    now rewrite <- app_assoc.
Qed.

(** Every accumulated entry names a listed file, and every listed file has
    a handle. *)
Lemma load_files_handles short file_list : forall handles a handles' a',
  load_files short file_list handles a = (handles', a') ->
  (forall name, name ∈ file_list.*1 \/ is_Some (handles !! name) ->
                is_Some (handles' !! name)) /\
  (forall name file, handles' !! name = Some file ->
     (name, file) ∈ file_list \/ handles !! name = Some file) /\
  (forall e, e ∈ accumulated a' ->
     e ∈ accumulated a \/ hdf5_file e ∈ file_list.*1).
Proof.
  induction file_list as [|[name file] rest IH]; intros handles a handles' a' H;
    cbn [load_files] in H.
  - injection H as <- <-. repeat split.
    + intros n [Hn|Hn]; [now apply elem_of_nil in Hn | done].
    + auto.
    + auto.
  - destruct (IH _ _ _ _ H) as (Hopen & Hfrom & Hacc). repeat split.
    + intros n Hn. apply Hopen. cbn [fmap list_fmap fst] in Hn.
      destruct (decide (n = name)) as [->|Hne].
      * right. rewrite lookup_insert_eq. eauto.
      * rewrite lookup_insert_ne by done.
        destruct Hn as [Hn|Hn]; [|now right].
        apply elem_of_cons in Hn as [?|Hn]; [contradiction | now left].
    + intros n f Hn. destruct (Hfrom n f Hn) as [Hin|Hold].
      * left. now right.
      * destruct (decide (n = name)) as [->|Hne].
        -- rewrite lookup_insert_eq in Hold. injection Hold as <-. left. constructor.
        -- rewrite lookup_insert_ne in Hold by done. now right.
    + intros e He. cbn [fmap list_fmap fst].
      destruct (Hacc e He) as [Hin|Hin].
      * destruct (add_entries_prefix short name (file_index file) a) as [n Hn].
        rewrite Hn in Hin. apply elem_of_app in Hin as [Hin|Hin]; [now left|].
        right. change (map ?f ?l) with (f <$> l) in Hin.
        apply list_elem_of_fmap in Hin as (x & -> & _). constructor.
      * right. now right.
Qed.

Lemma index_bound {A} `{EqDecision A} (l : list A) x i :
  index l x = Ok i -> (i < length l)%nat.
Proof.
  unfold index. destruct (list_find _ l) as [[j y]|] eqn:E; [|discriminate].
  intros [= <-]. apply list_find_Some in E as (Hj & _). now apply lookup_lt_Some in Hj.
Qed.

Lemma rename_keeps_place ids names e e' :
  rename ids names e = Ok e' ->
  path e' = path e /\ hdf5_file e' = hdf5_file e /\
  (0 <= class_id e' < Z.of_nat (length ids))%Z.
Proof.
  unfold rename. intros H. bind_inv H i Ei. bind_inv H j Ej. injection H as <-.
  cbn. apply index_bound in Ei. repeat split; lia.
Qed.

Lemma unique_ids_length ids : NoDup ids -> length (unique_ids ids) = length ids.
Proof.
  intros Hnd. unfold unique_ids. rewrite merge_sort_Permutation.
  apply Permutation_length. apply NoDup_Permutation.
  - apply NoDup_remove_dups.
  - exact Hnd.
  - apply elem_of_remove_dups.
Qed.

(** A full load ([do_short_run] off) always succeeds.  It leaves all the
    entries of all the listed files, in the order of the list and of the
    files' indices, every entry tagged with its file; and a class table
    without duplicates that holds exactly the class ids of these entries, in
    the order of their first occurrence, each with the class name of an
    entry of that class. *)
Theorem full_load_class_table file_list self :
  do_short_run self = false ->
  exists self' ids names,
    _load_extra file_list self = (self', Ok tt) /\
    _entries self' = Some (all_entries file_list) /\
    _class_ids self' = Some ids /\
    _class_names self' = Some names /\
    NoDup ids /\
    length names = length ids /\
    (forall z, z ∈ ids <->
               exists e, e ∈ all_entries file_list /\ class_id e = z) /\
    (forall i z s, ids !! i = Some z -> names !! i = Some s ->
       exists e, e ∈ all_entries file_list /\ class_id e = z /\ class_str e = s).
Proof.
  intros Hshort. unfold _load_extra. rewrite Hshort.
  destruct (load_files false file_list _ _) as [handles a] eqn:E.
  pose proof (load_files_all _ _ _ _ _ E) as Hall. cbn [accumulated app] in Hall.
  assert (Hok : table_ok a).
  { eapply load_files_table; [exact E|]. unfold table_ok. cbn. repeat split.
    - constructor.
    - intros Hz. now apply elem_of_nil in Hz.
    - intros (e & He & _). now apply elem_of_nil in He.
    - intros i z s Hi. discriminate. }
  destruct Hok as (Hnd & Hlen & Hids & Hnames). rewrite Hall in *.
  eexists. exists (class_ids a), (class_names a).
  split; [reflexivity|]. cbn [_entries _class_ids _class_names]. auto 10.
Qed.


(** A short run reads the first listed file only, stops at the entry that
    brings the seventh class, and renumbers the classes: at most 7 classes
    remain, every entry comes from the first file, and every entry's class
    id is a position in the table of classes. *)
Theorem short_run_classes file_list self self' :
  do_short_run self = true ->
  _load_extra file_list self = (self', Ok tt) ->
  exists entries ids,
    _entries self' = Some entries /\
    _class_ids self' = Some ids /\
    (length ids <= 7)%nat /\
    (forall e, e ∈ entries ->
       (0 <= class_id e < Z.of_nat (length ids))%Z /\
       exists file, head file_list = Some (hdf5_file e, file)).
Proof.
  intros Hshort H. unfold _load_extra in H. rewrite Hshort in H.
  destruct (load_files true (take 1 file_list) _ _) as [handles a] eqn:E.
  destruct (mapM _ (accumulated a)) as [entries|err] eqn:Er; [|discriminate].
  injection H as <-. cbn [_entries _class_ids].
  exists entries, (class_ids a). split; [done|]. split; [done|].
  assert (Hok : table_ok a).
  { eapply load_files_table; [exact E|]. unfold table_ok. cbn. repeat split.
    - constructor.
    - intros Hz. now apply elem_of_nil in Hz.
    - intros (e & He & _). now apply elem_of_nil in He.
    - intros i z s Hi. discriminate. }
  destruct Hok as (Hnd & _).
  destruct (load_files_handles _ _ _ _ _ _ E) as (_ & _ & Hacc).
  cbn [accumulated] in Hacc.
  split.
  { destruct file_list as [|[name file] rest]; cbn [take load_files] in E.
    - injection E as _ <-. cbn. lia.
    - injection E as _ <-. apply add_entries_short_cap. cbn. lia. }
  intros e He. apply list_elem_of_lookup_1 in He as [i Hi].
  destruct (lookup_lt_is_Some_2 (accumulated a) i) as [e0 He0].
  { rewrite <- (mapM_result_length _ _ _ Er). now apply lookup_lt_Some in Hi. }
  destruct (CollateMore.mapM_result_lookup _ _ _ _ _ Er He0) as (e1 & Hren & Hi').
  rewrite Hi in Hi'. injection Hi' as <-.
  apply rename_keeps_place in Hren as (_ & Hf & Hid).
  rewrite unique_ids_length in Hid by exact Hnd. split; [exact Hid|].
  apply list_elem_of_lookup_2 in He0.
  destruct (Hacc e0 He0) as [Hnil|Hname]; [now apply elem_of_nil in Hnil|].
  destruct file_list as [|[name file] rest]; cbn [take fmap list_fmap fst] in Hname.
  - now apply elem_of_nil in Hname.
  - apply list_elem_of_singleton in Hname. exists file. cbn. now rewrite Hf, Hname.
Qed.

(** *** The properties on two concrete files *)

Import Hdf5Demo.

Lemma full_load_class_table_witness :
  do_short_run (unloaded TRAIN false) = false /\
  exists self' ids names,
    _load_extra files (unloaded TRAIN false) = (self', Ok tt) /\
    _entries self' = Some (all_entries files) /\
    _class_ids self' = Some ids /\
    _class_names self' = Some names /\
    NoDup ids /\
    length names = length ids /\
    (forall z, z ∈ ids <->
               exists e, e ∈ all_entries files /\ class_id e = z) /\
    (forall i z s, ids !! i = Some z -> names !! i = Some s ->
       exists e, e ∈ all_entries files /\ class_id e = z /\ class_str e = s).
Proof.
  split; [reflexivity|].
  exact (full_load_class_table files (unloaded TRAIN false) eq_refl).
Defined.


Lemma short_run_classes_witness :
  exists self',
    do_short_run (unloaded TRAIN true) = true /\
    _load_extra files (unloaded TRAIN true) = (self', Ok tt) /\
    exists entries ids,
      _entries self' = Some entries /\
      _class_ids self' = Some ids /\
      (length ids <= 7)%nat /\
      (forall e, e ∈ entries ->
         (0 <= class_id e < Z.of_nat (length ids))%Z /\
         exists file, head files = Some (hdf5_file e, file)).
Proof.
  destruct (_load_extra files (unloaded TRAIN true)) as [self' r] eqn:E.
  assert (Hr : r = Ok tt).
  { apply (f_equal snd) in E. cbn [snd] in E. rewrite <- E. vm_compute. reflexivity. }
  subst r. exists self'. split; [reflexivity|]. split; [reflexivity|].
  exact (short_run_classes files (unloaded TRAIN true) self' eq_refl E).
Defined.

End Hdf5Props.
